(** * jira_llm_scaler: the checkpointed scraper and the transformer

    A shallow embedding of [src/scraper.py] and [src/transformer.py].

    - Decoded JSON values are the inductive [json]; a Python [dict] is an
      association list in insertion order with unique keys.
    - The scraper talks to two things outside the program: the HTTP server
      and the file system.  Both are deterministic oracles of a [world];
      everything the scraper does to them is recorded, in order, in a
      [trace] of events.
    - Python exceptions are values of [exn] carried by [result]. *)

From Stdlib Require Import ZArith Ascii String List Bool Lia.
From stdpp Require Import base decidable option list strings pretty gmap.

Import ListNotations.
Set Warnings "-register-all".
Local Open Scope string_scope.
Local Open Scope list_scope.
Local Open Scope Z_scope.

(** ** Decoded JSON values

    What [json.loads] / [response.json()] return.  Numbers are the integers;
    floating point numbers are not part of the model. *)
Inductive json :=
| JNull
| JBool (b : bool)
| JNum (z : Z)
| JStr (s : string)
| JArr (items : list json)
| JObj (members : list (string * json)).

(** ** Python dictionaries with string keys: insertion-ordered lookup and
    item assignment *)
Section Dict.
Context {V : Type}.

Fixpoint dict_lookup (k : string) (d : list (string * V)) : option V :=
  match d with
  | [] => None
  | (k', v) :: d' => if String.eqb k k' then Some v else dict_lookup k d'
  end.

(** [d.get(k, dflt)] *)
Definition dict_get (k : string) (dflt : V) (d : list (string * V)) : V :=
  match dict_lookup k d with Some v => v | None => dflt end.

(** [d[k] = v]: overwrite in place, or append a new key at the end *)
Fixpoint dict_set (k : string) (v : V) (d : list (string * V)) : list (string * V) :=
  match d with
  | [] => [(k, v)]
  | (k', v') :: d' =>
      if String.eqb k k' then (k', v) :: d' else (k', v') :: dict_set k v d'
  end.
End Dict.

(** ** Python text

    A Python [str] is modelled as a [string] whose characters are the code
    points below 256. *)
Module Py.

Definition dquote : ascii := "034"%char.
Definition squote : ascii := "039"%char.
Definition backslash : ascii := "092"%char.
Definition nl : string := String "010"%char EmptyString.

Definition code (c : ascii) : N := N_of_ascii c.

Definition in_range (lo hi : N) (c : ascii) : bool :=
  ((lo <=? code c) && (code c <=? hi))%N.

(** [str.isspace] on one character, which is also the class [\s] of [re] *)
Definition is_space (c : ascii) : bool :=
  in_range 9 13 c || in_range 28 32 c || (code c =? 133)%N || (code c =? 160)%N.

(** the class [\d] *)
Definition is_digit (c : ascii) : bool := in_range 48 57 c.

(** the class [\w]: alphanumeric or underscore *)
Definition is_word (c : ascii) : bool :=
  in_range 48 57 c || in_range 65 90 c || in_range 97 122 c || (code c =? 95)%N
  || (code c =? 170)%N || in_range 178 179 c || (code c =? 181)%N
  || in_range 185 186 c || in_range 188 190 c
  || in_range 192 214 c || in_range 216 246 c || in_range 248 255 c.

(** [str.isprintable] on one character *)
Definition is_printable (c : ascii) : bool :=
  in_range 32 126 c || (in_range 161 255 c && negb (code c =? 173)%N).

Definition hex_digit (n : N) : ascii :=
  if (n <? 10)%N then ascii_of_N (48 + n) else ascii_of_N (87 + n).

(** the two lower-case hexadecimal digits of a code point *)
Definition hex2 (c : ascii) : string :=
  String (hex_digit (code c / 16)) (String (hex_digit (code c mod 16)) EmptyString).

Fixpoint contains (c : ascii) (s : string) : bool :=
  match s with
  | EmptyString => false
  | String c' s' => Ascii.eqb c c' || contains c s'
  end.

Fixpoint join (sep : string) (parts : list string) : string :=
  match parts with
  | [] => EmptyString
  | [x] => x
  | x :: rest => x +:+ sep +:+ join sep rest
  end.

(** [repr] of a [str] *)
Definition repr_char (q : ascii) (c : ascii) : string :=
  if Ascii.eqb c q || Ascii.eqb c backslash then String backslash (String c EmptyString)
  else if (code c =? 9)%N then String backslash "t"
  else if (code c =? 10)%N then String backslash "n"
  else if (code c =? 13)%N then String backslash "r"
  else if is_printable c then String c EmptyString
  else String backslash ("x" +:+ hex2 c).

Fixpoint repr_chars (q : ascii) (s : string) : string :=
  match s with
  | EmptyString => EmptyString
  | String c s' => repr_char q c +:+ repr_chars q s'
  end.

Definition repr_str (s : string) : string :=
  let q := if contains squote s && negb (contains dquote s) then dquote else squote in
  String q (repr_chars q s +:+ String q EmptyString).

(** [repr] of a decoded JSON value *)
Fixpoint repr (v : json) : string :=
  match v with
  | JNull => "None"
  | JBool true => "True"
  | JBool false => "False"
  | JNum z => pretty z
  | JStr s => repr_str s
  | JArr items => "[" +:+ join ", " (map repr items) +:+ "]"
  | JObj members =>
      "{" +:+ join ", " (map (fun m => repr_str (fst m) +:+ ": " +:+ repr (snd m)) members)
      +:+ "}"
  end.

(** [str(v)], which is what an f-string field [{v}] inserts *)
Definition str (v : json) : string :=
  match v with
  | JStr s => s
  | _ => repr v
  end.

(** Truth value of a decoded JSON value *)
Definition truthy (v : json) : bool :=
  match v with
  | JNull => false
  | JBool b => b
  | JNum z => negb (z =? 0)
  | JStr s => negb (String.eqb s "")
  | JArr items => match items with [] => false | _ => true end
  | JObj members => match members with [] => false | _ => true end
  end.

(** [json.encoder.py_encode_basestring_ascii]: a JSON string literal *)
Definition encode_char (c : ascii) : string :=
  if Ascii.eqb c dquote || Ascii.eqb c backslash then String backslash (String c EmptyString)
  else if (code c =? 8)%N then String backslash "b"
  else if (code c =? 12)%N then String backslash "f"
  else if (code c =? 10)%N then String backslash "n"
  else if (code c =? 13)%N then String backslash "r"
  else if (code c =? 9)%N then String backslash "t"
  else if in_range 32 126 c then String c EmptyString
  else String backslash ("u00" +:+ hex2 c).

Fixpoint encode_chars (s : string) : string :=
  match s with
  | EmptyString => EmptyString
  | String c s' => encode_char c +:+ encode_chars s'
  end.

Definition encode_basestring_ascii (s : string) : string :=
  String dquote (encode_chars s +:+ String dquote EmptyString).

End Py.

Module Scraper.

(** *** Configuration constants of [scraper.py] *)
Definition PAGE_SIZE : Z := 100.
Definition MAX_RETRIES : nat := 5.
Definition PROJECTS_TO_FETCH : list string := ["SPARK"; "KAFKA"; "HADOOP"].

(** *** Data *)

(** A value of the checkpoint mapping: an integer offset, or the string
    ["COMPLETED"]. *)
Inductive marker :=
| Offset (n : Z)
| COMPLETED.

Definition checkpoint := list (string * marker).

(** The body of a successful search response: [data.get('total', 0)] and
    [data.get('issues', [])] read the two members, either of which may be
    absent. *)
Record page := { total : option Z; issues : option (list json) }.

(** Outcome of one [requests.get(...)] followed, on an ok status, by
    [response.json()].  [RequestException] stands for every
    [requests.exceptions.RequestException] (timeout, connection error, a body
    that is not JSON). *)
Inductive http_result :=
| Response (status_code : Z) (body : page)
| RequestException.

(** The environment: the answer to the n-th request of the run, and the fate
    of the n-th append to the output file ([None]: every line written;
    [Some k]: [IOError] after [k] lines reached the file). *)
Record world := {
  http_get : nat -> string -> Z -> http_result;
  file_append : nat -> option nat
}.

(** What the run does to the outside, in order.  Sleeps are in milliseconds. *)
Inductive event :=
| EvRequest (project : string) (start_at : Z)
| EvSleep (ms : Z)
| EvAppend (written : list json) (ok : bool)
| EvSave (snapshot : checkpoint).

(** The [JiraScraper] object together with the two files it owns.
    [checkpoint_file] is the mapping the checkpoint file decodes to, [None]
    while there is no such file or it does not decode. *)
Record scraper := {
  projects_to_fetch : list string;
  checkpoint_data : checkpoint;
  checkpoint_file : option checkpoint;
  output_file : list json;
  requests_made : nat;
  appends_made : nat;
  trace : list event
}.

Definition log_event (e : event) (st : scraper) : scraper :=
  {| projects_to_fetch := projects_to_fetch st;
     checkpoint_data := checkpoint_data st;
     checkpoint_file := checkpoint_file st;
     output_file := output_file st;
     requests_made := requests_made st;
     appends_made := appends_made st;
     trace := trace st ++ [e] |}.

(** [time.sleep] *)
Definition sleep (ms : Z) (st : scraper) : scraper := log_event (EvSleep ms) st.

(** [self.checkpoint_data[project] = m] *)
Definition set_marker (project : string) (m : marker) (st : scraper) : scraper :=
  {| projects_to_fetch := projects_to_fetch st;
     checkpoint_data := dict_set project m (checkpoint_data st);
     checkpoint_file := checkpoint_file st;
     output_file := output_file st;
     requests_made := requests_made st;
     appends_made := appends_made st;
     trace := trace st |}.

(** *** [_load_checkpoint] *)

(** [for project in self.projects_to_fetch: if project not in
    checkpoint_data: checkpoint_data[project] = 0] *)
Fixpoint fill_missing (projects : list string) (d : checkpoint) : checkpoint :=
  match projects with
  | [] => d
  | project :: rest =>
      fill_missing rest
        (match dict_lookup project d with
         | Some _ => d
         | None => dict_set project (Offset 0) d
         end)
  end.

(** [{project: 0 for project in self.projects_to_fetch}] *)
Definition fresh_checkpoint (projects : list string) : checkpoint :=
  fill_missing projects [].

(** [file] is what is on disk: [None] when there is no file, [Some None] when
    its content is not JSON, [Some (Some d)] when it decodes to the mapping
    [d]. *)
Definition _load_checkpoint (projects : list string)
    (file : option (option checkpoint)) : checkpoint :=
  match file with
  | None => fresh_checkpoint projects
  | Some None => fresh_checkpoint projects
  | Some (Some d) => fill_missing projects d
  end.

(** *** [_save_checkpoint]: the whole mapping replaces the file *)
Definition _save_checkpoint (st : scraper) : scraper :=
  log_event (EvSave (checkpoint_data st))
    {| projects_to_fetch := projects_to_fetch st;
       checkpoint_data := checkpoint_data st;
       checkpoint_file := Some (checkpoint_data st);
       output_file := output_file st;
       requests_made := requests_made st;
       appends_made := appends_made st;
       trace := trace st |}.

(** *** [_save_checkpoint] at the level of the file's text

    [with open(self.checkpoint_file, 'w') as f: json.dump(data, f, indent=2)]
    opens the file for writing, which empties it; [json.dump] then writes the
    encoder's chunks one after the other; leaving the [with] block closes the
    file. *)

Definition json_of_marker (m : marker) : string :=
  match m with
  | Offset n => pretty n
  | COMPLETED => Py.encode_basestring_ascii "COMPLETED"
  end.

(** The chunks [JSONEncoder(indent=2).iterencode] yields for the mapping *)
Fixpoint iterencode_items (first : bool) (d : checkpoint) : list string :=
  match d with
  | [] => []
  | (key, value) :: d' =>
      (if first then [] else ["," +:+ Py.nl +:+ "  "])
      ++ [Py.encode_basestring_ascii key; ": "; json_of_marker value]
      ++ iterencode_items false d'
  end.

Definition iterencode (d : checkpoint) : list string :=
  match d with
  | [] => ["{}"]
  | _ :: _ => ["{"; Py.nl +:+ "  "] ++ iterencode_items true d ++ [Py.nl; "}"]
  end.

(** [json.dumps(d, indent=2)] *)
Definition dumps (d : checkpoint) : string :=
  fold_right String.append EmptyString (iterencode d).

Inductive file_op :=
| OpenW
| Write (chunk : string)
| Close.

(** The content of the checkpoint file ([None]: no such file) after one
    operation *)
Definition apply_op (disk : option string) (op : file_op) : option string :=
  match op with
  | OpenW => Some EmptyString
  | Write chunk => Some (default EmptyString disk +:+ chunk)
  | Close => disk
  end.

Definition save_checkpoint_ops (d : checkpoint) : list file_op :=
  [OpenW] ++ map Write (iterencode d) ++ [Close].

(** What is on disk when the process dies after [k] of the operations of a
    save of [d].  The file object buffers its writes, so a chunk may reach
    the disk later than it is written; the disk then holds what a smaller
    [k], at least 1, gives. *)
Definition disk_after (k : nat) (d : checkpoint) (disk : option string) : option string :=
  fold_left apply_op (firstn k (save_checkpoint_ops d)) disk.

(** *** [_save_issues_to_jsonl] *)
Definition _save_issues_to_jsonl (w : world) (issues_list : list json)
    (st : scraper) : bool * scraper :=
  let fate := file_append w (appends_made st) in
  let written := match fate with
                 | None => issues_list
                 | Some k => firstn k issues_list
                 end in
  let ok := match fate with None => true | Some _ => false end in
  (ok,
   log_event (EvAppend written ok)
     {| projects_to_fetch := projects_to_fetch st;
        checkpoint_data := checkpoint_data st;
        checkpoint_file := checkpoint_file st;
        output_file := output_file st ++ written;
        requests_made := requests_made st;
        appends_made := S (appends_made st);
        trace := trace st |}).

(** *** [_fetch_jira_page] *)

(** [response.ok]: the status is not in the 4xx/5xx range *)
Definition response_ok (status_code : Z) : bool :=
  negb ((400 <=? status_code) && (status_code <? 600)).

Definition send_request (w : world) (project_key : string) (start_at : Z)
    (st : scraper) : http_result * scraper :=
  (http_get w (requests_made st) project_key start_at,
   log_event (EvRequest project_key start_at)
     {| projects_to_fetch := projects_to_fetch st;
        checkpoint_data := checkpoint_data st;
        checkpoint_file := checkpoint_file st;
        output_file := output_file st;
        requests_made := S (requests_made st);
        appends_made := appends_made st;
        trace := trace st |}).

(** The body of [for attempt in range(MAX_RETRIES)], with the number of
    attempts left as the structural argument. *)
Fixpoint fetch_attempts (w : world) (attempts : nat) (project_key : string)
    (start_at : Z) (st : scraper) : option page * scraper :=
  match attempts with
  | O => (None, st)
  | S attempts' =>
      let '(response, st) := send_request w project_key start_at st in
      match response with
      | RequestException =>
          fetch_attempts w attempts' project_key start_at (sleep 15000 st)
      | Response status_code body =>
          if status_code =? 429 then
            fetch_attempts w attempts' project_key start_at (sleep 60000 st)
          else if 500 <=? status_code then
            fetch_attempts w attempts' project_key start_at (sleep 15000 st)
          else if negb (response_ok status_code) then (None, st)
          else (Some body, st)
      end
  end.

Definition _fetch_jira_page (w : world) (project_key : string) (start_at : Z)
    (st : scraper) : option page * scraper :=
  fetch_attempts w MAX_RETRIES project_key start_at st.

(** *** [run_pipeline] *)

(** How one pass through the body of [while True] ends. *)
Inductive pass :=
| Break (st : scraper)
| Return (st : scraper)
| Again (current_index total_issues : Z) (st : scraper).

Definition loop_body (w : world) (project : string)
    (current_index total_issues : Z) (st : scraper) : pass :=
  let '(data, st) := _fetch_jira_page w project current_index st in
  match data with
  | None => Break st
  | Some data =>
      let first := total_issues =? -1 in
      let total_issues :=
        if first then default 0 (total data) else total_issues in
      if first && (total_issues =? 0) then Break st
      else
        let issues_on_page := default [] (issues data) in
        match issues_on_page with
        | [] => Break (_save_checkpoint (set_marker project COMPLETED st))
        | _ :: _ =>
            let '(saved, st) := _save_issues_to_jsonl w issues_on_page st in
            if negb saved then Return st
            else
              let current_index := current_index + Z.of_nat (length issues_on_page) in
              let st := _save_checkpoint (set_marker project (Offset current_index) st) in
              if total_issues <=? current_index then
                Break (_save_checkpoint (set_marker project COMPLETED st))
              else Again current_index total_issues (sleep 300 st)
        end
  end.

(** How the [while True] loop of one project ends: by [break] (the [for]
    loop goes on) or by [return] (the run is over). *)
Inductive loop_end :=
| Broke (st : scraper)
| Returned (st : scraper).

(** The loop once [total_issues] is known and different from [-1]: every
    further pass moves [current_index] up and goes on only below
    [total_issues], so [total_issues - current_index] passes are enough. *)
Fixpoint while_total (w : world) (passes : nat) (project : string)
    (current_index total_issues : Z) (st : scraper) : loop_end :=
  match loop_body w project current_index total_issues st with
  | Break st' => Broke st'
  | Return st' => Returned st'
  | Again current_index' total_issues' st' =>
      match passes with
      | O => Broke st'
      | S passes' => while_total w passes' project current_index' total_issues' st'
      end
  end.

(** The loop while [total_issues] is still [-1] (before the first page, and
    for as long as the server itself reports [-1]). *)
Fixpoint while_first (w : world) (passes : nat) (project : string)
    (current_index : Z) (st : scraper) : loop_end :=
  match loop_body w project current_index (-1) st with
  | Break st' => Broke st'
  | Return st' => Returned st'
  | Again current_index' total_issues' st' =>
      if total_issues' =? -1 then
        match passes with
        | O => Broke st'
        | S passes' => while_first w passes' project current_index' st'
        end
      else
        while_total w (Z.to_nat (total_issues' - current_index')) project
          current_index' total_issues' st'
  end.

Definition while_true (w : world) (project : string) (current_index : Z)
    (st : scraper) : loop_end :=
  while_first w (Z.to_nat (-1 - current_index)) project current_index st.

(** [for project in self.projects_to_fetch: ...] *)
Fixpoint for_projects (w : world) (projects : list string) (st : scraper) : scraper :=
  match projects with
  | [] => st
  | project :: rest =>
      match dict_get project (Offset 0) (checkpoint_data st) with
      | COMPLETED => for_projects w rest st
      | Offset current_index =>
          match while_true w project current_index st with
          | Broke st' => for_projects w rest st'
          | Returned st' => st'
          end
      end
  end.

Definition run_pipeline (w : world) (st : scraper) : scraper :=
  for_projects w (projects_to_fetch st) st.

(** [JiraScraper(projects, ...)]: the object right after [__init__], given
    what the two files hold. *)
Definition init (projects : list string) (file : option (option checkpoint))
    (out : list json) : scraper :=
  {| projects_to_fetch := projects;
     checkpoint_data := _load_checkpoint projects file;
     checkpoint_file := match file with
                        | Some (Some d) => Some d
                        | _ => None
                        end;
     output_file := out;
     requests_made := O;
     appends_made := O;
     trace := [] |}.

(** The script's main block: build the object, run the pipeline *)
Definition main (w : world) (projects : list string)
    (file : option (option checkpoint)) (out : list json) : scraper :=
  run_pipeline w (init projects file out).

(** *** Reading a run *)

(** [self.checkpoint_data.get(project, 0)] *)
Definition marker_of (project : string) (c : checkpoint) : marker :=
  dict_get project (Offset 0) c.

(** The marker the next run would start from, given the file: a missing or
    unreadable file, or a missing key, reads as offset 0. *)
Definition persisted_marker (project : string) (file : option checkpoint) : marker :=
  match file with
  | Some snapshot => marker_of project snapshot
  | None => Offset 0
  end.

(** Lines 160-165 (and 149-150, 171-172): store the new marker, then write
    the snapshot *)
Definition commit (project : string) (m : marker) (st : scraper) : scraper :=
  _save_checkpoint (set_marker project m st).

(** The object's mapping and the file's tell the same marker for every
    collection. *)
Definition agrees (st : scraper) : Prop :=
  forall q, marker_of q (checkpoint_data st) = persisted_marker q (checkpoint_file st).

(** The [while True] loop as the source runs it, without a bound on the
    number of passes. *)
Inductive while_exec (w : world) (project : string) :
    Z -> Z -> scraper -> loop_end -> Prop :=
| exec_break current_index total_issues st st' :
    loop_body w project current_index total_issues st = Break st' ->
    while_exec w project current_index total_issues st (Broke st')
| exec_return current_index total_issues st st' :
    loop_body w project current_index total_issues st = Return st' ->
    while_exec w project current_index total_issues st (Returned st')
| exec_again current_index total_issues st current_index' total_issues' st' r :
    loop_body w project current_index total_issues st
      = Again current_index' total_issues' st' ->
    while_exec w project current_index' total_issues' st' r ->
    while_exec w project current_index total_issues st r.

(** Offsets are ordered as integers and lie below the terminal marker. *)
Definition marker_le (a b : marker) : Prop :=
  match a, b with
  | Offset x, Offset y => x <= y
  | _, COMPLETED => True
  | COMPLETED, Offset _ => False
  end.

(** The snapshot in force after an event, and after a sequence of events *)
Definition after (cur : checkpoint) (e : event) : checkpoint :=
  match e with
  | EvSave c => c
  | _ => cur
  end.

Definition last_saved (c0 : checkpoint) (tr : list event) : checkpoint :=
  fold_left after tr c0.

Definition file_after (f0 : option checkpoint) (tr : list event) : option checkpoint :=
  fold_left (fun f e => match e with EvSave c => Some c | _ => f end) tr f0.

(** An event respects the snapshot in force: a save moves no marker down,
    and no page is requested for a collection whose marker is terminal. *)
Definition allowed (cur : checkpoint) (e : event) : Prop :=
  match e with
  | EvSave c => forall p, marker_le (marker_of p cur) (marker_of p c)
  | EvRequest p _ => marker_of p cur <> COMPLETED
  | _ => True
  end.

Fixpoint monitored (cur : checkpoint) (tr : list event) : Prop :=
  match tr with
  | [] => True
  | e :: tr' => allowed cur e /\ monitored (after cur e) tr'
  end.

(** An append that raised [IOError] *)
Definition failed_append (e : event) : bool :=
  match e with
  | EvAppend _ false => true
  | _ => false
  end.

(** Number of requests sent and total time slept in a sequence of events *)
Fixpoint requests_in (tr : list event) : nat :=
  match tr with
  | [] => O
  | EvRequest _ _ :: tr' => S (requests_in tr')
  | _ :: tr' => requests_in tr'
  end.

Fixpoint slept (tr : list event) : Z :=
  match tr with
  | [] => 0
  | EvSleep ms :: tr' => ms + slept tr'
  | _ :: tr' => slept tr'
  end.

(** A failure worth another attempt: 429, 5xx, or a network error *)
Definition transient (r : http_result) : bool :=
  match r with
  | RequestException => true
  | Response status_code _ => (status_code =? 429) || (500 <=? status_code)
  end.

(** *** What holds of the state during a run that started from the mapping
    [c0] and the checkpoint file [f0] *)

(** The trace respects the markers, and the object and the file hold what
    the trace says was saved last. *)
Definition sound (c0 : checkpoint) (f0 : option checkpoint) (st : scraper) : Prop :=
  monitored c0 (trace st)
  /\ last_saved c0 (trace st) = checkpoint_data st
  /\ file_after f0 (trace st) = checkpoint_file st.

(** No append has failed so far. *)
Definition running (c0 : checkpoint) (f0 : option checkpoint) (st : scraper) : Prop :=
  sound c0 f0 st /\ Forall (fun e => failed_append e = false) (trace st).

(** Inside the loop of collection [p], at offset [cur] *)
Definition fetching (c0 : checkpoint) (f0 : option checkpoint) (p : string) (cur : Z)
    (st : scraper) : Prop :=
  running c0 f0 st /\ marker_of p (checkpoint_data st) = Offset cur.

(** The last thing that happened is a failed append. *)
Definition aborted (c0 : checkpoint) (f0 : option checkpoint) (st : scraper) : Prop :=
  sound c0 f0 st /\ exists pre written,
    trace st = pre ++ [EvAppend written false]
    /\ Forall (fun e => failed_append e = false) pre.

(** The collection of the last request in a sequence of events *)
Definition last_project (tr : list event) : option string :=
  fold_left (fun lp e => match e with EvRequest p _ => Some p | _ => lp end) tr None.

(** Every save in [tr] follows a request, and differs from the snapshot in
    force before it at most in the entry of that request's collection. *)
Definition frames (c0 : checkpoint) (tr : list event) : Prop :=
  forall pre c post,
    tr = pre ++ EvSave c :: post ->
    exists p, last_project pre = Some p
              /\ forall q, q <> p -> marker_of q c = marker_of q (last_saved c0 pre).

(** *** Some servers and disks *)

Definition issue_number (i : nat) : json := JObj [("id", JNum (Z.of_nat i))].

(** A server holding [n] issues per project, handing out at most [size] of
    them per page *)
Definition serve (n size : nat) (start_at : Z) : http_result :=
  let from := Z.to_nat start_at in
  Response 200
    {| total := Some (Z.of_nat n);
       issues := Some (map issue_number (seq from (Nat.min size (n - from)))) |}.

Definition small_world : world :=
  {| http_get := fun _ _ start_at => serve 3 2 start_at;
     file_append := fun _ => None |}.

Definition empty_world : world :=
  {| http_get := fun _ _ start_at => serve 0 2 start_at;
     file_append := fun _ => None |}.

Definition full_disk_world : world :=
  {| http_get := fun _ _ start_at => serve 3 2 start_at;
     file_append := fun _ => Some 1%nat |}.

Definition down_world : world :=
  {| http_get := fun _ _ _ => Response 500 {| total := None; issues := None |};
     file_append := fun _ => None |}.

(** *** More ways to read a run *)

(** The collection and the offset of the last request in a sequence of
    events *)
Definition last_request (tr : list event) : option (string * Z) :=
  fold_left (fun lr e => match e with EvRequest p s => Some (p, s) | _ => lr end) tr None.

(** The records the appends of a sequence of events put in the output file *)
Fixpoint appended (tr : list event) : list json :=
  match tr with
  | [] => []
  | EvAppend written _ :: tr' => written ++ appended tr'
  | _ :: tr' => appended tr'
  end.

(** Every request asks for the page at the offset the collection's marker
    holds at that moment. *)
Definition requests_at_marker (c0 : checkpoint) (tr : list event) : Prop :=
  forall pre p s post,
    tr = pre ++ EvRequest p s :: post ->
    marker_of p (last_saved c0 pre) = Offset s.

(** The page the last event of a sequence appended, when that event is a
    successful append *)
Definition last_append (tr : list event) : option (list json) :=
  match rev tr with
  | EvAppend l true :: _ => Some l
  | _ => None
  end.

(** Every save stores the snapshot in force with one entry replaced, that of
    the collection last requested: right after a successful append the entry
    becomes the offset of the request plus the number of records appended,
    otherwise it becomes the terminal marker. *)
Definition saves_explained (c0 : checkpoint) (tr : list event) : Prop :=
  forall pre c post,
    tr = pre ++ EvSave c :: post ->
    exists p s,
      last_request pre = Some (p, s)
      /\ c = dict_set p
               (match last_append pre with
                | Some l => Offset (s + Z.of_nat (length l))
                | None => COMPLETED
                end)
               (last_saved c0 pre).

(** Every successful append is followed at once by a save. *)
Definition settled (tr : list event) : Prop :=
  forall pre l post,
    tr = pre ++ EvAppend l true :: post ->
    exists c post', post = EvSave c :: post'.

(** The three together, with the object's mapping being the snapshot in
    force *)
Definition paged (c0 : checkpoint) (tr : list event) (data : checkpoint) : Prop :=
  requests_at_marker c0 tr /\ saves_explained c0 tr /\ last_saved c0 tr = data.

(** A server whose first page promises three issues and holds none *)
Definition hollow_world : world :=
  {| http_get := fun _ _ _ => Response 200 {| total := Some 3; issues := Some [] |};
     file_append := fun _ => None |}.

(** A server that answers 503 twice, then serves; and one that answers 503
    twice, then 404 *)
Definition flaky_world : world :=
  {| http_get := fun n _ start_at =>
       if (n <? 2)%nat then Response 503 {| total := None; issues := None |}
       else serve 3 2 start_at;
     file_append := fun _ => None |}.

Definition lost_world : world :=
  {| http_get := fun n _ _ =>
       if (n <? 2)%nat then Response 503 {| total := None; issues := None |}
       else Response 404 {| total := None; issues := None |};
     file_append := fun _ => None |}.

(** What holds of the state between two events of a run that started from
    the mapping [c0], at the control points of the loop: between two
    collections, inside the loop of [p] at offset [cur], after a request,
    after the append of the page [l], and after the save that follows it *)
Definition page_ok (c0 : checkpoint) (st : scraper) : Prop :=
  paged c0 (trace st) (checkpoint_data st) /\ settled (trace st).

Definition page_inside (c0 : checkpoint) (p : string) (cur : Z) (st : scraper) : Prop :=
  page_ok c0 st /\ marker_of p (checkpoint_data st) = Offset cur.

Definition page_fetched (c0 : checkpoint) (p : string) (cur : Z) (st : scraper) : Prop :=
  page_ok c0 st /\ marker_of p (checkpoint_data st) = Offset cur
  /\ last_request (trace st) = Some (p, cur) /\ last_append (trace st) = None.

Definition page_appended (c0 : checkpoint) (p : string) (cur : Z) (l : list json)
    (st : scraper) : Prop :=
  exists tr, trace st = tr ++ [EvAppend l true]
             /\ paged c0 tr (checkpoint_data st) /\ settled tr
             /\ last_request tr = Some (p, cur).

Definition page_advanced (c0 : checkpoint) (p : string) (cur : Z) (st : scraper) : Prop :=
  page_ok c0 st /\ marker_of p (checkpoint_data st) = Offset cur
  /\ (exists s, last_request (trace st) = Some (p, s))
  /\ last_append (trace st) = None.

(** What a restart would load from the checkpoint file as it is *)
Definition reload (st : scraper) : checkpoint :=
  _load_checkpoint (projects_to_fetch st)
    (match checkpoint_file st with
     | Some d => Some (Some d)
     | None => None
     end).

(** Every collection of [projects] has an entry in [d]. *)
Definition covers (projects : list string) (d : checkpoint) : Prop :=
  forall p, In p projects -> dict_lookup p d <> None.

(** The events of one page fetch: requests for that page, and the two kinds
    of sleep *)
Definition fetch_event (p : string) (s : Z) (e : event) : Prop :=
  e = EvRequest p s \/ e = EvSleep 15000 \/ e = EvSleep 60000.

(** No append has failed so far. *)
Definition intact (st : scraper) : Prop :=
  Forall (fun e => failed_append e = false) (trace st).

(** Inside the loop of [p] at offset [cur], with no failed append so far *)
Definition resumable (p : string) (cur : Z) (st : scraper) : Prop :=
  intact st /\ marker_of p (checkpoint_data st) = Offset cur.

(** The page of [p] at [cur] has just been requested. *)
Definition requested (p : string) (cur : Z) (st : scraper) : Prop :=
  resumable p cur st /\ last_request (trace st) = Some (p, cur).

(** The run has just failed to append a page, the first failure of the run;
    the marker of the page's collection is still the page's offset. *)
Definition interrupted (st : scraper) : Prop :=
  exists tr l p s,
    trace st = tr ++ [EvAppend l false]
    /\ Forall (fun e => failed_append e = false) tr
    /\ last_request tr = Some (p, s)
    /\ marker_of p (checkpoint_data st) = Offset s.

(** *** A server that behaves *)

(** The server holds the records [data p] of collection [p] and serves them
    in pages of [size]; every request is answered, and every append
    succeeds. *)
Definition archive (data : string -> list json) (size : nat) : world :=
  {| http_get := fun _ p start_at =>
       Response 200
         {| total := Some (Z.of_nat (length (data p)));
            issues := Some (firstn size (skipn (Z.to_nat start_at) (data p))) |};
     file_append := fun _ => None |}.

(** The records of [p] that a marker leaves to fetch *)
Definition remaining (data : string -> list json) (p : string) (m : marker) : list json :=
  match m with
  | Offset start_at => skipn (Z.to_nat start_at) (data p)
  | COMPLETED => []
  end.

(** The loop of [p] has fetched what was left and marked [p], and has
    touched no other collection. *)
Definition collected (data : string -> list json) (p : string) (cur : Z)
    (st st' : scraper) : Prop :=
  output_file st' = output_file st ++ skipn (Z.to_nat cur) (data p)
  /\ marker_of p (checkpoint_data st') = COMPLETED
  /\ forall q, q <> p -> marker_of q (checkpoint_data st') = marker_of q (checkpoint_data st).

(** *** A server that may fail but does not lie *)

(** The page the server of [archive] returns *)
Definition archive_page (data : string -> list json) (size : nat) (p : string)
    (start_at : Z) : page :=
  {| total := Some (Z.of_nat (length (data p)));
     issues := Some (firstn size (skipn (Z.to_nat start_at) (data p))) |}.

(** Requests may fail in any way, but an answer with a status below 400
    is the page of the archive; an append writes the whole page or nothing. *)
Definition consistent (data : string -> list json) (size : nat) (w : world) : Prop :=
  (forall n p start_at status_code body,
     http_get w n p start_at = Response status_code body ->
     status_code < 400 ->
     body = archive_page data size p start_at)
  /\ (forall n k, file_append w n = Some k -> k = O).

(** The collection of the last request *)
Definition requesting (current : option string) (tr : list event) : option string :=
  fold_left (fun c e => match e with EvRequest q _ => Some q | _ => c end) tr current.

Definition is_current (q : string) (current : option string) : bool :=
  match current with
  | Some q' => String.eqb q' q
  | None => false
  end.

(** The records appended for collection [q]: those of the appends that
    follow a request for [q] *)
Fixpoint fetched_from (q : string) (current : option string) (tr : list event)
    : list json :=
  match tr with
  | [] => []
  | EvRequest q' _ :: tr' => fetched_from q (Some q') tr'
  | EvAppend written _ :: tr' =>
      (if is_current q current then written else []) ++ fetched_from q current tr'
  | _ :: tr' => fetched_from q current tr'
  end.

Definition fetched (q : string) (tr : list event) : list json := fetched_from q None tr.

(** The records between two markers *)
Definition segment (records : list json) (from to : marker) : list json :=
  match from, to with
  | Offset a, Offset b => firstn (Z.to_nat b - Z.to_nat a) (skipn (Z.to_nat a) records)
  | Offset a, COMPLETED => skipn (Z.to_nat a) records
  | COMPLETED, _ => []
  end.

(** What the run has appended for each collection is what lies between the
    marker it started from and the marker it holds. *)
Definition collecting (data : string -> list json) (c0 : checkpoint) (st : scraper)
    : Prop :=
  (forall q, fetched q (trace st)
             = segment (data q) (marker_of q c0) (marker_of q (checkpoint_data st)))
  /\ (forall q, marker_le (marker_of q c0) (marker_of q (checkpoint_data st)))
  /\ (forall q s, marker_of q c0 = Offset s -> 0 <= s).

(** A server that answers 503 twice and then serves three records per
    collection two at a time, with a disk that refuses the second append *)
Definition shaky_world : world :=
  {| http_get := fun n p start_at =>
       if (n <? 2)%nat then Response 503 {| total := None; issues := None |}
       else Response 200
              (archive_page
                 (fun _ => [issue_number 0; issue_number 1; issue_number 2]) 2 p start_at);
     file_append := fun n => if (n =? 1)%nat then Some O else None |}.

End Scraper.


(** ** Regular expressions

    The patterns of [transformer.py] are sequences of greedy repetitions of a
    one-character class, and the word boundary [\b].  [match_here] is the
    backtracking matcher of [re]: a repetition first tries to take one more
    character and falls back to what it has; the first success wins. *)
Module Re.

Inductive item :=
| Chars (cls : ascii -> bool) (lo : nat) (hi : option nat) (group : bool)
| WordBoundary.

(** A literal character *)
Definition lit (c : ascii) : item := Chars (Ascii.eqb c) 1 (Some 1%nat) false.

(** One or more characters of a class; [true] makes it capture group 1 *)
Definition plus (cls : ascii -> bool) (group : bool) : item := Chars cls 1 None group.

Definition below (hi : option nat) (n : nat) : bool :=
  match hi with
  | None => true
  | Some h => (n <? h)%nat
  end.

Definition word_at (c : option ascii) : bool :=
  match c with
  | Some c => Py.is_word c
  | None => false
  end.

Definition head (s : string) : option ascii :=
  match s with
  | EmptyString => None
  | String c _ => Some c
  end.

(** [match_here p prev s]: match [p] at the start of [s], which [prev]
    precedes; the text of group 1 and what is left of [s] *)
Fixpoint match_here (p : list item) (prev : option ascii) (s : string)
    : option (string * string) :=
  match p with
  | [] => Some (EmptyString, s)
  | WordBoundary :: p' =>
      if xorb (word_at prev) (word_at (head s)) then match_here p' prev s else None
  | Chars cls lo hi group :: p' =>
      (fix rep (n : nat) (taken : string) (prev : option ascii) (s : string) {struct s}
           : option (string * string) :=
         match
           match s with
           | String c s' =>
               if cls c && below hi n
               then rep (S n) (taken +:+ String c EmptyString) (Some c) s'
               else None
           | EmptyString => None
           end
         with
         | Some r => Some r
         | None =>
             if (lo <=? n)%nat then
               match match_here p' prev s with
               | Some (g, rest) => Some (if group then taken else g, rest)
               | None => None
               end
             else None
         end) O EmptyString prev s
  end.

(** [re.sub(p, repl, s)], scanning from the left; [skip] characters still
    belong to the match just replaced. *)
Fixpoint sub_from (p : list item) (repl : string -> string) (prev : option ascii)
    (skip : nat) (s : string) : string :=
  match s with
  | EmptyString =>
      match skip, match_here p prev EmptyString with
      | O, Some (g, _) => repl g
      | _, _ => EmptyString
      end
  | String c s' =>
      match skip with
      | S k => sub_from p repl (Some c) k s'
      | O =>
          match match_here p prev s with
          | Some (g, rest) =>
              match (String.length s - String.length rest)%nat with
              | O => repl g +:+ String c (sub_from p repl (Some c) O s')
              | S k => repl g +:+ sub_from p repl (Some c) k s'
              end
          | None => String c (sub_from p repl (Some c) O s')
          end
      end
  end.

Definition sub (p : list item) (repl : string -> string) (s : string) : string :=
  sub_from p repl None O s.

(** [str.strip()] *)
Fixpoint lstrip (s : string) : string :=
  match s with
  | EmptyString => EmptyString
  | String c s' => if Py.is_space c then lstrip s' else s
  end.

Fixpoint rstrip (s : string) : string :=
  match s with
  | EmptyString => EmptyString
  | String c s' =>
      match rstrip s' with
      | EmptyString => if Py.is_space c then EmptyString else String c EmptyString
      | r => String c r
      end
  end.

Definition strip (s : string) : string := rstrip (lstrip s).

End Re.

(** ** A model of [BeautifulSoup(text, 'html.parser').get_text(separator=' ')]

    The library is not part of the repository.  The model covers markup made
    of text, start tags and end tags: a ['<'] followed by a letter or by
    ['/'] opens a tag, which runs to the next ['>']; without a ['>'] the rest
    is text.  The text between two tags is one string of the document, a
    string made of ASCII white space only being stored as one newline or one
    space; [get_text] joins the strings with the separator.  Outside the
    model: character references (['&']), comments, declarations and
    processing instructions (['<!'], ['<?']), a ['>'] inside an attribute
    value, and the elements script, style, pre and textarea. *)
Module Bs4.

Definition is_letter (c : ascii) : bool := Py.in_range 65 90 c || Py.in_range 97 122 c.

(** The characters of [ASCII_SPACES]: space, newline, tab, form feed,
    carriage return *)
Definition is_ascii_space (c : ascii) : bool :=
  (Py.code c =? 32)%N || (Py.code c =? 10)%N || (Py.code c =? 9)%N
  || (Py.code c =? 12)%N || (Py.code c =? 13)%N.

Fixpoint all_ascii_space (s : string) : bool :=
  match s with
  | EmptyString => true
  | String c s' => is_ascii_space c && all_ascii_space s'
  end.

Definition opens_tag (s : string) : bool :=
  match s with
  | String c _ => is_letter c || Ascii.eqb c "/"%char
  | EmptyString => false
  end.

(** [endData]: the text collected so far becomes a string of the document *)
Definition flush (cur : string) : list string :=
  match cur with
  | EmptyString => []
  | _ =>
      if all_ascii_space cur
      then [if Py.contains "010"%char cur then Py.nl else " "]
      else [cur]
  end.

Fixpoint strings (in_tag : bool) (cur : string) (s : string) : list string :=
  match s with
  | EmptyString => flush cur
  | String c s' =>
      if in_tag then
        if Ascii.eqb c ">"%char then strings false EmptyString s'
        else strings true EmptyString s'
      else if Ascii.eqb c "<"%char && opens_tag s' && Py.contains ">"%char s' then
        flush cur ++ strings true EmptyString s'
      else strings false (cur +:+ String c EmptyString) s'
  end.

Definition get_text (separator : string) (markup : string) : string :=
  Py.join separator (strings false EmptyString markup).

End Bs4.

Module Transformer.

(** *** Exceptions *)
Inductive exn :=
| AttributeError
| TypeError
| UnboundLocalError.

Inductive result (A : Type) :=
| Ok (a : A)
| Raise (e : exn).
Arguments Ok {A} a.
Arguments Raise {A} e.

Definition bind {A B} (r : result A) (k : A -> result B) : result B :=
  match r with
  | Ok a => k a
  | Raise e => Raise e
  end.

Notation "'let?' x := r 'in' k" := (bind r (fun x => k))
  (at level 10, x name, r at level 100, k at level 200).

(** *** Data *)

(** A derived task: the dictionary with keys [id], [prompt], [completion] *)
Record task := { id : string; prompt : string; completion : json }.

(** The arguments of the log calls that matter here *)
Inductive log_record :=
| ErrorNotFound
| WarnFailed (key : json) (e : exn)
| WarnMalformed (line : string)
| InfoProgress (count derived_count : nat)
| InfoDone (count derived_count : nat).

(** A line of the raw file, as [json.loads] sees it: it raises
    [JSONDecodeError], or returns a value *)
Inductive raw_line :=
| Malformed (text : string)
| Decoded (v : json).

(** The state of [run_transformation]: what it has written to the output
    file, the set of identifiers, the two counters, and the log *)
Record run := {
  outfile : list task;
  seen_task_ids : gset string;
  count : nat;
  derived_count : nat;
  log : list log_record
}.

(** [v.get(k, dflt)]: only a [dict] has the method *)
Definition get (v : json) (k : string) (dflt : json) : result json :=
  match v with
  | JObj members => Ok (dict_get k dflt members)
  | _ => Raise AttributeError
  end.

(** [a or b] *)
Definition or_else (a b : json) : json := if Py.truthy a then a else b.

(** [for x in v]: the items of a list, the keys of a dict, the characters of
    a string; nothing else can be iterated *)
Definition iterate (v : json) : result (list json) :=
  match v with
  | JArr items => Ok items
  | JObj members => Ok (map (fun m => JStr (fst m)) members)
  | JStr s => Ok (map (fun c => JStr (String c EmptyString)) (list_ascii_of_string s))
  | _ => Raise TypeError
  end.

Definition nonempty (s : string) : bool := negb (String.eqb s EmptyString).

(** *** The patterns of [_clean_text] *)

Definition differs (c : ascii) (x : ascii) : bool := negb (Ascii.eqb c x).
Definition non_space (c : ascii) : bool := negb (Py.is_space c).

(** [\{[^\}]+\}] *)
Definition markup_re : list Re.item :=
  [Re.lit "{"; Re.plus (differs "}") false; Re.lit "}"].

(** [\[([^\|\]]+)\|[^\]]+\]] *)
Definition link_re : list Re.item :=
  [Re.lit "["; Re.plus (fun c => differs "|" c && differs "]" c) true; Re.lit "|";
   Re.plus (differs "]") false; Re.lit "]"].

(** [\S+@\S+\.\S+] *)
Definition email_re : list Re.item :=
  [Re.plus non_space false; Re.lit "@"; Re.plus non_space false; Re.lit ".";
   Re.plus non_space false].

(** [\b\d{1,3}\.\d{1,3}\.\d{1,3}\.\d{1,3}\b] *)
Definition ip_re : list Re.item :=
  let octet := Re.Chars Py.is_digit 1 (Some 3%nat) false in
  [Re.WordBoundary; octet; Re.lit "."; octet; Re.lit "."; octet; Re.lit "."; octet;
   Re.WordBoundary].

(** [\s+] *)
Definition space_re : list Re.item := [Re.plus Py.is_space false].

Section WithParser.
(** [BeautifulSoup(text, 'html.parser').get_text(separator=' ')] *)
Variable html_text : string -> string.

(** *** [_clean_text] *)

(** The body of [_clean_text] on text that is not empty *)
Definition clean (text : string) : string :=
  let text := html_text text in
  let text := Re.sub markup_re (fun _ => " ") text in
  let text := Re.sub link_re (fun label => label) text in
  let text := Re.sub email_re (fun _ => "[EMAIL_REMOVED]") text in
  let text := Re.sub ip_re (fun _ => "[IP_REMOVED]") text in
  Re.strip (Re.sub space_re (fun _ => " ") text).

(** [text] is whatever the record holds: [if not text] returns early for
    [None], the empty string and every other false value; the parser takes
    text, and handing it anything else ends in an exception ([TypeError]). *)
Definition _clean_text (text : json) : result string :=
  if negb (Py.truthy text) then Ok EmptyString
  else match text with
       | JStr s => Ok (clean s)
       | _ => Raise TypeError
       end.

(** *** [_create_derived_tasks] *)

(** The loop over [comments_list] *)
Fixpoint comments_loop (comments_list : list json) (comments_text : string)
    : result string :=
  match comments_list with
  | [] => Ok comments_text
  | comment :: rest =>
      let? author_ := get comment "author" (JObj []) in
      let? author := get author_ "displayName" (JStr "User") in
      let? body_ := get comment "body" (JStr "") in
      let? body := _clean_text body_ in
      comments_loop rest
        (if nonempty body
         then comments_text +:+ Py.nl +:+ Py.nl +:+ "--- Comment by " +:+ Py.str author
              +:+ " ---" +:+ Py.nl +:+ body
         else comments_text)
  end.

Definition summary_prompt : string := "Summarize the following Jira issue:".
Definition status_prompt : string :=
  "Given the following issue, what is its current status?".
Definition priority_prompt : string :=
  "Classify the priority (e.g., Major, Minor, Blocker) of the following issue:".
Definition type_prompt : string :=
  let q := String Py.dquote EmptyString in
  "Is the following issue a " +:+ q +:+ "Bug" +:+ q +:+ ", " +:+ q +:+ "New Feature" +:+ q
  +:+ ", or " +:+ q +:+ "Task" +:+ q +:+ "?".

(** [f"{instruction}\n\nTitle: {summary}\n\n{full_context}"] *)
Definition make_prompt (instruction : string) (summary : json) (full_context : string)
    : string :=
  instruction +:+ Py.nl +:+ Py.nl +:+ "Title: " +:+ Py.str summary +:+ Py.nl +:+ Py.nl
  +:+ full_context.

(** Steps 3 and 4 of the [try] block: nothing for an issue without a
    summary or without any text, else the four tasks *)
Definition build_tasks (key summary status priority issuetype : json)
    (description comments_text : string) : list task :=
  let full_context :=
    "Description:" +:+ Py.nl +:+ description +:+ Py.nl +:+ comments_text in
  if negb (Py.truthy summary) || negb (nonempty description || nonempty comments_text)
  then []
  else
    [ {| id := Py.str key +:+ "_summary";
         prompt := make_prompt summary_prompt summary full_context;
         completion := summary |};
      {| id := Py.str key +:+ "_qna_status";
         prompt := make_prompt status_prompt summary full_context;
         completion := status |};
      {| id := Py.str key +:+ "_classify_priority";
         prompt := make_prompt priority_prompt summary full_context;
         completion := priority |};
      {| id := Py.str key +:+ "_classify_type";
         prompt := make_prompt type_prompt summary full_context;
         completion := issuetype |} ].

(** The [try] block after [key] has been bound *)
Definition try_block (key : json) (raw_issue : json) : result (list task) :=
  let? fields := get raw_issue "fields" (JObj []) in
  let? summary_ := get fields "summary" (JStr "") in
  let summary := or_else summary_ (JStr "") in
  let? status_ := get fields "status" (JObj []) in
  let? status := get status_ "name" (JStr "Unknown") in
  let? priority_ := get fields "priority" (JObj []) in
  let? priority := get priority_ "name" (JStr "Unknown") in
  let? issuetype_ := get fields "issuetype" (JObj []) in
  let? issuetype := get issuetype_ "name" (JStr "Unknown") in
  let? description_ := get fields "description" (JStr "") in
  let? description := _clean_text (or_else description_ (JStr "")) in
  let? comment_ := get fields "comment" (JObj []) in
  let? comments_list_ := get comment_ "comments" (JArr []) in
  let? comments_list := iterate comments_list_ in
  let? comments_text := comments_loop comments_list EmptyString in
  Ok (build_tasks key summary status priority issuetype description comments_text).

(** The whole method.  The handler logs [key]; when the very first
    statement, [key = raw_issue.get('key')], is what raised, [key] has no
    value yet and the handler itself raises [UnboundLocalError]. *)
Definition _create_derived_tasks (raw_issue : json)
    : list log_record * result (list task) :=
  match get raw_issue "key" JNull with
  | Raise _ => ([], Raise UnboundLocalError)
  | Ok key =>
      match try_block key raw_issue with
      | Ok derived_tasks => ([], Ok derived_tasks)
      | Raise e => ([WarnFailed key e], Ok [])
      end
  end.

(** *** [run_transformation] *)

(** [for task in derived_tasks: if task['id'] not in seen_task_ids: ...] *)
Fixpoint write_tasks (derived_tasks : list task) (st : run) : run :=
  match derived_tasks with
  | [] => st
  | task :: rest =>
      write_tasks rest
        (if decide (id task ∈ seen_task_ids st) then st
         else {| outfile := outfile st ++ [task];
                 seen_task_ids := {[ id task ]} ∪ seen_task_ids st;
                 count := count st;
                 derived_count := S (derived_count st);
                 log := log st |})
  end.

Definition add_log (records : list log_record) (st : run) : run :=
  {| outfile := outfile st;
     seen_task_ids := seen_task_ids st;
     count := count st;
     derived_count := derived_count st;
     log := log st ++ records |}.

(** [count += 1], and the progress line every 1000 lines *)
Definition counted (st : run) : run :=
  let st := {| outfile := outfile st;
               seen_task_ids := seen_task_ids st;
               count := S (count st);
               derived_count := derived_count st;
               log := log st |} in
  if (count st mod 1000 =? 0)%nat
  then add_log [InfoProgress (count st) (derived_count st)] st
  else st.

(** [for line in infile]: the state reached, and the exception that ended
    the loop if one did *)
Fixpoint lines_loop (lines : list raw_line) (st : run) : run * option exn :=
  match lines with
  | [] => (st, None)
  | Malformed text :: rest => lines_loop rest (counted (add_log [WarnMalformed text] st))
  | Decoded raw_issue :: rest =>
      let '(records, derived) := _create_derived_tasks raw_issue in
      let st := add_log records st in
      match derived with
      | Raise e => (st, Some e)
      | Ok derived_tasks => lines_loop rest (counted (write_tasks derived_tasks st))
      end
  end.

Definition start : run :=
  {| outfile := []; seen_task_ids := ∅; count := O; derived_count := O; log := [] |}.

(** [raw_file] is [None] when the raw file does not exist.  Neither
    handler of the method catches what [_create_derived_tasks] may raise. *)
Definition run_transformation (raw_file : option (list raw_line)) : run * option exn :=
  match raw_file with
  | None => (add_log [ErrorNotFound] start, None)
  | Some lines =>
      match lines_loop lines start with
      | (st, None) => (add_log [InfoDone (count st) (derived_count st)] st, None)
      | (st, Some e) => (st, Some e)
      end
  end.

(** *** Well-formed records, and what the deriver reads in them *)

(** The member [k] of an object *)
Definition member (k : string) (v : json) : option json :=
  match v with
  | JObj members => dict_lookup k members
  | _ => None
  end.

(** A text field: absent, [null], or a string *)
Definition is_text (v : option json) : bool :=
  match v with
  | None | Some JNull | Some (JStr _) => true
  | _ => false
  end.

(** A nested object: absent, or an object *)
Definition is_object (v : option json) : bool :=
  match v with
  | None | Some (JObj _) => true
  | _ => false
  end.

Definition well_formed_comment (comment : json) : bool :=
  match comment with
  | JObj _ => is_object (member "author" comment) && is_text (member "body" comment)
  | _ => false
  end.

Definition well_formed_fields (fields : json) : bool :=
  is_text (member "summary" fields)
  && is_object (member "status" fields)
  && is_object (member "priority" fields)
  && is_object (member "issuetype" fields)
  && is_text (member "description" fields)
  && match member "comment" fields with
     | None => true
     | Some (JObj _ as comment) =>
         match member "comments" comment with
         | None => true
         | Some (JArr comments) => forallb well_formed_comment comments
         | _ => false
         end
     | _ => false
     end.

(** A record with the shape the deriver reads: an object with a string
    [key] whose [fields], when present, is an object of text fields and
    nested objects. *)
Definition well_formed (raw_issue : json) : bool :=
  match raw_issue with
  | JObj _ =>
      match member "key" raw_issue with Some (JStr _) => true | _ => false end
      && match member "fields" raw_issue with
         | None => true
         | Some (JObj _ as fields) => well_formed_fields fields
         | _ => false
         end
  | _ => false
  end.

Definition text_of (v : option json) : string :=
  match v with
  | Some (JStr s) => s
  | _ => EmptyString
  end.

Definition fields_of (raw_issue : json) : json :=
  match member "fields" raw_issue with
  | Some fields => fields
  | None => JObj []
  end.

(** The record's identifier and summary *)
Definition key_of (raw_issue : json) : string := text_of (member "key" raw_issue).
Definition summary_of (raw_issue : json) : string :=
  text_of (member "summary" (fields_of raw_issue)).

(** The name in a nested object of the fields, ["Unknown"] when absent *)
Definition name_of (k : string) (raw_issue : json) : json :=
  match member k (fields_of raw_issue) with
  | Some (JObj members) => dict_get "name" (JStr "Unknown") members
  | _ => JStr "Unknown"
  end.

(** Normalized text: the empty string stays empty *)
Definition normalize (text : string) : string :=
  match text with
  | EmptyString => EmptyString
  | _ => clean text
  end.

Definition description_of (raw_issue : json) : string :=
  normalize (text_of (member "description" (fields_of raw_issue))).

Definition comments_of (raw_issue : json) : list json :=
  match member "comment" (fields_of raw_issue) with
  | Some comment =>
      match member "comments" comment with
      | Some (JArr comments) => comments
      | _ => []
      end
  | None => []
  end.

(** The block one comment adds to the combined comment text *)
Definition comment_block (comment : json) : string :=
  let author :=
    match member "author" comment with
    | Some (JObj members) => dict_get "displayName" (JStr "User") members
    | _ => JStr "User"
    end in
  let body := normalize (text_of (member "body" comment)) in
  if nonempty body
  then Py.nl +:+ Py.nl +:+ "--- Comment by " +:+ Py.str author +:+ " ---" +:+ Py.nl +:+ body
  else EmptyString.

Definition comments_text_of (raw_issue : json) : string :=
  fold_right String.append EmptyString (map comment_block (comments_of raw_issue)).

(** A record the deriver makes tasks of *)
Definition informative (raw_issue : json) : bool :=
  nonempty (summary_of raw_issue)
  && (nonempty (description_of raw_issue) || nonempty (comments_text_of raw_issue)).
End WithParser.

(** The parser call of [_clean_text], by the model of the library *)
Definition soup_text : string -> string := Bs4.get_text " ".

(** A record with a description and one comment *)
Definition sample_issue : json :=
  JObj [("key", JStr "SPARK-1");
        ("fields",
         JObj [("summary", JStr "Crash on start");
               ("description", JStr "It <b>crashes</b>");
               ("status", JObj [("name", JStr "Open")]);
               ("comment",
                JObj [("comments",
                       JArr [JObj [("author", JObj [("displayName", JStr "Ann")]);
                                   ("body", JStr "me too")]])])])].

(** The output holds no identifier twice, and the set knows every identifier
    written. *)
Definition tidy (st : run) : Prop :=
  NoDup (map id (outfile st))
  /\ forall t, In t (outfile st) -> id t ∈ seen_task_ids st.

(** *** What a run writes, told without the loop *)

(** Two states of a run with the same output file and the same set *)
Definition same_output (st1 st2 : run) : Prop :=
  outfile st1 = outfile st2 /\ seen_task_ids st1 = seen_task_ids st2.

Definition is_decoded (line : raw_line) : bool :=
  match line with
  | Decoded _ => true
  | Malformed _ => false
  end.

(** The tasks the deriver returns for a line; a malformed line has none. *)
Definition derived_of (html_text : string -> string) (line : raw_line) : list task :=
  match line with
  | Decoded raw_issue =>
      match snd (_create_derived_tasks html_text raw_issue) with
      | Ok derived_tasks => derived_tasks
      | Raise _ => []
      end
  | Malformed _ => []
  end.

(** The line makes the deriver raise. *)
Definition raises (html_text : string -> string) (line : raw_line) : bool :=
  match line with
  | Decoded raw_issue =>
      match snd (_create_derived_tasks html_text raw_issue) with
      | Ok _ => false
      | Raise _ => true
      end
  | Malformed _ => false
  end.

(** The lines before the first one that makes the deriver raise *)
Fixpoint processed (html_text : string -> string) (lines : list raw_line)
    : list raw_line :=
  match lines with
  | [] => []
  | line :: rest =>
      if raises html_text line then [] else line :: processed html_text rest
  end.

(** Of the tasks with one identifier, the first; [earlier] are the
    identifiers met before. *)
Fixpoint first_of_each (earlier : list string) (tasks : list task) : list task :=
  match tasks with
  | [] => []
  | t :: rest =>
      if existsb (String.eqb (id t)) earlier then first_of_each earlier rest
      else t :: first_of_each (id t :: earlier) rest
  end.

(** *** The form [_clean_text] leaves text in *)

Definition starts_with_space (s : string) : bool :=
  match s with
  | EmptyString => false
  | String c _ => Py.is_space c
  end.

Fixpoint ends_with_space (s : string) : bool :=
  match s with
  | EmptyString => false
  | String c s' =>
      match s' with
      | EmptyString => Py.is_space c
      | String _ _ => ends_with_space s'
      end
  end.

(** Every whitespace character is a space, and the next character is not
    whitespace. *)
Fixpoint single_spaced (s : string) : bool :=
  match s with
  | EmptyString => true
  | String c s' =>
      (if Py.is_space c then Ascii.eqb c " " && negb (starts_with_space s') else true)
      && single_spaced s'
  end.

(** *** Looking for an e-mail address in a text *)

(** [re.search(p, s) is not None] *)
Fixpoint search (p : list Re.item) (prev : option ascii) (s : string) : bool :=
  match Re.match_here p prev s with
  | Some _ => true
  | None =>
      match s with
      | EmptyString => false
      | String c s' => search p (Some c) s'
      end
  end.

(** The repetition loop of [Re.match_here], by name *)
Definition repetition (cls : ascii -> bool) (lo : nat) (hi : option nat) (group : bool)
    (p' : list Re.item) : nat -> string -> option ascii -> string
                          -> option (string * string) :=
  fix rep (n : nat) (taken : string) (prev : option ascii) (s : string) {struct s}
      : option (string * string) :=
    match
      match s with
      | String c s' =>
          if cls c && Re.below hi n
          then rep (S n) (taken +:+ String c EmptyString) (Some c) s'
          else None
      | EmptyString => None
      end
    with
    | Some r => Some r
    | None =>
        if (lo <=? n)%nat then
          match Re.match_here p' prev s with
          | Some (g, rest) => Some (if group then taken else g, rest)
          | None => None
          end
        else None
    end.

(** Every character of [s] is in the class. *)
Fixpoint every (cls : ascii -> bool) (s : string) : bool :=
  match s with
  | EmptyString => true
  | String c s' => cls c && every cls s'
  end.

(** How much of [\S+@\S+\.\S+] a reader has seen in the word it is in:
    nothing, the local part, the at sign, the domain, the dot, all of it *)
Inductive progress :=
| Start
| Local
| At
| Domain
| Dot
| Found.

Definition rank (q : progress) : nat :=
  match q with
  | Start => 0
  | Local => 1
  | At => 2
  | Domain => 3
  | Dot => 4
  | Found => 5
  end.

Definition step (q : progress) (c : ascii) : progress :=
  match q with
  | Found => Found
  | _ =>
      if Py.is_space c then Start
      else match q with
           | Start => Local
           | Local => if Ascii.eqb c "@" then At else Local
           | At => Domain
           | Domain => if Ascii.eqb c "." then Dot else Domain
           | Dot => Found
           | Found => Found
           end
  end.

(** Reading a whole text, and reading to the end of the word *)
Fixpoint scan (q : progress) (s : string) : progress :=
  match s with
  | EmptyString => q
  | String c s' => scan (step q c) s'
  end.

Fixpoint scan_word (q : progress) (s : string) : progress :=
  match s with
  | EmptyString => q
  | String c s' => if Py.is_space c then q else scan_word (step q c) s'
  end.

End Transformer.

(** * Text *)

Lemma append_empty_r (s : string) : s +:+ EmptyString = s.
Proof.
  induction s as [|c s IH]; [reflexivity|].
  change (String c (s +:+ EmptyString) = String c s). rewrite IH. reflexivity.
Qed.

Lemma append_assoc (s1 s2 s3 : string) : (s1 +:+ s2) +:+ s3 = s1 +:+ (s2 +:+ s3).
Proof.
  induction s1 as [|c s1 IH]; [reflexivity|].
  change (String c ((s1 +:+ s2) +:+ s3) = String c (s1 +:+ (s2 +:+ s3))).
  rewrite IH. reflexivity.
Qed.

(** * The scraper: what every run maintains *)

Module ScraperFacts.
Import Scraper.

Arguments log_event : simpl never.
Arguments sleep : simpl never.
Arguments set_marker : simpl never.
Arguments _save_checkpoint : simpl never.
Arguments _save_issues_to_jsonl : simpl never.
Arguments send_request : simpl never.
Arguments commit : simpl never.

Lemma dict_lookup_set {V} (q p : string) (v : V) (d : list (string * V)) :
  dict_lookup q (dict_set p v d) = if String.eqb q p then Some v else dict_lookup q d.
Proof.
  induction d as [|[k x] d IH]; simpl.
  - destruct (String.eqb q p); reflexivity.
  - destruct (String.eqb p k) eqn:Epk; simpl.
    + apply String.eqb_eq in Epk; subst k.
      destruct (String.eqb q p); reflexivity.
    + rewrite IH. destruct (String.eqb q k) eqn:Eqk; [|reflexivity].
      apply String.eqb_eq in Eqk; subst k.
      destruct (String.eqb q p) eqn:Eqp; [|reflexivity].
      apply String.eqb_eq in Eqp; subst q. rewrite String.eqb_refl in Epk. discriminate.
Qed.

Lemma dict_get_set {V} (q p : string) (v dflt : V) (d : list (string * V)) :
  dict_get q dflt (dict_set p v d) = if String.eqb q p then v else dict_get q dflt d.
Proof.
  unfold dict_get. rewrite dict_lookup_set. destruct (String.eqb q p); reflexivity.
Qed.

Lemma marker_of_set q p m c :
  marker_of q (dict_set p m c) = if String.eqb q p then m else marker_of q c.
Proof. apply dict_get_set. Qed.

(** ** A proof rule for [run_pipeline]

    [Inside project current_index] holds inside the [while True] loop of
    [project] before a request is sent, [Fetched project current_index] from
    the moment a request has been sent, [Between] between two projects, and
    [Stopped] after the [return] of line 158. *)
Section Rule.
Variable w : world.
Variables Inside Fetched : string -> Z -> scraper -> Prop.
Variables Between Stopped : scraper -> Prop.

Hypothesis enter : forall p cur st,
  Between st -> marker_of p (checkpoint_data st) = Offset cur -> Inside p cur st.
Hypothesis leave : forall p cur st, Inside p cur st -> Between st.
Hypothesis request : forall p cur st,
  Inside p cur st -> Fetched p cur (snd (send_request w p cur st)).
Hypothesis pause : forall p cur ms st, Fetched p cur st -> Inside p cur (sleep ms st).
Hypothesis abandon : forall p cur st, Fetched p cur st -> Between st.
Hypothesis append_ok : forall p cur l st,
  Fetched p cur st -> file_append w (appends_made st) = None ->
  Fetched p cur (snd (_save_issues_to_jsonl w l st)).
Hypothesis append_failed : forall p cur l k st,
  Fetched p cur st -> file_append w (appends_made st) = Some k ->
  Stopped (snd (_save_issues_to_jsonl w l st)).
Hypothesis advance : forall p cur n st,
  0 < n -> Fetched p cur st -> Fetched p (cur + n) (commit p (Offset (cur + n)) st).
Hypothesis complete : forall p cur st, Fetched p cur st -> Between (commit p COMPLETED st).

Lemma fetch_attempts_rule attempts p cur st :
  Inside p cur st ->
  match fetch_attempts w attempts p cur st with
  | (Some _, st') => Fetched p cur st'
  | (None, st') => Between st'
  end.
Proof.
  revert st. induction attempts as [|n IH]; intros st H; cbn [fetch_attempts];
    [eapply leave, H|].
  pose proof (request _ _ _ H) as H1.
  destruct (send_request w p cur st) as [r st1]; cbn [snd] in H1.
  destruct r as [code body|].
  - destruct (code =? 429); [apply IH, pause, H1|].
    destruct (500 <=? code); [apply IH, pause, H1|].
    destruct (negb (response_ok code)); [eapply abandon, H1|exact H1].
  - apply IH, pause, H1.
Qed.

Lemma loop_body_rule p cur tot st :
  Inside p cur st ->
  match loop_body w p cur tot st with
  | Break st' => Between st'
  | Return st' => Stopped st'
  | Again cur' _ st' => Inside p cur' st'
  end.
Proof.
  intros H. unfold loop_body, _fetch_jira_page.
  pose proof (fetch_attempts_rule MAX_RETRIES _ _ _ H) as H1.
  destruct (fetch_attempts w MAX_RETRIES p cur st) as [[data|] st1]; [|exact H1].
  destruct ((tot =? -1) && _); [eapply abandon, H1|].
  destruct (default [] (issues data)) as [|i l] eqn:El; [eapply complete, H1|].
  pose proof (append_ok p cur (i :: l) st1 H1) as Hok.
  pose proof (fun k => append_failed p cur (i :: l) k st1 H1) as Hko.
  unfold _save_issues_to_jsonl in *.
  destruct (file_append w (appends_made st1)) as [k|]; cbn [fst snd negb] in *.
  - eapply Hko. reflexivity.
  - specialize (Hok eq_refl).
    eapply advance in Hok; [|apply (Zle_lt_succ 0), Nat2Z.is_nonneg].
    rewrite <- Nat2Z.inj_succ in Hok.
    match goal with |- context [if ?b then _ else _] => destruct b end.
    + eapply complete, Hok.
    + apply pause, Hok.
Qed.

Lemma while_total_rule passes p cur tot st :
  Inside p cur st ->
  match while_total w passes p cur tot st with
  | Broke st' => Between st'
  | Returned st' => Stopped st'
  end.
Proof.
  revert cur tot st. induction passes as [|n IH]; intros cur tot st H; cbn [while_total];
    pose proof (loop_body_rule p cur tot st H) as Hb;
    destruct (loop_body w p cur tot st) as [st'|st'|cur' tot' st'];
    try exact Hb.
  - eapply leave, Hb.
  - apply IH, Hb.
Qed.

Lemma while_first_rule passes p cur st :
  Inside p cur st ->
  match while_first w passes p cur st with
  | Broke st' => Between st'
  | Returned st' => Stopped st'
  end.
Proof.
  revert cur st. induction passes as [|n IH]; intros cur st H; cbn [while_first];
    pose proof (loop_body_rule p cur (-1) st H) as Hb;
    destruct (loop_body w p cur (-1) st) as [st'|st'|cur' tot' st'];
    try exact Hb;
    (destruct (tot' =? -1); [|apply while_total_rule, Hb]).
  - eapply leave, Hb.
  - apply IH, Hb.
Qed.

Lemma for_projects_rule projects st :
  Between st ->
  Between (for_projects w projects st) \/ Stopped (for_projects w projects st).
Proof.
  revert st. induction projects as [|p rest IH]; intros st H; cbn [for_projects];
    [left; exact H|].
  destruct (dict_get p (Offset 0) (checkpoint_data st)) as [cur|] eqn:E; [|apply IH, H].
  pose proof (while_first_rule (Z.to_nat (-1 - cur)) p cur st (enter _ _ _ H E)) as Hw.
  unfold while_true. destruct (while_first w _ p cur st) as [st'|st']; auto.
Qed.

Lemma run_pipeline_rule st :
  Between st -> Between (run_pipeline w st) \/ Stopped (run_pipeline w st).
Proof. apply for_projects_rule. Qed.
End Rule.


(** ** The bounded loops run the source's loop *)

Lemma loop_body_again w p cur tot st cur' tot' st' :
  loop_body w p cur tot st = Again cur' tot' st' ->
  cur < cur' /\ cur' < tot' /\ (tot <> -1 -> tot' = tot).
Proof.
  unfold loop_body. destruct (_fetch_jira_page w p cur st) as [[data|] st1]; [|discriminate].
  destruct ((tot =? -1) && _); [discriminate|].
  destruct (default [] (issues data)) as [|i l]; [discriminate|].
  destruct (_save_issues_to_jsonl w (i :: l) st1) as [[|] st2]; cbn [negb]; [|discriminate].
  destruct (Z.leb_spec (if tot =? -1 then default 0 (total data) else tot)
              (cur + Z.of_nat (length (i :: l)))) as [Hle|Hlt]; [discriminate|].
  intros [= <- <- <-]. cbn [length] in *.
  repeat split; [lia|lia|].
  intros Hne. apply Z.eqb_neq in Hne. rewrite Hne. reflexivity.
Qed.

Lemma while_total_exec w p passes : forall cur tot st,
  tot <> -1 -> tot - cur <= Z.of_nat passes ->
  while_exec w p cur tot st (while_total w passes p cur tot st).
Proof.
  induction passes as [|n IH]; intros cur tot st Hne Hfuel; cbn [while_total];
    destruct (loop_body w p cur tot st) as [st'|st'|cur' tot' st'] eqn:E;
    try (constructor; exact E);
    destruct (loop_body_again _ _ _ _ _ _ _ _ E) as (H1 & H2 & H3);
    specialize (H3 Hne); subst tot'.
  - lia.
  - eapply exec_again; [exact E|]. apply IH; [exact Hne|lia].
Qed.

Lemma while_first_exec w p passes : forall cur st,
  -1 - cur <= Z.of_nat passes ->
  while_exec w p cur (-1) st (while_first w passes p cur st).
Proof.
  induction passes as [|n IH]; intros cur st Hfuel; cbn [while_first];
    destruct (loop_body w p cur (-1) st) as [st'|st'|cur' tot' st'] eqn:E;
    try (constructor; exact E);
    destruct (loop_body_again _ _ _ _ _ _ _ _ E) as (H1 & H2 & _);
    (destruct (Z.eqb_spec tot' (-1)) as [->|Hne];
     [|eapply exec_again; [exact E|apply while_total_exec; [exact Hne|lia]]]).
  - lia.
  - eapply exec_again; [exact E|]. apply IH. lia.
Qed.

(** [while_true] is the outcome of the source's [while True] loop: the loop
    ends, and the bound on the passes is never what ends it. *)
Lemma while_true_exec w p cur st :
  while_exec w p cur (-1) st (while_true w p cur st).
Proof. apply while_first_exec. lia. Qed.

(** ** Traces *)

Lemma trace_log_event e st : trace (log_event e st) = trace st ++ [e].
Proof. reflexivity. Qed.

Lemma last_saved_snoc c0 tr e : last_saved c0 (tr ++ [e]) = after (last_saved c0 tr) e.
Proof. unfold last_saved. rewrite fold_left_app. reflexivity. Qed.

Lemma last_saved_app c0 t1 t2 : last_saved c0 (t1 ++ t2) = last_saved (last_saved c0 t1) t2.
Proof. unfold last_saved. apply fold_left_app. Qed.

Lemma file_after_snoc f0 tr e :
  file_after f0 (tr ++ [e])
  = match e with EvSave c => Some c | _ => file_after f0 tr end.
Proof. unfold file_after. rewrite fold_left_app. reflexivity. Qed.

Lemma monitored_app c t1 t2 :
  monitored c (t1 ++ t2) <-> monitored c t1 /\ monitored (last_saved c t1) t2.
Proof.
  revert c. induction t1 as [|e t1 IH]; intros c; cbn [app monitored].
  - unfold last_saved; simpl. tauto.
  - rewrite IH. unfold last_saved; simpl. tauto.
Qed.

Lemma marker_le_refl m : marker_le m m.
Proof. destruct m; simpl; lia. Qed.

Lemma marker_le_trans a b c : marker_le a b -> marker_le b c -> marker_le a c.
Proof. destruct a, b, c; simpl; try tauto; lia. Qed.

Lemma marker_le_completed m : marker_le COMPLETED m -> m = COMPLETED.
Proof. destruct m; simpl; [tauto|reflexivity]. Qed.

Lemma allowed_after p c e : allowed c e -> marker_le (marker_of p c) (marker_of p (after c e)).
Proof. destruct e; simpl; intros H; try apply marker_le_refl. apply H. Qed.

Lemma monitored_last p c tr :
  monitored c tr -> marker_le (marker_of p c) (marker_of p (last_saved c tr)).
Proof.
  revert c. induction tr as [|e tr IH]; intros c; cbn [monitored].
  - intros _. apply marker_le_refl.
  - intros [Ha Hm]. eapply marker_le_trans; [apply allowed_after, Ha|].
    apply (IH _ Hm).
Qed.

Lemma monitored_save p c tr c' :
  monitored c tr -> In (EvSave c') tr -> marker_le (marker_of p c) (marker_of p c').
Proof.
  intros Hm Hin. apply in_split in Hin as (t1 & t2 & ->).
  apply monitored_app in Hm as [H1 [H2 _]].
  eapply marker_le_trans; [apply monitored_last, H1|apply H2].
Qed.

Lemma monitored_request p c tr start_at :
  monitored c tr -> marker_of p c = COMPLETED -> ~ In (EvRequest p start_at) tr.
Proof.
  intros Hm Hc Hin. apply in_split in Hin as (t1 & t2 & ->).
  apply monitored_app in Hm as [H1 [H2 _]]. simpl in H2. apply H2.
  apply marker_le_completed. rewrite <- Hc. apply monitored_last, H1.
Qed.

(** ** What holds of every run *)

Section Run.
Variable w : world.
Variable c0 : checkpoint.
Variable f0 : option checkpoint.

Lemma sound_log e st :
  sound c0 f0 st -> allowed (checkpoint_data st) e ->
  match e with EvSave _ => False | _ => True end ->
  sound c0 f0 (log_event e st).
Proof.
  intros (Hm & Hl & Hf) Ha He. unfold sound.
  rewrite trace_log_event, last_saved_snoc, file_after_snoc, Hl.
  split; [|destruct e; try contradiction; (split; [reflexivity|exact Hf])].
  apply monitored_app. split; [exact Hm|]. rewrite Hl. simpl. tauto.
Qed.

Lemma sound_commit p m st :
  sound c0 f0 st -> marker_le (marker_of p (checkpoint_data st)) m ->
  sound c0 f0 (commit p m st).
Proof.
  intros (Hm & Hl & Hf) Hle. unfold sound, commit, _save_checkpoint.
  rewrite trace_log_event. unfold set_marker, log_event.
  cbn [trace checkpoint_data checkpoint_file].
  rewrite last_saved_snoc, file_after_snoc.
  split; [|split; reflexivity].
  apply monitored_app. split; [exact Hm|]. rewrite Hl. cbn [monitored allowed].
  split; [|exact I]. intros q. rewrite marker_of_set.
  destruct (String.eqb_spec q p) as [->|_]; [exact Hle|apply marker_le_refl].
Qed.

Lemma running_log e st :
  running c0 f0 st -> allowed (checkpoint_data st) e ->
  match e with EvSave _ => False | _ => True end ->
  failed_append e = false ->
  running c0 f0 (log_event e st).
Proof.
  intros [Hs Hf] Ha He Hok. split; [apply sound_log; assumption|].
  rewrite trace_log_event. apply Forall_app. split; [exact Hf|].
  constructor; [exact Hok|constructor].
Qed.

Lemma running_commit p m st :
  running c0 f0 st -> marker_le (marker_of p (checkpoint_data st)) m ->
  running c0 f0 (commit p m st).
Proof.
  intros [Hs Hf] Hle. split; [apply sound_commit; assumption|].
  unfold commit, _save_checkpoint. rewrite trace_log_event. cbn [trace set_marker].
  apply Forall_app. split; [exact Hf|]. constructor; [reflexivity|constructor].
Qed.

Lemma marker_of_commit p m st : marker_of p (checkpoint_data (commit p m st)) = m.
Proof.
  unfold commit, _save_checkpoint, log_event, set_marker. cbn [checkpoint_data].
  rewrite marker_of_set, String.eqb_refl. reflexivity.
Qed.

Lemma run_pipeline_sound st :
  running c0 f0 st ->
  running c0 f0 (run_pipeline w st) \/ aborted c0 f0 (run_pipeline w st).
Proof.
  apply (run_pipeline_rule w (fetching c0 f0) (fetching c0 f0) (running c0 f0)
           (aborted c0 f0)).
  - intros p cur st' H E. split; assumption.
  - intros p cur st' [H _]. exact H.
  - intros p cur st' [H E]. unfold send_request. cbn [snd]. split.
    + apply (running_log (EvRequest p cur)
               {| projects_to_fetch := projects_to_fetch st';
                  checkpoint_data := checkpoint_data st';
                  checkpoint_file := checkpoint_file st';
                  output_file := output_file st';
                  requests_made := S (requests_made st');
                  appends_made := appends_made st';
                  trace := trace st' |}); try exact I; try reflexivity.
      * exact H.
      * simpl. rewrite E. discriminate.
    + exact E.
  - intros p cur ms st' [H E]. split; [|exact E].
    apply running_log; try exact I; try reflexivity. exact H.
  - intros p cur st' [H _]. exact H.
  - intros p cur l st' [H E] Hfate. unfold _save_issues_to_jsonl.
    rewrite Hfate. cbn [snd]. split; [|exact E].
    apply (running_log (EvAppend l true)
             {| projects_to_fetch := projects_to_fetch st';
                checkpoint_data := checkpoint_data st';
                checkpoint_file := checkpoint_file st';
                output_file := output_file st' ++ l;
                requests_made := requests_made st';
                appends_made := S (appends_made st');
                trace := trace st' |}); try exact I; try reflexivity.
    exact H.
  - intros p cur l k st' [[Hs Hf] E] Hfate. unfold _save_issues_to_jsonl.
    rewrite Hfate. cbn [snd]. split.
    + apply (sound_log (EvAppend (firstn k l) false)
             {| projects_to_fetch := projects_to_fetch st';
                checkpoint_data := checkpoint_data st';
                checkpoint_file := checkpoint_file st';
                output_file := output_file st' ++ firstn k l;
                requests_made := requests_made st';
                appends_made := S (appends_made st');
                trace := trace st' |}); try exact I. exact Hs.
    + exists (trace st'), (firstn k l). split; [reflexivity|exact Hf].
  - intros p cur n st' Hn [H E]. split; [|apply marker_of_commit].
    apply running_commit; [exact H|]. rewrite E. simpl. lia.
  - intros p cur st' [H E]. apply running_commit; [exact H|].
    destruct (marker_of p (checkpoint_data st')); exact I.
Qed.
End Run.

Lemma running_init projects file out :
  let st0 := init projects file out in
  running (checkpoint_data st0) (checkpoint_file st0) st0.
Proof. repeat split. constructor. Qed.


Lemma failed_append_last pre x post pre' y :
  pre ++ x :: post = pre' ++ [y] ->
  failed_append x = true ->
  Forall (fun e => failed_append e = false) pre' ->
  post = [] /\ pre = pre'.
Proof.
  revert pre'. induction pre as [|a pre IH]; intros [|b pre'] E Hx Hok;
    cbn [app] in E.
  - injection E as _ ->. split; reflexivity.
  - injection E as -> _. inversion Hok; congruence.
  - injection E as _ E. destruct pre; discriminate.
  - injection E as -> E. inversion Hok; subst.
    destruct (IH pre' E Hx) as [-> ->]; [assumption|]. split; reflexivity.
Qed.

(** ** The page fetch touches neither the mapping nor the files *)
Lemma fetch_attempts_frame w attempts p cur st :
  checkpoint_data (snd (fetch_attempts w attempts p cur st)) = checkpoint_data st
  /\ checkpoint_file (snd (fetch_attempts w attempts p cur st)) = checkpoint_file st
  /\ output_file (snd (fetch_attempts w attempts p cur st)) = output_file st.
Proof.
  pose proof (fetch_attempts_rule w
                (fun _ _ st' => checkpoint_data st' = checkpoint_data st
                                /\ checkpoint_file st' = checkpoint_file st
                                /\ output_file st' = output_file st)
                (fun _ _ st' => checkpoint_data st' = checkpoint_data st
                                /\ checkpoint_file st' = checkpoint_file st
                                /\ output_file st' = output_file st)
                (fun st' => checkpoint_data st' = checkpoint_data st
                            /\ checkpoint_file st' = checkpoint_file st
                            /\ output_file st' = output_file st)) as H.
  specialize (H (fun _ _ _ H => H) (fun _ _ _ H => H) (fun _ _ _ _ H => H)
                (fun _ _ _ H => H) attempts p cur st (conj eq_refl (conj eq_refl eq_refl))).
  destruct (fetch_attempts w attempts p cur st) as [[data|] st']; exact H.
Qed.

Lemma fetch_attempts_transient w p s n : forall st,
  (forall k, (k < n)%nat -> transient (http_get w (requests_made st + k) p s) = true) ->
  exists evs st',
    fetch_attempts w n p s st = (None, st')
    /\ trace st' = trace st ++ evs
    /\ requests_in evs = n
    /\ Z.of_nat n * 15000 <= slept evs.
Proof.
  induction n as [|n IH]; intros st H.
  - exists [], st. rewrite app_nil_r. repeat split. simpl. lia.
  - cbn [fetch_attempts]. unfold send_request.
    pose proof (H O ltac:(lia)) as H0. rewrite Nat.add_0_r in H0.
    set (st1 := log_event _ _).
    assert (Hshift : forall ms k, (k < n)%nat ->
              transient (http_get w (requests_made (sleep ms st1) + k) p s) = true).
    { intros ms k Hk. specialize (H (S k) ltac:(lia)).
      rewrite Nat.add_succ_r in H. exact H. }
    assert (Hnext : forall ms, 15000 <= ms -> exists evs st',
              fetch_attempts w n p s (sleep ms st1) = (None, st')
              /\ trace st' = trace st ++ evs
              /\ requests_in evs = S n
              /\ Z.of_nat (S n) * 15000 <= slept evs).
    { intros ms Hms. destruct (IH (sleep ms st1) (Hshift ms)) as (evs & st' & E & Ht & Hr & Hs).
      exists (EvRequest p s :: EvSleep ms :: evs), st'. split; [exact E|].
      split; [rewrite Ht; unfold sleep, st1; rewrite !trace_log_event; cbn [trace];
              rewrite <- !app_assoc; reflexivity|].
      cbn [requests_in slept]. split; [congruence|lia]. }
    destruct (http_get w (requests_made st) p s) as [code body|]; cbn [transient] in H0.
    + destruct (code =? 429); [apply Hnext; lia|].
      cbn [orb] in H0. rewrite H0. apply Hnext; lia.
    + apply Hnext; lia.
Qed.

(** ** The object and the file agree throughout *)

Lemma marker_of_fill_missing q projects d :
  marker_of q (fill_missing projects d) = marker_of q d.
Proof.
  revert d. induction projects as [|p rest IH]; intros d; cbn [fill_missing]; [reflexivity|].
  rewrite IH. destruct (dict_lookup p d) eqn:E; [reflexivity|].
  rewrite marker_of_set. destruct (String.eqb_spec q p) as [->|_]; [|reflexivity].
  unfold marker_of, dict_get. rewrite E. reflexivity.
Qed.

Lemma agrees_init projects file out : agrees (init projects file out).
Proof.
  intros q. unfold init. cbn [checkpoint_data checkpoint_file].
  destruct file as [[d|]|]; cbn [_load_checkpoint persisted_marker];
    unfold fresh_checkpoint; rewrite marker_of_fill_missing; reflexivity.
Qed.

Lemma agrees_commit p m st : agrees (commit p m st).
Proof. intros q. reflexivity. Qed.

Lemma agrees_run_pipeline w st : agrees st -> agrees (run_pipeline w st).
Proof.
  intros H.
  destruct (run_pipeline_rule w (fun _ _ => agrees) (fun _ _ => agrees) agrees agrees)
    with (st := st); auto using agrees_commit.
Qed.

(** ** Saves touch one collection *)

Lemma snoc_split {A} (pre : list A) x post tr e :
  pre ++ x :: post = tr ++ [e] ->
  (post = [] /\ pre = tr /\ x = e)
  \/ exists post', post = post' ++ [e] /\ tr = pre ++ x :: post'.
Proof.
  destruct post as [|y post _] using rev_ind; intros E.
  - left. apply app_inj_tail in E as [-> ->]. repeat split.
  - right. exists post.
    change (pre ++ x :: post ++ [y]) with (pre ++ (x :: post) ++ [y]) in E.
    rewrite app_assoc in E. apply app_inj_tail in E as [<- ->].
    split; reflexivity.
Qed.

Lemma last_project_snoc tr e :
  last_project (tr ++ [e])
  = match e with EvRequest p _ => Some p | _ => last_project tr end.
Proof. unfold last_project. rewrite fold_left_app. reflexivity. Qed.

Lemma frames_log c0 tr e :
  frames c0 tr -> match e with EvSave _ => False | _ => True end -> frames c0 (tr ++ [e]).
Proof.
  intros H He pre c post E. symmetry in E.
  apply snoc_split in E as [(_ & _ & <-)|(post' & _ & ->)]; [destruct He|].
  eapply H. reflexivity.
Qed.

Lemma frames_save c0 tr c p :
  frames c0 tr -> last_project tr = Some p ->
  (forall q, q <> p -> marker_of q c = marker_of q (last_saved c0 tr)) ->
  frames c0 (tr ++ [EvSave c]).
Proof.
  intros H Hp Hq pre c' post E. symmetry in E.
  apply snoc_split in E as [(_ & -> & [= ->])|(post' & _ & ->)].
  - exists p. split; assumption.
  - eapply H. reflexivity.
Qed.

Lemma replay_agrees c0 f0 tr :
  (forall q, marker_of q c0 = persisted_marker q f0) ->
  forall q, marker_of q (last_saved c0 tr) = persisted_marker q (file_after f0 tr).
Proof.
  revert c0 f0. induction tr as [|e tr IH]; intros c0 f0 H q; [apply H|].
  unfold last_saved, file_after. cbn [fold_left].
  apply IH. destruct e; try exact H. reflexivity.
Qed.

Lemma run_pipeline_frames w c0 st :
  frames c0 (trace st) -> last_saved c0 (trace st) = checkpoint_data st ->
  frames c0 (trace (run_pipeline w st)).
Proof.
  intros Hf Hl.
  pose (ok := fun st' : scraper =>
          frames c0 (trace st') /\ last_saved c0 (trace st') = checkpoint_data st').
  pose (fetched := fun (p : string) (_ : Z) (st' : scraper) =>
          ok st' /\ last_project (trace st') = Some p).
  assert (Hcommit : forall p m st', fetched p 0 st' -> fetched p 0 (commit p m st')).
  { intros p m st' [[H1 H2] H3]. unfold fetched, ok, commit, _save_checkpoint.
    rewrite trace_log_event. unfold set_marker, log_event.
    cbn [trace checkpoint_data]. rewrite last_saved_snoc, last_project_snoc.
    repeat split; [|exact H3].
    apply (frames_save _ _ _ p H1 H3). intros q Hq. rewrite H2, marker_of_set.
    destruct (String.eqb_spec q p); [contradiction|reflexivity]. }
  assert (Hlog : forall e st', ok st' ->
            match e with EvSave _ => False | _ => True end -> ok (log_event e st')).
  { intros e st' [H1 H2] He. unfold ok. rewrite trace_log_event, last_saved_snoc.
    split; [apply frames_log; assumption|]. destruct e; try contradiction; exact H2. }
  destruct (run_pipeline_rule w (fun _ _ => ok) fetched ok ok) with (st := st)
    as [[H _]|[H _]]; try exact H; try (split; assumption).
  - intros; assumption.
  - intros; assumption.
  - intros p cur st' H. unfold send_request. cbn [snd]. split.
    + apply (Hlog (EvRequest p cur)
               {| projects_to_fetch := projects_to_fetch st';
                  checkpoint_data := checkpoint_data st';
                  checkpoint_file := checkpoint_file st';
                  output_file := output_file st';
                  requests_made := S (requests_made st');
                  appends_made := appends_made st';
                  trace := trace st' |}); [exact H|exact I].
    + rewrite trace_log_event, last_project_snoc. reflexivity.
  - intros p cur ms st' [H _]. apply Hlog; [exact H|exact I].
  - intros p cur st' [H _]. exact H.
  - intros p cur l st' [H Hp] Hfate. unfold _save_issues_to_jsonl. rewrite Hfate.
    cbn [snd]. split.
    + apply (Hlog (EvAppend l true)
               {| projects_to_fetch := projects_to_fetch st';
                  checkpoint_data := checkpoint_data st';
                  checkpoint_file := checkpoint_file st';
                  output_file := output_file st' ++ l;
                  requests_made := requests_made st';
                  appends_made := S (appends_made st');
                  trace := trace st' |}); [exact H|exact I].
    + rewrite trace_log_event, last_project_snoc. exact Hp.
  - intros p cur l k st' [H _] Hfate. unfold _save_issues_to_jsonl. rewrite Hfate.
    cbn [snd].
    apply (Hlog (EvAppend (firstn k l) false)
             {| projects_to_fetch := projects_to_fetch st';
                checkpoint_data := checkpoint_data st';
                checkpoint_file := checkpoint_file st';
                output_file := output_file st' ++ firstn k l;
                requests_made := requests_made st';
                appends_made := S (appends_made st');
                trace := trace st' |}); [exact H|exact I].
  - intros p cur n st' _ H. apply (Hcommit p (Offset (cur + n)) st' H).
  - intros p cur st' H. apply (Hcommit p COMPLETED st' H).
Qed.

End ScraperFacts.

(** * The transformer: what the deriver does on well-formed records *)

Module TransformerFacts.
Import Transformer.

Section Deriver.
Variable html_text : string -> string.

Lemma clean_text_str s : _clean_text html_text (JStr s) = Ok (normalize html_text s).
Proof. destruct s; reflexivity. Qed.

Lemma clean_text_field members k :
  is_text (dict_lookup k members) = true ->
  _clean_text html_text (dict_get k (JStr "") members)
  = Ok (normalize html_text (text_of (dict_lookup k members))).
Proof.
  unfold dict_get. destruct (dict_lookup k members) as [[| | |s| |]|];
    try discriminate; intros _; try reflexivity. apply clean_text_str.
Qed.

Lemma text_field members k :
  is_text (dict_lookup k members) = true ->
  or_else (dict_get k (JStr "") members) (JStr "")
  = JStr (text_of (dict_lookup k members)).
Proof.
  unfold dict_get. destruct (dict_lookup k members) as [[| | |s| |]|];
    try discriminate; intros _; try reflexivity. destruct s; reflexivity.
Qed.

Lemma object_field members k k' dflt :
  is_object (dict_lookup k members) = true ->
  get (dict_get k (JObj []) members) k' dflt
  = Ok (match dict_lookup k members with
        | Some (JObj members') => dict_get k' dflt members'
        | _ => dflt
        end).
Proof.
  unfold dict_get. destruct (dict_lookup k members) as [[| | | | |m]|];
    try discriminate; reflexivity.
Qed.

Lemma comments_loop_well_formed comments : forall acc,
  forallb well_formed_comment comments = true ->
  comments_loop html_text comments acc
  = Ok (acc +:+ fold_right String.append EmptyString
                  (map (comment_block html_text) comments)).
Proof.
  induction comments as [|c comments IH]; intros acc H; cbn [forallb] in H.
  - cbn. rewrite append_empty_r. reflexivity.
  - apply andb_prop in H as [Hc H]. destruct c as [| | | | |m]; try discriminate.
    apply andb_prop in Hc as [Ha Hb]. cbn [member] in Ha, Hb.
    cbn [comments_loop get bind map fold_right].
    rewrite (object_field m "author" "displayName" (JStr "User") Ha). cbn [bind].
    rewrite (clean_text_field m "body" Hb). cbn [bind].
    rewrite (IH _ H). unfold comment_block. cbn [member].
    destruct (nonempty _); [|reflexivity].
    rewrite !append_assoc. reflexivity.
Qed.

Lemma dict_get_some {V} k (d : list (string * V)) dflt v :
  dict_lookup k d = Some v -> dict_get k dflt d = v.
Proof. unfold dict_get. intros ->. reflexivity. Qed.
Lemma dict_get_none {V} k (d : list (string * V)) dflt :
  dict_lookup k d = None -> dict_get k dflt d = dflt.
Proof. unfold dict_get. intros ->. reflexivity. Qed.

Lemma try_block_fields key m fm :
  dict_get "fields" (JObj []) m = JObj fm ->
  well_formed_fields (JObj fm) = true ->
  try_block html_text key (JObj m)
  = Ok (build_tasks key (JStr (summary_of (JObj m)))
          (name_of "status" (JObj m)) (name_of "priority" (JObj m))
          (name_of "issuetype" (JObj m))
          (description_of html_text (JObj m))
          (comments_text_of html_text (JObj m))).
Proof.
  intros Hf Hwf.
  assert (Hfo : fields_of (JObj m) = JObj fm).
  { unfold fields_of, dict_get in *. cbn [member].
    destruct (dict_lookup "fields" m); congruence. }
  unfold summary_of, name_of, description_of, comments_text_of, comments_of.
  rewrite Hfo. cbn [member].
  unfold well_formed_fields in Hwf. cbn [member] in Hwf.
  repeat (apply andb_prop in Hwf as [Hwf ?]).
  unfold try_block. cbn [get bind]. rewrite Hf. cbn [get bind].
  rewrite !text_field by assumption.
  rewrite !object_field by assumption. cbn [bind].
  rewrite clean_text_str. cbn [bind].
  destruct (dict_lookup "comment" fm) as [[| | | | |cm]|] eqn:Ec; try discriminate.
  - rewrite (dict_get_some _ _ _ _ Ec). cbn [get bind member] in *.
    destruct (dict_lookup "comments" cm) as [[| | | |cs|]|] eqn:Ecs; try discriminate.
    + rewrite (dict_get_some _ _ _ _ Ecs). cbn [iterate bind].
      rewrite comments_loop_well_formed by assumption. reflexivity.
    + rewrite (dict_get_none _ _ _ Ecs). reflexivity.
  - rewrite (dict_get_none _ _ _ Ec). reflexivity.
Qed.

Lemma create_derived_tasks_well_formed raw_issue :
  well_formed raw_issue = true ->
  _create_derived_tasks html_text raw_issue
  = ([], Ok (build_tasks (JStr (key_of raw_issue)) (JStr (summary_of raw_issue))
               (name_of "status" raw_issue) (name_of "priority" raw_issue)
               (name_of "issuetype" raw_issue)
               (description_of html_text raw_issue)
               (comments_text_of html_text raw_issue))).
Proof.
  destruct raw_issue as [| | | | |m]; try discriminate.
  unfold well_formed, key_of. cbn [member].
  intros H. apply andb_prop in H as [Hkey Hfields].
  unfold _create_derived_tasks. cbn [get].
  destruct (dict_lookup "key" m) as [[| | |k| |]|] eqn:Ek; try discriminate.
  rewrite (dict_get_some _ _ _ _ Ek). cbn [text_of].
  destruct (dict_lookup "fields" m) as [[| | | | |fm]|] eqn:Ef; try discriminate.
  - rewrite (try_block_fields (JStr k) m fm); [reflexivity| |exact Hfields].
    apply dict_get_some, Ef.
  - rewrite (try_block_fields (JStr k) m []); [reflexivity| |reflexivity].
    apply dict_get_none, Ef.
Qed.

(** ** Deduplication *)

Lemma write_tasks_tidy tasks : forall st, tidy st -> tidy (write_tasks tasks st).
Proof.
  induction tasks as [|t tasks IH]; intros st H; cbn [write_tasks]; [exact H|].
  apply IH. destruct (decide (id t ∈ seen_task_ids st)) as [Hin|Hout]; [exact H|].
  destruct H as [Hnd Hseen]. split; cbn [outfile seen_task_ids].
  - rewrite map_app. apply NoDup_app. split; [exact Hnd|]. split.
    + intros x Hx [<-|[]]%list_elem_of_In. apply Hout.
      apply list_elem_of_In, in_map_iff in Hx as (t' & <- & Ht'). apply Hseen, Ht'.
    + apply NoDup_singleton.
  - intros t' [Ht'|[<-|[]]]%in_app_or; [|set_solver].
    apply elem_of_union_r, Hseen, Ht'.
Qed.

Lemma outfile_counted st : outfile (counted st) = outfile st.
Proof. unfold counted. destruct (_ =? _)%nat; reflexivity. Qed.

Lemma seen_counted st : seen_task_ids (counted st) = seen_task_ids st.
Proof. unfold counted. destruct (_ =? _)%nat; reflexivity. Qed.

Lemma tidy_counted st : tidy st -> tidy (counted st).
Proof. unfold tidy. rewrite outfile_counted, seen_counted. tauto. Qed.

Lemma lines_loop_tidy lines : forall st,
  tidy st -> tidy (fst (lines_loop html_text lines st)).
Proof.
  induction lines as [|[text|raw_issue] lines IH]; intros st H; cbn [lines_loop].
  - exact H.
  - apply IH, tidy_counted, H.
  - destruct (_create_derived_tasks html_text raw_issue) as [records [tasks|e]].
    + apply IH, tidy_counted, write_tasks_tidy, H.
    + exact H.
Qed.

Lemma write_tasks_seen tasks : forall st,
  (forall t, In t tasks -> id t ∈ seen_task_ids st) -> write_tasks tasks st = st.
Proof.
  induction tasks as [|t tasks IH]; intros st H; cbn [write_tasks]; [reflexivity|].
  destruct (decide (id t ∈ seen_task_ids st)) as [_|Hout].
  - apply IH. intros t' Ht'. apply H. right. exact Ht'.
  - destruct Hout. apply H. left. reflexivity.
Qed.

Lemma write_tasks_covers tasks : forall st,
  seen_task_ids st ⊆ seen_task_ids (write_tasks tasks st)
  /\ forall t, In t tasks -> id t ∈ seen_task_ids (write_tasks tasks st).
Proof.
  induction tasks as [|t tasks IH]; intros st; cbn [write_tasks].
  - split; [reflexivity|intros ? []].
  - match goal with |- context [write_tasks tasks ?s] => destruct (IH s) as [Hsub Hin] end.
    split.
    + destruct (decide (id t ∈ seen_task_ids st)); [exact Hsub|].
      cbn [seen_task_ids] in Hsub. clear IH Hin. set_solver.
    + intros t' [<-|Ht']; [|apply Hin, Ht']. apply Hsub.
      destruct (decide (id t ∈ seen_task_ids st)); [assumption|].
      cbn [seen_task_ids]. clear IH Hin Hsub. set_solver.
Qed.

Lemma write_tasks_fresh tasks : forall st,
  NoDup (map id tasks) ->
  (forall t, In t tasks -> id t ∉ seen_task_ids st) ->
  outfile (write_tasks tasks st) = outfile st ++ tasks.
Proof.
  induction tasks as [|t tasks IH]; intros st Hnd Hout; cbn [write_tasks].
  - rewrite app_nil_r. reflexivity.
  - cbn [map] in Hnd. apply NoDup_cons in Hnd as [Ht Hnd].
    destruct (decide (id t ∈ seen_task_ids st)) as [Hin|_];
      [destruct (Hout t (or_introl eq_refl) Hin)|].
    rewrite IH; [cbn [outfile]; rewrite <- app_assoc; reflexivity|exact Hnd|].
    cbn [seen_task_ids].
    intros t' Ht' [Heq%elem_of_singleton|Hin]%elem_of_union.
    + apply Ht. rewrite <- Heq. apply list_elem_of_In, in_map, Ht'.
    + apply (Hout t' (or_intror Ht') Hin).
Qed.

Lemma append_inj_l (k a b : string) : k +:+ a = k +:+ b -> a = b.
Proof.
  induction k as [|c k IH]; intros E; [exact E|]. apply IH.
  change (String c (k +:+ a) = String c (k +:+ b)) in E. congruence.
Qed.

Lemma build_tasks_ids key summary status priority issuetype description comments_text :
  Py.truthy summary = true ->
  nonempty description || nonempty comments_text = true ->
  exists t1 t2 t3 t4,
    build_tasks key summary status priority issuetype description comments_text
    = [t1; t2; t3; t4]
    /\ id t1 = Py.str key +:+ "_summary"
    /\ id t2 = Py.str key +:+ "_qna_status"
    /\ id t3 = Py.str key +:+ "_classify_priority"
    /\ id t4 = Py.str key +:+ "_classify_type".
Proof.
  intros Hs Hd. unfold build_tasks. rewrite Hs, Hd. cbn [negb orb].
  eexists _, _, _, _. split; [reflexivity|]. repeat split.
Qed.

Lemma build_tasks_nodup key summary status priority issuetype description comments_text :
  NoDup (map id (build_tasks key summary status priority issuetype
                   description comments_text)).
Proof.
  unfold build_tasks. destruct (_ || _); cbn [map id]; [constructor|].
  repeat (constructor;
          [intros H%list_elem_of_In; cbn [In] in H;
           repeat (destruct H as [H|H]; [apply append_inj_l in H; discriminate H|]);
           exact H|]).
  constructor.
Qed.

Lemma build_tasks_id_in key summary status priority issuetype description comments_text t :
  In t (build_tasks key summary status priority issuetype description comments_text) ->
  In (id t) [Py.str key +:+ "_summary"; Py.str key +:+ "_qna_status";
             Py.str key +:+ "_classify_priority"; Py.str key +:+ "_classify_type"].
Proof.
  clear html_text. unfold build_tasks. destruct (_ || _); cbn [In]; [intros []|].
  intros [<-|[<-|[<-|[<-|[]]]]]; cbn [id]; tauto.
Qed.

(** Two lines, the second of which derives only identifiers the first has
    derived: the second adds nothing. *)
Lemma second_record_adds_nothing raw_issue1 raw_issue2 tasks1 tasks2 :
  _create_derived_tasks html_text raw_issue1 = ([], Ok tasks1) ->
  _create_derived_tasks html_text raw_issue2 = ([], Ok tasks2) ->
  NoDup (map id tasks1) ->
  (forall t, In t tasks2 -> In (id t) (map id tasks1)) ->
  outfile (fst (run_transformation html_text
                  (Some [Decoded raw_issue1; Decoded raw_issue2]))) = tasks1.
Proof.
  intros E1 E2 Hnd Hsame. unfold run_transformation. cbn [lines_loop]. rewrite E1, E2.
  cbn [fst add_log outfile]. rewrite outfile_counted.
  destruct (write_tasks_covers tasks1 (add_log [] start)) as [_ Hin].
  rewrite (write_tasks_seen tasks2 (add_log [] (counted _))).
  - cbn [add_log outfile]. rewrite outfile_counted.
    rewrite write_tasks_fresh; [reflexivity|exact Hnd|]. intros t _. set_solver.
  - intros t Ht. cbn [add_log seen_task_ids]. rewrite seen_counted.
    apply Hsame, in_map_iff in Ht as (t' & <- & Ht'). apply Hin, Ht'.
Qed.
End Deriver.

End TransformerFacts.

(** * The scraper: the claims *)

Section ScraperClaims.
Import Scraper ScraperFacts.

(** C1, as the claim states it, fails: a crash right after the file has been
    opened for writing leaves an empty file, which is neither the previous
    snapshot nor the new one. *)
Lemma save_crash_leaves_neither_snapshot :
  ~ (disk_after 1 [("SPARK", Offset 200)] (Some (dumps [("SPARK", Offset 100)]))
       = Some (dumps [("SPARK", Offset 100)])
     \/ disk_after 1 [("SPARK", Offset 200)] (Some (dumps [("SPARK", Offset 100)]))
       = Some (dumps [("SPARK", Offset 200)])).
Proof. vm_compute. intros [H|H]; discriminate H. Qed.

Lemma writes_concat chunks : forall k acc,
  fold_left apply_op (firstn k (map Write chunks ++ [Close])) (Some acc)
  = Some (acc +:+ fold_right String.append EmptyString (firstn k chunks)).
Proof.
  induction chunks as [|c chunks IH]; intros [|k] acc;
    cbn [map app firstn fold_left fold_right apply_op default];
    rewrite ?append_empty_r; try reflexivity.
  - destruct k; cbn; rewrite ?append_empty_r; reflexivity.
  - rewrite IH, append_assoc. reflexivity.
Qed.

Lemma concat_firstn_skipn (chunks : list string) k :
  fold_right String.append EmptyString chunks
  = fold_right String.append EmptyString (firstn k chunks)
    +:+ fold_right String.append EmptyString (skipn k chunks).
Proof.
  revert k. induction chunks as [|c chunks IH]; intros [|k];
    cbn [firstn skipn fold_right]; try reflexivity.
  rewrite (IH k), append_assoc. reflexivity.
Qed.

(** C1 (amended): [_save_checkpoint] overwrites the file in place.  Before
    the file is opened the previous content is intact; right after, the file
    is empty; from then on it holds an initial part of the new snapshot's
    text; and when the save has run to its end it holds the new snapshot. *)
Theorem save_checkpoint_overwrites_in_place (d : checkpoint) (disk : option string) :
  disk_after 0 d disk = disk
  /\ disk_after 1 d disk = Some EmptyString
  /\ (forall k, exists written rest,
        disk_after (S k) d disk = Some written /\ dumps d = written +:+ rest)
  /\ disk_after (length (save_checkpoint_ops d)) d disk = Some (dumps d).
Proof.
  split; [reflexivity|]. split; [reflexivity|]. split.
  - intros k. unfold disk_after, save_checkpoint_ops. cbn [app firstn fold_left apply_op].
    rewrite writes_concat.
    eexists _, _. split; [reflexivity|]. apply concat_firstn_skipn.
  - unfold disk_after, save_checkpoint_ops. cbn [app length firstn fold_left apply_op].
    rewrite writes_concat, firstn_all2; [reflexivity|].
    rewrite length_app, length_map. lia.
Qed.

(** C2, as the claim states it, fails: the first page of SPARK reports a
    total of zero, and after the run SPARK is not marked COMPLETED: nothing
    was written to the checkpoint file and the mapping still holds offset 0. *)
Lemma zero_total_is_not_marked_completed :
  http_get empty_world 0 "SPARK" 0 = Response 200 {| total := Some 0; issues := Some [] |}
  /\ checkpoint_file (main empty_world ["SPARK"] None []) = None
  /\ marker_of "SPARK" (checkpoint_data (main empty_world ["SPARK"] None [])) = Offset 0
  /\ persisted_marker "SPARK" (checkpoint_file (main empty_world ["SPARK"] None []))
     <> COMPLETED.
Proof. vm_compute. repeat split. discriminate. Qed.

(** C2 (amended): when the first page fetched for a collection reports a
    total of zero, the collection's loop ends with that fetch and the run
    moves on to the next collection; the mapping and the checkpoint file are
    left as they were (the collection is not marked COMPLETED). *)
Theorem zero_total_ends_collection_unmarked (w : world) (project : string)
    (rest : list string) (current_index : Z) (st st1 : scraper) (data : page) :
  marker_of project (checkpoint_data st) = Offset current_index ->
  _fetch_jira_page w project current_index st = (Some data, st1) ->
  default 0 (total data) = 0 ->
  while_true w project current_index st = Broke st1
  /\ for_projects w (project :: rest) st = for_projects w rest st1
  /\ checkpoint_data st1 = checkpoint_data st
  /\ checkpoint_file st1 = checkpoint_file st.
Proof.
  intros Hm Hfetch Htotal.
  assert (Hbody : loop_body w project current_index (-1) st = Break st1).
  { unfold loop_body. rewrite Hfetch, Htotal. reflexivity. }
  assert (Hloop : while_true w project current_index st = Broke st1).
  { unfold while_true. destruct (Z.to_nat _); cbn [while_first]; rewrite Hbody; reflexivity. }
  split; [exact Hloop|]. split.
  - cbn [for_projects]. unfold marker_of in Hm. rewrite Hm, Hloop. reflexivity.
  - pose proof (fetch_attempts_frame w MAX_RETRIES project current_index st) as Hf.
    unfold _fetch_jira_page in Hfetch. rewrite Hfetch in Hf. cbn [snd] in Hf. tauto.
Qed.

Lemma zero_total_ends_collection_unmarked_witness :
  while_true empty_world "SPARK" 0 (init ["SPARK"; "KAFKA"] None [])
    = Broke (snd (_fetch_jira_page empty_world "SPARK" 0 (init ["SPARK"; "KAFKA"] None [])))
  /\ checkpoint_file
       (snd (_fetch_jira_page empty_world "SPARK" 0 (init ["SPARK"; "KAFKA"] None [])))
     = None.
Proof.
  destruct (zero_total_ends_collection_unmarked empty_world "SPARK" ["KAFKA"] 0
              (init ["SPARK"; "KAFKA"] None [])
              (snd (_fetch_jira_page empty_world "SPARK" 0 (init ["SPARK"; "KAFKA"] None [])))
              {| total := Some 0; issues := Some [] |})
    as (H1 & _ & _ & H4); [reflexivity|reflexivity|reflexivity|].
  split; [exact H1|exact H4].
Defined.

(** C4: if an append to the raw record store fails, that append is the last
    thing the run does: no request and no save follows, and the mapping and
    the checkpoint file hold what they held before the failed write. *)
Theorem failed_raw_write_ends_the_run (w : world) (projects : list string)
    (file : option (option checkpoint)) (out : list json)
    (pre : list event) (written : list json) (post : list event) :
  trace (main w projects file out) = pre ++ EvAppend written false :: post ->
  post = []
  /\ checkpoint_data (main w projects file out)
     = last_saved (checkpoint_data (init projects file out)) pre
  /\ checkpoint_file (main w projects file out)
     = file_after (checkpoint_file (init projects file out)) pre.
Proof.
  intros Htrace. unfold main in *.
  destruct (run_pipeline_sound w _ _ _ (running_init projects file out))
    as [[_ Hok]|[(_ & Hl & Hf) (pre' & written' & Ht & Hok)]].
  - rewrite Htrace in Hok. apply Forall_app in Hok as [_ Hok].
    inversion Hok; discriminate.
  - rewrite Htrace in Ht.
    destruct (failed_append_last _ _ _ _ _ Ht eq_refl Hok) as [-> <-].
    split; [reflexivity|].
    rewrite Htrace, last_saved_snoc in Hl. rewrite Htrace, file_after_snoc in Hf.
    split; symmetry; assumption.
Qed.

Lemma failed_raw_write_ends_the_run_witness :
  trace (main full_disk_world ["SPARK"; "KAFKA"] None [])
    = [EvRequest "SPARK" 0] ++ EvAppend [issue_number 0] false :: []
  /\ checkpoint_data (main full_disk_world ["SPARK"; "KAFKA"] None [])
     = [("SPARK", Offset 0); ("KAFKA", Offset 0)]
  /\ checkpoint_file (main full_disk_world ["SPARK"; "KAFKA"] None []) = None.
Proof.
  split; [reflexivity|].
  destruct (failed_raw_write_ends_the_run full_disk_world ["SPARK"; "KAFKA"] None []
              [EvRequest "SPARK" 0] [issue_number 0] [] eq_refl) as (_ & H2 & H3).
  split; [exact H2|exact H3].
Defined.


(** C5: over a run, the markers of a collection in the successive snapshots
    written to the checkpoint never go down, starting from the marker the run
    loaded; once a snapshot holds the terminal marker for the collection,
    every later snapshot holds it too and no page of the collection is
    requested any more; and a collection that is terminal when the run starts
    is not requested at all. *)
Theorem markers_only_advance (w : world) (projects : list string)
    (file : option (option checkpoint)) (out : list json) (p : string) :
  (forall pre c post,
     trace (main w projects file out) = pre ++ EvSave c :: post ->
     marker_le (marker_of p (checkpoint_data (init projects file out))) (marker_of p c)
     /\ (forall c', In (EvSave c') post -> marker_le (marker_of p c) (marker_of p c'))
     /\ (marker_of p c = COMPLETED ->
         (forall c', In (EvSave c') post -> marker_of p c' = COMPLETED)
         /\ (forall start_at, ~ In (EvRequest p start_at) post)))
  /\ (marker_of p (checkpoint_data (init projects file out)) = COMPLETED ->
      (forall start_at, ~ In (EvRequest p start_at) (trace (main w projects file out)))
      /\ (forall c, In (EvSave c) (trace (main w projects file out)) ->
          marker_of p c = COMPLETED)).
Proof.
  assert (Hm : monitored (checkpoint_data (init projects file out))
                 (trace (main w projects file out))).
  { unfold main.
    destruct (run_pipeline_sound w _ _ _ (running_init projects file out))
      as [[(Hm & _) _]|[(Hm & _) _]]; exact Hm. }
  split.
  - intros pre c post E. rewrite E in Hm.
    apply monitored_app in Hm as [Hpre [Hsave Hpost]]. cbn [after] in Hpost.
    split; [|split].
    + eapply marker_le_trans; [apply monitored_last, Hpre|apply Hsave].
    + intros c' Hin. eapply monitored_save; eassumption.
    + intros Hc. split.
      * intros c' Hin. apply marker_le_completed. rewrite <- Hc.
        eapply monitored_save; eassumption.
      * intros start_at. eapply monitored_request; eassumption.
  - intros Hc. split.
    + intros start_at. eapply monitored_request; eassumption.
    + intros c Hin. apply marker_le_completed. rewrite <- Hc.
      eapply monitored_save; eassumption.
Qed.

Lemma markers_only_advance_witness :
  marker_le (Offset 0) (Offset 2)
  /\ marker_le (Offset 2) (marker_of "SPARK" [("SPARK", Offset 3)])
  /\ marker_le (Offset 2) (marker_of "SPARK" [("SPARK", COMPLETED)]).
Proof.
  destruct (markers_only_advance small_world ["SPARK"] None [] "SPARK") as [H _].
  destruct (H [EvRequest "SPARK" 0; EvAppend [issue_number 0; issue_number 1] true]
              [("SPARK", Offset 2)]
              [EvSleep 300; EvRequest "SPARK" 2; EvAppend [issue_number 2] true;
               EvSave [("SPARK", Offset 3)]; EvSave [("SPARK", COMPLETED)]]
              eq_refl) as (H1 & H2 & _).
  split; [exact H1|]. split; apply H2; cbn [In]; tauto.
Defined.

(** C6: when every attempt of a page fetch meets a transient failure (429,
    5xx or a network error), [_fetch_jira_page] gives up with no page after
    exactly [MAX_RETRIES] requests, a 429 counting as one attempt like the
    others, and it has slept at least [(MAX_RETRIES - 1) * 15] seconds. *)
Theorem fetch_gives_up_after_max_retries (w : world) (project_key : string)
    (start_at : Z) (st : scraper) :
  (forall k, (k < MAX_RETRIES)%nat ->
     transient (http_get w (requests_made st + k) project_key start_at) = true) ->
  exists evs st',
    _fetch_jira_page w project_key start_at st = (None, st')
    /\ trace st' = trace st ++ evs
    /\ requests_in evs = MAX_RETRIES
    /\ (Z.of_nat MAX_RETRIES - 1) * 15000 <= slept evs.
Proof.
  intros H.
  destruct (fetch_attempts_transient w project_key start_at MAX_RETRIES st H)
    as (evs & st' & E & Ht & Hr & Hs).
  exists evs, st'. repeat split; try assumption. lia.
Qed.

Lemma fetch_gives_up_after_max_retries_witness :
  exists evs st',
    _fetch_jira_page down_world "SPARK" 0 (init ["SPARK"] None []) = (None, st')
    /\ trace st' = trace (init ["SPARK"] None []) ++ evs
    /\ requests_in evs = MAX_RETRIES
    /\ (Z.of_nat MAX_RETRIES - 1) * 15000 <= slept evs.
Proof.
  apply (fetch_gives_up_after_max_retries down_world "SPARK" 0 (init ["SPARK"] None [])).
  intros k _. reflexivity.
Defined.

(** C10: every snapshot a run writes to the checkpoint file follows a page
    request, and for every collection other than the one that request was
    for, the marker read from the file after the save is the marker read from
    it before the save. *)
Theorem save_changes_one_collection (w : world) (projects : list string)
    (file : option (option checkpoint)) (out : list json)
    (pre : list event) (c : checkpoint) (post : list event) :
  trace (main w projects file out) = pre ++ EvSave c :: post ->
  exists p,
    last_project pre = Some p
    /\ forall q, q <> p ->
         persisted_marker q (file_after (checkpoint_file (init projects file out))
                               (pre ++ [EvSave c]))
         = persisted_marker q (file_after (checkpoint_file (init projects file out)) pre).
Proof.
  intros E.
  destruct (run_pipeline_frames w (checkpoint_data (init projects file out))
              (init projects file out)) with (pre := pre) (c := c) (post := post)
    as (p & Hp & Hq); [intros [|? ?] ? ? [=]|reflexivity|exact E|].
  exists p. split; [exact Hp|]. intros q Hne.
  rewrite file_after_snoc. cbn [persisted_marker]. rewrite (Hq q Hne).
  apply replay_agrees, agrees_init.
Qed.

Lemma save_changes_one_collection_witness :
  persisted_marker "KAFKA"
    (file_after None
       ([EvRequest "SPARK" 0; EvAppend [issue_number 0; issue_number 1] true]
        ++ [EvSave [("SPARK", Offset 2); ("KAFKA", Offset 0)]]))
  = persisted_marker "KAFKA"
      (file_after None
         [EvRequest "SPARK" 0; EvAppend [issue_number 0; issue_number 1] true]).
Proof.
  destruct (save_changes_one_collection small_world ["SPARK"; "KAFKA"] None []
              [EvRequest "SPARK" 0; EvAppend [issue_number 0; issue_number 1] true]
              [("SPARK", Offset 2); ("KAFKA", Offset 0)]
              [EvSleep 300; EvRequest "SPARK" 2; EvAppend [issue_number 2] true;
               EvSave [("SPARK", Offset 3); ("KAFKA", Offset 0)];
               EvSave [("SPARK", COMPLETED); ("KAFKA", Offset 0)];
               EvRequest "KAFKA" 0; EvAppend [issue_number 0; issue_number 1] true;
               EvSave [("SPARK", COMPLETED); ("KAFKA", Offset 2)];
               EvSleep 300; EvRequest "KAFKA" 2; EvAppend [issue_number 2] true;
               EvSave [("SPARK", COMPLETED); ("KAFKA", Offset 3)];
               EvSave [("SPARK", COMPLETED); ("KAFKA", COMPLETED)]]
              eq_refl) as (p & Hp & Hq).
  injection Hp as <-. apply Hq. discriminate.
Defined.

End ScraperClaims.

(** * The transformer: the claims *)

Section TransformerClaims.
Import Transformer TransformerFacts.

Lemma nonempty_false s : nonempty s = false <-> s = EmptyString.
Proof. unfold nonempty. destruct s; cbn; split; congruence. Qed.

Lemma nonempty_true s : nonempty s = true <-> s <> EmptyString.
Proof. unfold nonempty. destruct s; cbn; split; congruence. Qed.

(** A record that is a JSON object never makes the deriver raise. *)
Lemma object_record_never_raises html_text members :
  exists records tasks,
    _create_derived_tasks html_text (JObj members) = (records, Ok tasks).
Proof.
  unfold _create_derived_tasks. cbn [get].
  destruct (try_block html_text _ _); eexists _, _; reflexivity.
Qed.

(** C3 fails on the code: a line that decodes to a JSON array makes
    [_create_derived_tasks] raise [UnboundLocalError] out of its own handler,
    and the exception ends [run_transformation] at that line, whatever
    follows it. *)
Theorem array_record_ends_the_run (html_text : string -> string) (rest : list raw_line) :
  _create_derived_tasks html_text (JArr []) = ([], Raise UnboundLocalError)
  /\ run_transformation html_text (Some (Decoded (JArr []) :: rest))
     = (start, Some UnboundLocalError).
Proof. split; reflexivity. Qed.

(** C7: on a well-formed record the deriver produces no task when the
    summary is empty or when the normalized description and the combined
    comment text are both empty; otherwise it produces exactly four tasks,
    whose identifiers are the record's key followed by [_summary],
    [_qna_status], [_classify_priority] and [_classify_type]. *)
Theorem deriver_none_or_four_tasks (html_text : string -> string) (raw_issue : json) :
  well_formed raw_issue = true ->
  ((summary_of raw_issue = EmptyString
    \/ (description_of html_text raw_issue = EmptyString
        /\ comments_text_of html_text raw_issue = EmptyString)) ->
   _create_derived_tasks html_text raw_issue = ([], Ok []))
  /\ (summary_of raw_issue <> EmptyString ->
      (description_of html_text raw_issue <> EmptyString
       \/ comments_text_of html_text raw_issue <> EmptyString) ->
      exists t1 t2 t3 t4,
        _create_derived_tasks html_text raw_issue = ([], Ok [t1; t2; t3; t4])
        /\ id t1 = key_of raw_issue +:+ "_summary"
        /\ id t2 = key_of raw_issue +:+ "_qna_status"
        /\ id t3 = key_of raw_issue +:+ "_classify_priority"
        /\ id t4 = key_of raw_issue +:+ "_classify_type").
Proof.
  intros Hwf. rewrite (create_derived_tasks_well_formed html_text raw_issue Hwf). split.
  - intros H. unfold build_tasks. cbn [Py.truthy].
    replace (negb (negb (String.eqb (summary_of raw_issue) EmptyString))
             || negb (nonempty (description_of html_text raw_issue)
                      || nonempty (comments_text_of html_text raw_issue)))
      with true; [reflexivity|].
    symmetry. destruct H as [->|[-> ->]]; [reflexivity|]. apply orb_true_r.
  - intros Hs Hd.
    destruct (build_tasks_ids (JStr (key_of raw_issue)) (JStr (summary_of raw_issue))
                (name_of "status" raw_issue) (name_of "priority" raw_issue)
                (name_of "issuetype" raw_issue) (description_of html_text raw_issue)
                (comments_text_of html_text raw_issue))
      as (t1 & t2 & t3 & t4 & E & Hids).
    + apply nonempty_true, Hs.
    + apply orb_true_iff. destruct Hd as [Hd|Hd]; [left|right]; apply nonempty_true, Hd.
    + exists t1, t2, t3, t4. rewrite E. split; [reflexivity|exact Hids].
Qed.

Lemma deriver_none_or_four_tasks_witness :
  exists t1 t2 t3 t4,
    _create_derived_tasks soup_text sample_issue = ([], Ok [t1; t2; t3; t4])
    /\ id t1 = "SPARK-1_summary"
    /\ id t2 = "SPARK-1_qna_status"
    /\ id t3 = "SPARK-1_classify_priority"
    /\ id t4 = "SPARK-1_classify_type".
Proof.
  destruct (deriver_none_or_four_tasks soup_text sample_issue eq_refl) as [_ H].
  apply H.
  - vm_compute. discriminate.
  - left. vm_compute. discriminate.
Defined.

(** C8: the two examples of the normalizer, and the empty and the missing
    input. *)
Theorem normalizer_examples :
  _clean_text soup_text (JStr "<b>Hi</b> {code}x=1{code} [Go|http://x]") = Ok "Hi x=1 Go"
  /\ _clean_text soup_text (JStr "contact me at a@b.com from 10.0.0.1")
     = Ok "contact me at [EMAIL_REMOVED] from [IP_REMOVED]"
  /\ _clean_text soup_text (JStr EmptyString) = Ok EmptyString
  /\ _clean_text soup_text JNull = Ok EmptyString.
Proof. repeat split; vm_compute; reflexivity. Qed.

(** C9: whatever the raw file holds, the identifiers of the tasks a run
    writes are pairwise distinct; and a raw file of two well-formed records
    with the same identifier yields the four tasks of the first, once. *)
Theorem output_identifiers_distinct (html_text : string -> string) :
  (forall raw_file,
     NoDup (map id (outfile (fst (run_transformation html_text raw_file)))))
  /\ (forall raw_issue1 raw_issue2,
        well_formed raw_issue1 = true ->
        well_formed raw_issue2 = true ->
        informative html_text raw_issue1 = true ->
        key_of raw_issue1 = key_of raw_issue2 ->
        exists t1 t2 t3 t4,
          _create_derived_tasks html_text raw_issue1 = ([], Ok [t1; t2; t3; t4])
          /\ outfile (fst (run_transformation html_text
                             (Some [Decoded raw_issue1; Decoded raw_issue2])))
             = [t1; t2; t3; t4]).
Proof.
  split.
  - intros [lines|]; [|constructor]. unfold run_transformation.
    pose proof (lines_loop_tidy html_text lines start) as H.
    destruct (lines_loop html_text lines start) as [st [e|]]; apply H;
      (split; [constructor|intros ? []]).
  - intros r1 r2 Hwf1 Hwf2 Hinf Hkey. unfold informative in Hinf.
    apply andb_prop in Hinf as [Hs Hd].
    pose proof (create_derived_tasks_well_formed html_text r1 Hwf1) as E1.
    pose proof (create_derived_tasks_well_formed html_text r2 Hwf2) as E2.
    destruct (build_tasks_ids (JStr (key_of r1)) (JStr (summary_of r1))
                (name_of "status" r1) (name_of "priority" r1)
                (name_of "issuetype" r1) (description_of html_text r1)
                (comments_text_of html_text r1) Hs Hd)
      as (t1 & t2 & t3 & t4 & Eb & Hid1 & Hid2 & Hid3 & Hid4).
    exists t1, t2, t3, t4. rewrite <- Eb. split; [exact E1|].
    eapply (second_record_adds_nothing html_text);
      [exact E1|exact E2|apply build_tasks_nodup|].
    intros t Ht. apply build_tasks_id_in in Ht. rewrite <- Hkey in Ht.
    rewrite Eb. cbn [map]. rewrite Hid1, Hid2, Hid3, Hid4. exact Ht.
Qed.

Lemma output_identifiers_distinct_witness :
  map id (outfile (fst (run_transformation soup_text
                          (Some [Decoded sample_issue; Decoded sample_issue]))))
  = ["SPARK-1_summary"; "SPARK-1_qna_status"; "SPARK-1_classify_priority";
     "SPARK-1_classify_type"].
Proof.
  destruct (output_identifiers_distinct soup_text) as [_ H].
  destruct (H sample_issue sample_issue eq_refl eq_refl eq_refl eq_refl)
    as (t1 & t2 & t3 & t4 & E & ->).
  injection E as <- <- <- <-. reflexivity.
Defined.

End TransformerClaims.

(** * The scraper: more of what the code does *)

Module ScraperMore.
Import Scraper ScraperFacts.

(** ** A finer proof rule, which knows the page that was appended *)
Section PageRule.
Variable w : world.
Variables Inside Fetched Advanced : string -> Z -> scraper -> Prop.
Variable Appended : string -> Z -> list json -> scraper -> Prop.
Variables Between Stopped : scraper -> Prop.

Hypothesis enter : forall p cur st,
  Between st -> marker_of p (checkpoint_data st) = Offset cur -> Inside p cur st.
Hypothesis leave : forall p cur st, Inside p cur st -> Between st.
Hypothesis request : forall p cur st,
  Inside p cur st -> Fetched p cur (snd (send_request w p cur st)).
Hypothesis pause : forall p cur ms st, Fetched p cur st -> Inside p cur (sleep ms st).
Hypothesis abandon : forall p cur st, Fetched p cur st -> Between st.
Hypothesis append_ok : forall p cur l st,
  Fetched p cur st -> file_append w (appends_made st) = None ->
  Appended p cur l (snd (_save_issues_to_jsonl w l st)).
Hypothesis append_failed : forall p cur l k st,
  Fetched p cur st -> file_append w (appends_made st) = Some k ->
  Stopped (snd (_save_issues_to_jsonl w l st)).
Hypothesis advance : forall p cur l st,
  Appended p cur l st ->
  Advanced p (cur + Z.of_nat (length l))
    (commit p (Offset (cur + Z.of_nat (length l))) st).
Hypothesis complete_empty : forall p cur st,
  Fetched p cur st -> Between (commit p COMPLETED st).
Hypothesis complete_done : forall p cur st,
  Advanced p cur st -> Between (commit p COMPLETED st).
Hypothesis pace : forall p cur st, Advanced p cur st -> Inside p cur (sleep 300 st).

Lemma loop_body_pages p cur tot st :
  Inside p cur st ->
  match loop_body w p cur tot st with
  | Break st' => Between st'
  | Return st' => Stopped st'
  | Again cur' _ st' => Inside p cur' st'
  end.
Proof.
  intros H. unfold loop_body, _fetch_jira_page.
  pose proof (fetch_attempts_rule w Inside Fetched Between leave request pause abandon
                MAX_RETRIES p cur st H) as H1.
  destruct (fetch_attempts w MAX_RETRIES p cur st) as [[data|] st1]; [|exact H1].
  destruct ((tot =? -1) && _); [eapply abandon, H1|].
  destruct (default [] (issues data)) as [|i l] eqn:El; [eapply complete_empty, H1|].
  pose proof (append_ok p cur (i :: l) st1 H1) as Hok.
  pose proof (fun k => append_failed p cur (i :: l) k st1 H1) as Hko.
  unfold _save_issues_to_jsonl in *.
  destruct (file_append w (appends_made st1)) as [k|]; cbn [fst snd negb] in *.
  - eapply Hko. reflexivity.
  - specialize (Hok eq_refl). apply advance in Hok.
    match goal with |- context [if ?b then _ else _] => destruct b end.
    + eapply complete_done, Hok.
    + apply pace, Hok.
Qed.

Lemma while_total_pages passes p cur tot st :
  Inside p cur st ->
  match while_total w passes p cur tot st with
  | Broke st' => Between st'
  | Returned st' => Stopped st'
  end.
Proof.
  revert cur tot st. induction passes as [|n IH]; intros cur tot st H; cbn [while_total];
    pose proof (loop_body_pages p cur tot st H) as Hb;
    destruct (loop_body w p cur tot st) as [st'|st'|cur' tot' st'];
    try exact Hb.
  - eapply leave, Hb.
  - apply IH, Hb.
Qed.

Lemma while_first_pages passes p cur st :
  Inside p cur st ->
  match while_first w passes p cur st with
  | Broke st' => Between st'
  | Returned st' => Stopped st'
  end.
Proof.
  revert cur st. induction passes as [|n IH]; intros cur st H; cbn [while_first];
    pose proof (loop_body_pages p cur (-1) st H) as Hb;
    destruct (loop_body w p cur (-1) st) as [st'|st'|cur' tot' st'];
    try exact Hb;
    (destruct (tot' =? -1); [|apply while_total_pages, Hb]).
  - eapply leave, Hb.
  - apply IH, Hb.
Qed.

Lemma run_pipeline_pages st :
  Between st -> Between (run_pipeline w st) \/ Stopped (run_pipeline w st).
Proof.
  unfold run_pipeline. generalize (projects_to_fetch st) as projects.
  intros projects. revert st.
  induction projects as [|p rest IH]; intros st H; cbn [for_projects];
    [left; exact H|].
  destruct (dict_get p (Offset 0) (checkpoint_data st)) as [cur|] eqn:E; [|apply IH, H].
  pose proof (while_first_pages (Z.to_nat (-1 - cur)) p cur st (enter _ _ _ H E)) as Hw.
  unfold while_true. destruct (while_first w _ p cur st) as [st'|st']; auto.
Qed.
End PageRule.

(** ** Pages and saves *)

Lemma last_request_snoc tr e :
  last_request (tr ++ [e])
  = match e with EvRequest p s => Some (p, s) | _ => last_request tr end.
Proof. unfold last_request. rewrite fold_left_app. reflexivity. Qed.

Lemma paged_log c0 tr data e :
  paged c0 tr data ->
  match e with
  | EvSave _ => False
  | EvRequest p s => marker_of p data = Offset s
  | _ => True
  end ->
  paged c0 (tr ++ [e]) data.
Proof.
  intros (Hr & Hs & Hl) He. split; [|split].
  - intros pre p s post E. symmetry in E.
    apply snoc_split in E as [(_ & -> & <-)|(post' & _ & ->)].
    + rewrite Hl. exact He.
    + eapply Hr. reflexivity.
  - intros pre c post E. symmetry in E.
    apply snoc_split in E as [(_ & _ & <-)|(post' & _ & ->)]; [destruct He|].
    eapply Hs. reflexivity.
  - rewrite last_saved_snoc, Hl. destruct e; try reflexivity. destruct He.
Qed.

Lemma last_append_snoc tr e :
  last_append (tr ++ [e]) = match e with EvAppend l true => Some l | _ => None end.
Proof. unfold last_append. rewrite rev_app_distr. reflexivity. Qed.

Lemma paged_save c0 tr data p s :
  paged c0 tr data ->
  last_request tr = Some (p, s) ->
  let c := dict_set p (match last_append tr with
                       | Some l => Offset (s + Z.of_nat (length l))
                       | None => COMPLETED
                       end) data in
  paged c0 (tr ++ [EvSave c]) c.
Proof.
  intros (Hr & Hs & Hl) Hp c. split; [|split].
  - intros pre p' s' post E. symmetry in E.
    apply snoc_split in E as [(_ & _ & [=])|(post' & _ & ->)].
    eapply Hr. reflexivity.
  - intros pre c' post E. symmetry in E.
    apply snoc_split in E as [(_ & -> & [= ->])|(post' & _ & ->)].
    + exists p, s. split; [exact Hp|]. rewrite Hl. reflexivity.
    + eapply Hs. reflexivity.
  - rewrite last_saved_snoc. reflexivity.
Qed.

Lemma settled_log tr e :
  settled tr ->
  match e with EvAppend _ true => False | _ => True end ->
  settled (tr ++ [e]).
Proof.
  intros H He pre l post E. symmetry in E.
  apply snoc_split in E as [(_ & _ & <-)|(post' & -> & ->)]; [destruct He|].
  destruct (H pre l post' eq_refl) as (c & post'' & ->).
  exists c, (post'' ++ [e]). reflexivity.
Qed.

Lemma settled_append_save tr l c :
  settled tr -> settled ((tr ++ [EvAppend l true]) ++ [EvSave c]).
Proof.
  intros H pre l' post E. rewrite <- app_assoc in E. cbn [app] in E. symmetry in E.
  change (pre ++ EvAppend l' true :: post = tr ++ [EvAppend l true; EvSave c]) in E.
  change (tr ++ [EvAppend l true; EvSave c])
    with (tr ++ [EvAppend l true] ++ [EvSave c]) in E.
  rewrite app_assoc in E.
  apply snoc_split in E as [(_ & _ & [=])|(post' & -> & E)]. symmetry in E.
  apply snoc_split in E as [(-> & _ & _)|(post'' & -> & ->)].
  - exists c, []. reflexivity.
  - destruct (H pre l' post'' eq_refl) as (c' & post3 & ->).
    exists c', (post3 ++ [EvAppend l true] ++ [EvSave c]).
    rewrite <- !app_assoc. reflexivity.
Qed.

Section Pages.
Variable w : world.
Variable c0 : checkpoint.

Lemma page_ok_log e st :
  page_ok c0 st ->
  match e with
  | EvSave _ => False
  | EvRequest p s => marker_of p (checkpoint_data st) = Offset s
  | EvAppend _ true => False
  | _ => True
  end ->
  page_ok c0 (log_event e st).
Proof.
  intros [Hp Hs] He. split; rewrite trace_log_event.
  - apply paged_log; [exact Hp|]. destruct e as [| |? []|]; exact He || exact I.
  - apply settled_log; [exact Hs|]. destruct e as [| |? []|]; exact He || exact I.
Qed.

Lemma page_ok_completed p s st :
  page_ok c0 st -> last_request (trace st) = Some (p, s) ->
  last_append (trace st) = None ->
  page_ok c0 (commit p COMPLETED st).
Proof.
  intros [Hp Hs] Hr Ha. pose proof (paged_save _ _ _ _ _ Hp Hr) as H.
  rewrite Ha in H. cbn zeta in H.
  unfold page_ok, commit, _save_checkpoint. rewrite trace_log_event.
  unfold set_marker, log_event. cbn [trace checkpoint_data].
  split; [exact H|]. apply settled_log; [exact Hs|exact I].
Qed.

Lemma run_pipeline_paged st :
  page_ok c0 st -> page_ok c0 (run_pipeline w st).
Proof.
  intros H.
  destruct (run_pipeline_pages w (page_inside c0) (page_fetched c0) (page_advanced c0)
              (page_appended c0) (page_ok c0) (page_ok c0))
    with (st := st) as [H'|H']; try exact H'; try exact H.
  - intros p cur st' Hok E. split; assumption.
  - intros p cur st' [Hok _]. exact Hok.
  - intros p cur st' [Hok E]. unfold send_request. cbn [snd]. split; [|split; [|split]].
    + apply (page_ok_log (EvRequest p cur)
               {| projects_to_fetch := projects_to_fetch st';
                  checkpoint_data := checkpoint_data st';
                  checkpoint_file := checkpoint_file st';
                  output_file := output_file st';
                  requests_made := S (requests_made st');
                  appends_made := appends_made st';
                  trace := trace st' |}); [exact Hok|exact E].
    + exact E.
    + rewrite trace_log_event, last_request_snoc. reflexivity.
    + rewrite trace_log_event, last_append_snoc. reflexivity.
  - intros p cur ms st' (Hok & E & _). split; [|exact E].
    apply page_ok_log; [exact Hok|exact I].
  - intros p cur st' [Hok _]. exact Hok.
  - intros p cur l st' ([Hp Hs] & E & Hr & _) Hfate. unfold _save_issues_to_jsonl.
    rewrite Hfate. cbn [snd]. exists (trace st').
    split; [reflexivity|]. split; [exact Hp|]. split; [exact Hs|exact Hr].
  - intros p cur l k st' (Hok & _) Hfate. unfold _save_issues_to_jsonl.
    rewrite Hfate. cbn [snd].
    apply (page_ok_log (EvAppend (firstn k l) false)
             {| projects_to_fetch := projects_to_fetch st';
                checkpoint_data := checkpoint_data st';
                checkpoint_file := checkpoint_file st';
                output_file := output_file st' ++ firstn k l;
                requests_made := requests_made st';
                appends_made := S (appends_made st');
                trace := trace st' |}); [exact Hok|exact I].
  - intros p cur l st' (tr & Ht & Hp & Hs & Hr).
    assert (Hp' : paged c0 (tr ++ [EvAppend l true]) (checkpoint_data st'))
      by (apply paged_log; [exact Hp|exact I]).
    assert (Hr' : last_request (tr ++ [EvAppend l true]) = Some (p, cur))
      by (rewrite last_request_snoc; exact Hr).
    pose proof (paged_save _ _ _ _ _ Hp' Hr') as H1.
    rewrite last_append_snoc in H1. cbn zeta in H1.
    unfold page_advanced, page_ok, commit, _save_checkpoint. rewrite trace_log_event.
    unfold set_marker, log_event. cbn [trace checkpoint_data]. rewrite Ht.
    split; [split; [exact H1|apply settled_append_save, Hs]|].
    split; [rewrite marker_of_set, String.eqb_refl; reflexivity|].
    split; [exists cur; rewrite last_request_snoc; exact Hr'|].
    rewrite last_append_snoc. reflexivity.
  - intros p cur st' (Hok & _ & Hr & Ha). eapply page_ok_completed; eassumption.
  - intros p cur st' (Hok & _ & [s Hr] & Ha). eapply page_ok_completed; eassumption.
  - intros p cur st' (Hok & E & _). split; [|exact E].
    apply page_ok_log; [exact Hok|exact I].
Qed.
End Pages.

Lemma page_ok_init projects file out :
  page_ok (checkpoint_data (init projects file out)) (init projects file out).
Proof.
  split; [split; [|split]|].
  - intros [|? ?] ? ? ? [=].
  - intros [|? ?] ? ? [=].
  - reflexivity.
  - intros [|? ?] ? ? [=].
Qed.

Lemma main_paged w projects file out :
  page_ok (checkpoint_data (init projects file out)) (main w projects file out).
Proof. apply run_pipeline_paged, page_ok_init. Qed.

(** ** Loading *)

Lemma dict_lookup_fill_missing_keeps q m projects : forall d,
  dict_lookup q d = Some m -> dict_lookup q (fill_missing projects d) = Some m.
Proof.
  induction projects as [|p rest IH]; intros d H; cbn [fill_missing]; [exact H|].
  apply IH. destruct (dict_lookup p d) eqn:E; [exact H|].
  rewrite dict_lookup_set. destruct (String.eqb_spec q p) as [->|_]; [congruence|exact H].
Qed.

Lemma dict_lookup_fill_missing_absent q projects : forall d,
  ~ In q projects -> dict_lookup q (fill_missing projects d) = dict_lookup q d.
Proof.
  induction projects as [|p rest IH]; intros d H; cbn [fill_missing]; [reflexivity|].
  rewrite IH by (intros Hin; apply H; right; exact Hin).
  destruct (dict_lookup p d); [reflexivity|]. rewrite dict_lookup_set.
  destruct (String.eqb_spec q p) as [->|_]; [|reflexivity].
  destruct H. left. reflexivity.
Qed.

Lemma dict_lookup_fill_missing_in q projects : forall d,
  In q projects ->
  dict_lookup q (fill_missing projects d) = Some (marker_of q d).
Proof.
  induction projects as [|p rest IH]; intros d H; [destruct H|]. cbn [fill_missing].
  set (d' := match dict_lookup p d with Some _ => d | None => dict_set p (Offset 0) d end).
  assert (Hsame : marker_of q d' = marker_of q d).
  { subst d'. destruct (dict_lookup p d) eqn:Ep; [reflexivity|].
    rewrite marker_of_set. destruct (String.eqb_spec q p) as [->|_]; [|reflexivity].
    unfold marker_of, dict_get. rewrite Ep. reflexivity. }
  destruct (in_dec string_dec q rest) as [Hin|Hout]; [rewrite (IH d' Hin), Hsame; reflexivity|].
  destruct H as [->|H]; [|contradiction].
  rewrite dict_lookup_fill_missing_absent by exact Hout.
  subst d'. unfold marker_of, dict_get.
  destruct (dict_lookup q d) eqn:Eq; [exact Eq|].
  rewrite dict_lookup_set, String.eqb_refl. reflexivity.
Qed.

Lemma fill_missing_covered projects : forall d,
  covers projects d -> fill_missing projects d = d.
Proof.
  induction projects as [|p rest IH]; intros d H; cbn [fill_missing]; [reflexivity|].
  destruct (dict_lookup p d) eqn:E; [|destruct (H p (or_introl eq_refl) E)].
  apply IH. intros q Hq. apply H. right. exact Hq.
Qed.

Lemma covers_fill_missing projects d : covers projects (fill_missing projects d).
Proof. intros p Hp. rewrite (dict_lookup_fill_missing_in p projects d Hp). discriminate. Qed.

Lemma covers_set projects p m d : covers projects d -> covers projects (dict_set p m d).
Proof.
  intros H q Hq. rewrite dict_lookup_set. destruct (String.eqb q p); [discriminate|].
  apply H, Hq.
Qed.

Lemma covers_load projects file : covers projects (_load_checkpoint projects file).
Proof. destruct file as [[d|]|]; apply covers_fill_missing. Qed.

Lemma reload_run_pipeline w st :
  covers (projects_to_fetch st) (checkpoint_data st) ->
  reload st = checkpoint_data st ->
  reload (run_pipeline w st) = checkpoint_data (run_pipeline w st).
Proof.
  intros Hc Hr.
  pose (good := fun st' : scraper =>
          projects_to_fetch st' = projects_to_fetch st
          /\ covers (projects_to_fetch st) (checkpoint_data st')
          /\ reload st' = checkpoint_data st').
  assert (Hcommit : forall p m st', good st' -> good (commit p m st')).
  { intros p m st' (Hp & Hcov & _). unfold good, reload, commit, _save_checkpoint,
      set_marker, log_event. cbn [projects_to_fetch checkpoint_data checkpoint_file].
    rewrite Hp. split; [reflexivity|]. split; [apply covers_set, Hcov|].
    cbn [_load_checkpoint]. apply fill_missing_covered, covers_set, Hcov. }
  destruct (run_pipeline_rule w (fun _ _ => good) (fun _ _ => good) good good)
    with (st := st) as [H|H]; try (apply H); auto.
  repeat split; assumption.
Qed.

(** ** One page fetch *)

Lemma fetch_attempts_bounded w p s attempts : forall st,
  exists evs,
    trace (snd (fetch_attempts w attempts p s st)) = trace st ++ evs
    /\ (requests_in evs <= attempts)%nat
    /\ requests_made (snd (fetch_attempts w attempts p s st))
       = (requests_made st + requests_in evs)%nat
    /\ Forall (fetch_event p s) evs.
Proof.
  induction attempts as [|n IH]; intros st.
  - exists []. cbn. rewrite app_nil_r, Nat.add_0_r. repeat split; [lia|constructor].
  - cbn [fetch_attempts]. unfold send_request. set (st1 := log_event _ _).
    assert (Hnext : forall ms, ms = 15000 \/ ms = 60000 -> exists evs,
              trace (snd (fetch_attempts w n p s (sleep ms st1))) = trace st ++ evs
              /\ (requests_in evs <= S n)%nat
              /\ requests_made (snd (fetch_attempts w n p s (sleep ms st1)))
                 = (requests_made st + requests_in evs)%nat
              /\ Forall (fetch_event p s) evs).
    { intros ms Hms. destruct (IH (sleep ms st1)) as (evs & Ht & Hr & Hm & Hf).
      exists (EvRequest p s :: EvSleep ms :: evs). rewrite Ht, Hm.
      unfold sleep, st1. rewrite !trace_log_event. unfold log_event.
      cbn [trace requests_in requests_made].
      rewrite <- !app_assoc.
      split; [reflexivity|]. split; [lia|]. split; [lia|].
      constructor; [left; reflexivity|]. constructor; [|exact Hf].
      right. destruct Hms as [->| ->]; [left|right]; reflexivity. }
    assert (Hstop : forall r : option page, exists evs,
              trace (snd (r, st1)) = trace st ++ evs
              /\ (requests_in evs <= S n)%nat
              /\ requests_made (snd (r, st1)) = (requests_made st + requests_in evs)%nat
              /\ Forall (fetch_event p s) evs).
    { intros r. exists [EvRequest p s]. cbn [snd requests_in].
      split; [reflexivity|]. split; [lia|].
      split; [unfold st1, log_event; cbn [snd requests_made]; lia|].
      constructor; [left; reflexivity|constructor]. }
    destruct (http_get w (requests_made st) p s) as [code body|].
    + destruct (code =? 429); [apply Hnext; right; reflexivity|].
      destruct (500 <=? code); [apply Hnext; left; reflexivity|].
      destruct (negb (response_ok code)); apply Hstop.
    + apply Hnext. left. reflexivity.
Qed.

Lemma fetch_attempts_after_failures w p s k n : forall st,
  (forall j, (j < k)%nat -> transient (http_get w (requests_made st + j) p s) = true) ->
  exists evs st_k,
    fetch_attempts w (k + n) p s st = fetch_attempts w n p s st_k
    /\ trace st_k = trace st ++ evs
    /\ requests_made st_k = (requests_made st + k)%nat
    /\ requests_in evs = k
    /\ Z.of_nat k * 15000 <= slept evs.
Proof.
  induction k as [|k IH]; intros st H.
  - exists [], st. rewrite app_nil_r, Nat.add_0_r. repeat split. cbn. lia.
  - cbn [Nat.add fetch_attempts]. unfold send_request.
    pose proof (H O ltac:(lia)) as H0. rewrite Nat.add_0_r in H0.
    set (st1 := log_event _ _).
    assert (Hnext : forall ms, 15000 <= ms -> exists evs st_k,
              fetch_attempts w (k + n) p s (sleep ms st1) = fetch_attempts w n p s st_k
              /\ trace st_k = trace st ++ evs
              /\ requests_made st_k = (requests_made st + S k)%nat
              /\ requests_in evs = S k
              /\ Z.of_nat (S k) * 15000 <= slept evs).
    { intros ms Hms. destruct (IH (sleep ms st1)) as (evs & st_k & E & Ht & Hm & Hr & Hs).
      { intros j Hj. specialize (H (S j) ltac:(lia)).
        rewrite Nat.add_succ_r in H. exact H. }
      exists (EvRequest p s :: EvSleep ms :: evs), st_k. split; [exact E|].
      rewrite Ht, Hm. unfold sleep, st1. rewrite !trace_log_event. unfold log_event.
      cbn [trace requests_in requests_made slept]. rewrite <- !app_assoc.
      split; [reflexivity|]. split; [lia|]. split; [lia|lia]. }
    destruct (http_get w (requests_made st) p s) as [code body|]; cbn [transient] in H0.
    + destruct (code =? 429); [apply Hnext; lia|].
      cbn [orb] in H0. rewrite H0. apply Hnext; lia.
    + apply Hnext; lia.
Qed.

(** ** The loop ends, and in one way *)

Lemma while_exec_functional w p cur tot st r1 r2 :
  while_exec w p cur tot st r1 -> while_exec w p cur tot st r2 -> r1 = r2.
Proof.
  intros H1. revert r2.
  induction H1 as [cur tot st st' E|cur tot st st' E|cur tot st cur' tot' st' r E _ IH];
    intros r2 H2; inversion H2; subst; try congruence.
  apply IH. congruence.
Qed.

Lemma appended_snoc tr e :
  appended (tr ++ [e])
  = appended tr ++ match e with EvAppend written _ => written | _ => [] end.
Proof.
  induction tr as [|e' tr IH]; cbn [app appended].
  - destruct e; cbn; rewrite ?app_nil_r; reflexivity.
  - rewrite IH. destruct e'; try reflexivity. rewrite app_assoc. reflexivity.
Qed.

Lemma output_run_pipeline w out st :
  output_file st = out ++ appended (trace st) ->
  output_file (run_pipeline w st) = out ++ appended (trace (run_pipeline w st)).
Proof.
  intros H.
  pose (good := fun st' : scraper => output_file st' = out ++ appended (trace st')).
  assert (Hlog : forall e st', good st' ->
            match e with EvAppend _ _ => False | _ => True end -> good (log_event e st')).
  { intros e st' Hg He. unfold good. rewrite trace_log_event, appended_snoc.
    destruct e; try destruct He; rewrite app_nil_r; exact Hg. }
  assert (Happ : forall l st', good st' ->
            good (snd (_save_issues_to_jsonl w l st'))).
  { intros l st' Hg. unfold good, _save_issues_to_jsonl. cbn [snd].
    rewrite trace_log_event, appended_snoc. unfold log_event.
    cbn [output_file trace]. rewrite Hg, app_assoc. reflexivity. }
  destruct (run_pipeline_rule w (fun _ _ => good) (fun _ _ => good) good good)
    with (st := st) as [H'|H']; try exact H'; try exact H; auto.
  - intros p cur st' Hg. unfold send_request. cbn [snd].
    apply (Hlog (EvRequest p cur)
             {| projects_to_fetch := projects_to_fetch st';
                checkpoint_data := checkpoint_data st';
                checkpoint_file := checkpoint_file st';
                output_file := output_file st';
                requests_made := S (requests_made st');
                appends_made := appends_made st';
                trace := trace st' |}); [exact Hg|exact I].
  - intros p cur ms st' Hg. apply Hlog; [exact Hg|exact I].
  - intros p cur n st' _ Hg. unfold commit, _save_checkpoint.
    apply (Hlog (EvSave _)); [exact Hg|exact I].
  - intros p cur st' Hg. unfold commit, _save_checkpoint.
    apply (Hlog (EvSave _)); [exact Hg|exact I].
Qed.

(** ** A restart after a failed append *)

Lemma reload_main w projects file out :
  reload (main w projects file out) = checkpoint_data (main w projects file out).
Proof.
  unfold main. apply reload_run_pipeline.
  - apply covers_load.
  - unfold reload, init. cbn [projects_to_fetch checkpoint_file checkpoint_data].
    destruct file as [[d|]|]; reflexivity.
Qed.

Lemma output_main w projects file out :
  output_file (main w projects file out)
  = out ++ appended (trace (main w projects file out)).
Proof.
  unfold main. apply output_run_pipeline. cbn. rewrite app_nil_r. reflexivity.
Qed.

Lemma intact_log e st :
  intact st -> failed_append e = false -> intact (log_event e st).
Proof.
  unfold intact. rewrite trace_log_event. intros H He.
  apply Forall_app. split; [exact H|]. constructor; [exact He|constructor].
Qed.

Lemma intact_commit p m st : intact st -> intact (commit p m st).
Proof.
  intros H. unfold commit, _save_checkpoint.
  apply (intact_log (EvSave _)); [exact H|reflexivity].
Qed.

Lemma run_pipeline_interrupted w st :
  intact st -> intact (run_pipeline w st) \/ interrupted (run_pipeline w st).
Proof.
  intros H.
  apply (run_pipeline_pages w resumable requested resumable (fun _ _ _ => intact)
           intact interrupted); try exact H.
  - intros p cur st' Hi E. split; assumption.
  - intros p cur st' [Hi _]. exact Hi.
  - intros p cur st' [Hi E]. unfold send_request. cbn [snd]. split; [split|].
    + apply (intact_log (EvRequest p cur)
               {| projects_to_fetch := projects_to_fetch st';
                  checkpoint_data := checkpoint_data st';
                  checkpoint_file := checkpoint_file st';
                  output_file := output_file st';
                  requests_made := S (requests_made st');
                  appends_made := appends_made st';
                  trace := trace st' |}); [exact Hi|reflexivity].
    + exact E.
    + rewrite trace_log_event, last_request_snoc. reflexivity.
  - intros p cur ms st' [[Hi E] _]. split; [|exact E].
    apply intact_log; [exact Hi|reflexivity].
  - intros p cur st' [[Hi _] _]. exact Hi.
  - intros p cur l st' [[Hi _] _] Hfate. unfold _save_issues_to_jsonl.
    rewrite Hfate. cbn [snd]. apply (intact_log (EvAppend l true)); [exact Hi|reflexivity].
  - intros p cur l k st' [[Hi E] Hr] Hfate. unfold _save_issues_to_jsonl.
    rewrite Hfate. cbn [snd]. exists (trace st'), (firstn k l), p, cur.
    split; [reflexivity|]. split; [exact Hi|]. split; [exact Hr|exact E].
  - intros p cur l st' Hi. split; [apply intact_commit, Hi|].
    unfold commit, _save_checkpoint, set_marker, log_event. cbn [checkpoint_data].
    rewrite marker_of_set, String.eqb_refl. reflexivity.
  - intros p cur st' [[Hi _] _]. apply intact_commit, Hi.
  - intros p cur st' [Hi _]. apply intact_commit, Hi.
  - intros p cur st' [Hi E]. split; [|exact E].
    apply intact_log; [exact Hi|reflexivity].
Qed.

End ScraperMore.

(** * The scraper: further properties *)

Section ScraperExtras.
Import Scraper ScraperFacts ScraperMore.

(** X1: after [_load_checkpoint], every configured collection has an entry:
    the one the file holds for it, or offset 0 when the file is missing, does
    not decode, or lacks the collection; the entries of other collections
    are those of the file. *)
Theorem load_checkpoint_entries (projects : list string)
    (file : option (option checkpoint)) (p : string) :
  (In p projects ->
   dict_lookup p (_load_checkpoint projects file)
   = Some (match file with Some (Some d) => marker_of p d | _ => Offset 0 end))
  /\ (~ In p projects ->
      dict_lookup p (_load_checkpoint projects file)
      = match file with Some (Some d) => dict_lookup p d | _ => None end).
Proof.
  split; intros H.
  - destruct file as [[d|]|]; cbn [_load_checkpoint]; unfold fresh_checkpoint;
      rewrite (dict_lookup_fill_missing_in p projects _ H); reflexivity.
  - destruct file as [[d|]|]; cbn [_load_checkpoint]; unfold fresh_checkpoint;
      rewrite (dict_lookup_fill_missing_absent p projects _ H); reflexivity.
Qed.

Lemma load_checkpoint_entries_witness :
  dict_lookup "SPARK"
    (_load_checkpoint ["SPARK"; "KAFKA"]
       (Some (Some [("KAFKA", Offset 7); ("HIVE", COMPLETED)])))
  = Some (Offset 0)
  /\ dict_lookup "HIVE"
       (_load_checkpoint ["SPARK"; "KAFKA"]
          (Some (Some [("KAFKA", Offset 7); ("HIVE", COMPLETED)])))
     = Some COMPLETED.
Proof.
  destruct (load_checkpoint_entries ["SPARK"; "KAFKA"]
              (Some (Some [("KAFKA", Offset 7); ("HIVE", COMPLETED)])) "SPARK") as [H1 _].
  destruct (load_checkpoint_entries ["SPARK"; "KAFKA"]
              (Some (Some [("KAFKA", Offset 7); ("HIVE", COMPLETED)])) "HIVE") as [_ H2].
  split.
  - apply H1. cbn [In]. tauto.
  - apply H2. cbn [In]. intros [H|[H|[]]]; discriminate H.
Defined.

(** X2: whatever happened during a run, loading the checkpoint file as the
    run left it gives exactly the mapping the run ended with: a restart
    resumes from the state the previous run stopped in. *)
Theorem restart_loads_final_mapping (w : world) (projects : list string)
    (file : option (option checkpoint)) (out : list json) :
  reload (main w projects file out) = checkpoint_data (main w projects file out).
Proof.
  apply reload_main.
Qed.

(** X3: one call of [_fetch_jira_page] sends at most [MAX_RETRIES] requests,
    all for the page asked for, sleeps 15 or 60 seconds between them and
    does nothing else: the mapping, the checkpoint file and the output file
    are as before. *)
Theorem fetch_is_bounded_and_frames (w : world) (project_key : string) (start_at : Z)
    (st : scraper) :
  exists evs,
    trace (snd (_fetch_jira_page w project_key start_at st)) = trace st ++ evs
    /\ (requests_in evs <= MAX_RETRIES)%nat
    /\ Forall (fetch_event project_key start_at) evs
    /\ checkpoint_data (snd (_fetch_jira_page w project_key start_at st))
       = checkpoint_data st
    /\ checkpoint_file (snd (_fetch_jira_page w project_key start_at st))
       = checkpoint_file st
    /\ output_file (snd (_fetch_jira_page w project_key start_at st)) = output_file st.
Proof.
  unfold _fetch_jira_page.
  destruct (fetch_attempts_bounded w project_key start_at MAX_RETRIES st)
    as (evs & Ht & Hr & _ & Hf).
  exists evs. split; [exact Ht|]. split; [exact Hr|]. split; [exact Hf|].
  apply fetch_attempts_frame.
Qed.

(** X4: when the first [k] attempts of a page fetch, [k] below
    [MAX_RETRIES], meet transient failures and the next one is answered with
    a status below 400, the fetch returns that answer's page after exactly
    [k + 1] requests, having slept at least 15 seconds per failure. *)
Theorem fetch_succeeds_after_failures (w : world) (project_key : string) (start_at : Z)
    (st : scraper) (k : nat) (status_code : Z) (body : page) :
  (k < MAX_RETRIES)%nat ->
  (forall j, (j < k)%nat ->
     transient (http_get w (requests_made st + j) project_key start_at) = true) ->
  http_get w (requests_made st + k) project_key start_at = Response status_code body ->
  status_code < 400 ->
  exists evs st',
    _fetch_jira_page w project_key start_at st = (Some body, st')
    /\ trace st' = trace st ++ evs
    /\ requests_in evs = S k
    /\ Z.of_nat k * 15000 <= slept evs.
Proof.
  intros Hk Hfail Hresp Hcode. unfold _fetch_jira_page.
  replace MAX_RETRIES with (k + S (MAX_RETRIES - S k))%nat by lia.
  destruct (fetch_attempts_after_failures w project_key start_at k
              (S (MAX_RETRIES - S k)) st Hfail)
    as (evs & st_k & -> & Ht & Hm & Hr & Hs).
  cbn [fetch_attempts]. unfold send_request. rewrite Hm, Hresp.
  replace (status_code =? 429) with false by (symmetry; apply Z.eqb_neq; lia).
  replace (500 <=? status_code) with false by (symmetry; apply Z.leb_gt; lia).
  replace (response_ok status_code) with true
    by (unfold response_ok; replace (400 <=? status_code) with false
          by (symmetry; apply Z.leb_gt; lia); reflexivity).
  cbn [negb]. eexists (evs ++ [EvRequest project_key start_at]), _.
  split; [reflexivity|]. rewrite trace_log_event. cbn [trace]. rewrite Ht, app_assoc.
  split; [reflexivity|]. split.
  - clear -Hr. revert k Hr. induction evs as [|e evs IH]; intros k Hr; cbn in *;
      [subst; reflexivity|]. destruct e; cbn; try (apply IH; exact Hr).
    destruct k; [discriminate|]. f_equal. apply IH. congruence.
  - assert (H : forall l, slept (l ++ [EvRequest project_key start_at]) = slept l).
    { clear. induction l as [|e l IH]; [reflexivity|].
      destruct e; cbn; rewrite ?IH; reflexivity. }
    rewrite H. exact Hs.
Qed.

Lemma fetch_succeeds_after_failures_witness :
  exists evs st',
    _fetch_jira_page flaky_world "SPARK" 0 (init ["SPARK"] None [])
    = (Some {| total := Some 3; issues := Some [issue_number 0; issue_number 1] |}, st')
    /\ trace st' = trace (init ["SPARK"] None []) ++ evs
    /\ requests_in evs = 3%nat
    /\ Z.of_nat 2 * 15000 <= slept evs.
Proof.
  apply (fetch_succeeds_after_failures flaky_world "SPARK" 0 (init ["SPARK"] None [])
           2 200).
  - unfold MAX_RETRIES. lia.
  - intros [|[|j]] Hj; [reflexivity|reflexivity|lia].
  - reflexivity.
  - lia.
Defined.

(** X5: a client error (a status from 400 to 499 other than 429) is not
    retried: when it answers the attempt that follows [k] transient
    failures, the fetch gives up at once, after exactly [k + 1] requests. *)
Theorem client_error_is_not_retried (w : world) (project_key : string) (start_at : Z)
    (st : scraper) (k : nat) (status_code : Z) (body : page) :
  (k < MAX_RETRIES)%nat ->
  (forall j, (j < k)%nat ->
     transient (http_get w (requests_made st + j) project_key start_at) = true) ->
  http_get w (requests_made st + k) project_key start_at = Response status_code body ->
  400 <= status_code < 500 ->
  status_code <> 429 ->
  exists evs st',
    _fetch_jira_page w project_key start_at st = (None, st')
    /\ trace st' = trace st ++ evs ++ [EvRequest project_key start_at]
    /\ requests_in evs = k.
Proof.
  intros Hk Hfail Hresp Hcode Hne. unfold _fetch_jira_page.
  replace MAX_RETRIES with (k + S (MAX_RETRIES - S k))%nat by lia.
  destruct (fetch_attempts_after_failures w project_key start_at k
              (S (MAX_RETRIES - S k)) st Hfail)
    as (evs & st_k & -> & Ht & Hm & Hr & Hs).
  cbn [fetch_attempts]. unfold send_request. rewrite Hm, Hresp.
  replace (status_code =? 429) with false by (symmetry; apply Z.eqb_neq; lia).
  replace (500 <=? status_code) with false by (symmetry; apply Z.leb_gt; lia).
  replace (response_ok status_code) with false
    by (unfold response_ok; replace (400 <=? status_code) with true
          by (symmetry; apply Z.leb_le; lia);
        replace (status_code <? 600) with true by (symmetry; apply Z.ltb_lt; lia);
        reflexivity).
  cbn [negb]. eexists evs, _.
  split; [reflexivity|]. rewrite trace_log_event. cbn [trace]. rewrite Ht, app_assoc.
  split; [reflexivity|exact Hr].
Qed.

Lemma client_error_is_not_retried_witness :
  exists evs st',
    _fetch_jira_page lost_world "SPARK" 0 (init ["SPARK"] None []) = (None, st')
    /\ trace st' = trace (init ["SPARK"] None []) ++ evs ++ [EvRequest "SPARK" 0]
    /\ requests_in evs = 2%nat.
Proof.
  apply (client_error_is_not_retried lost_world "SPARK" 0 (init ["SPARK"] None [])
           2 404 {| total := None; issues := None |}).
  - unfold MAX_RETRIES. lia.
  - intros [|[|j]] Hj; [reflexivity|reflexivity|lia].
  - reflexivity.
  - lia.
  - discriminate.
Defined.

(** X6: when the first page fetch of a collection fails, the run leaves the
    collection where it is (the mapping and the checkpoint file are
    unchanged) and goes on with the next collection. *)
Theorem fetch_failure_skips_the_collection (w : world) (project : string)
    (rest : list string) (current_index : Z) (st st1 : scraper) :
  marker_of project (checkpoint_data st) = Offset current_index ->
  _fetch_jira_page w project current_index st = (None, st1) ->
  for_projects w (project :: rest) st = for_projects w rest st1
  /\ checkpoint_data st1 = checkpoint_data st
  /\ checkpoint_file st1 = checkpoint_file st.
Proof.
  intros Hm Hfetch.
  assert (Hbody : loop_body w project current_index (-1) st = Break st1).
  { unfold loop_body. rewrite Hfetch. reflexivity. }
  assert (Hloop : while_true w project current_index st = Broke st1).
  { unfold while_true. destruct (Z.to_nat _); cbn [while_first]; rewrite Hbody; reflexivity. }
  split.
  - cbn [for_projects]. unfold marker_of in Hm. rewrite Hm, Hloop. reflexivity.
  - pose proof (fetch_attempts_frame w MAX_RETRIES project current_index st) as Hf.
    unfold _fetch_jira_page in Hfetch. rewrite Hfetch in Hf. cbn [snd] in Hf. tauto.
Qed.

Lemma fetch_failure_skips_the_collection_witness :
  for_projects down_world ["SPARK"; "KAFKA"] (init ["SPARK"; "KAFKA"] None [])
  = for_projects down_world ["KAFKA"]
      (snd (_fetch_jira_page down_world "SPARK" 0 (init ["SPARK"; "KAFKA"] None [])))
  /\ checkpoint_data
       (snd (_fetch_jira_page down_world "SPARK" 0 (init ["SPARK"; "KAFKA"] None [])))
     = [("SPARK", Offset 0); ("KAFKA", Offset 0)].
Proof.
  destruct (fetch_failure_skips_the_collection down_world "SPARK" ["KAFKA"] 0
              (init ["SPARK"; "KAFKA"] None [])
              (snd (_fetch_jira_page down_world "SPARK" 0 (init ["SPARK"; "KAFKA"] None []))))
    as (H1 & H2 & _); [reflexivity|reflexivity|].
  split; [exact H1|exact H2].
Defined.

(** X7: when the first page fetched for a collection holds no records
    although its total is not zero, the collection is finished: its marker
    becomes COMPLETED in the checkpoint file, whether or not the offset has
    reached the total, and the run goes on with the next collection. *)
Theorem empty_page_completes_the_collection (w : world) (project : string)
    (rest : list string) (current_index : Z) (st st1 : scraper) (data : page) :
  marker_of project (checkpoint_data st) = Offset current_index ->
  _fetch_jira_page w project current_index st = (Some data, st1) ->
  default 0 (total data) <> 0 ->
  default [] (issues data) = [] ->
  for_projects w (project :: rest) st
  = for_projects w rest (commit project COMPLETED st1)
  /\ persisted_marker project (checkpoint_file (commit project COMPLETED st1)) = COMPLETED.
Proof.
  intros Hm Hfetch Htotal Hissues.
  assert (Hbody : loop_body w project current_index (-1) st
                  = Break (commit project COMPLETED st1)).
  { unfold loop_body. rewrite Hfetch. cbv zeta. change (-1 =? -1) with true. cbv iota.
    apply Z.eqb_neq in Htotal. rewrite Htotal, Hissues. reflexivity. }
  assert (Hloop : while_true w project current_index st
                  = Broke (commit project COMPLETED st1)).
  { unfold while_true. destruct (Z.to_nat _); cbn [while_first]; rewrite Hbody; reflexivity. }
  split.
  - cbn [for_projects]. unfold marker_of in Hm. rewrite Hm, Hloop. reflexivity.
  - unfold commit, _save_checkpoint, log_event, set_marker.
    cbn [checkpoint_file checkpoint_data persisted_marker].
    rewrite marker_of_set, String.eqb_refl. reflexivity.
Qed.

Lemma empty_page_completes_the_collection_witness :
  persisted_marker "SPARK"
    (checkpoint_file
       (commit "SPARK" COMPLETED
          (snd (_fetch_jira_page hollow_world "SPARK" 0 (init ["SPARK"] None [])))))
  = COMPLETED.
Proof.
  destruct (empty_page_completes_the_collection hollow_world "SPARK" [] 0
              (init ["SPARK"] None [])
              (snd (_fetch_jira_page hollow_world "SPARK" 0 (init ["SPARK"] None [])))
              {| total := Some 3; issues := Some [] |})
    as [_ H]; [reflexivity|reflexivity|discriminate|reflexivity|].
  exact H.
Defined.


(** X9: a run over collections that are all COMPLETED does nothing: no
    request, no write, the state is unchanged. *)
Theorem completed_run_does_nothing (w : world) (st : scraper) :
  (forall p, In p (projects_to_fetch st) -> marker_of p (checkpoint_data st) = COMPLETED) ->
  run_pipeline w st = st.
Proof.
  unfold run_pipeline. generalize (projects_to_fetch st) as projects.
  induction projects as [|p rest IH]; intros H; cbn [for_projects]; [reflexivity|].
  pose proof (H p (or_introl eq_refl)) as Hp. unfold marker_of in Hp. rewrite Hp.
  apply IH. intros q Hq. apply H. right. exact Hq.
Qed.

Lemma completed_run_does_nothing_witness :
  run_pipeline small_world
    (init ["SPARK"; "KAFKA"] (Some (Some [("SPARK", COMPLETED); ("KAFKA", COMPLETED)])) [])
  = init ["SPARK"; "KAFKA"] (Some (Some [("SPARK", COMPLETED); ("KAFKA", COMPLETED)])) [].
Proof.
  apply (completed_run_does_nothing small_world).
  intros p [<-|[<-|[]]]; reflexivity.
Defined.

(** X10: every page request of a run asks for the page at the offset the
    checkpoint file holds for the collection at that moment (offset 0 when
    the file is missing or lacks the collection). *)
Theorem requests_start_at_the_checkpoint (w : world) (projects : list string)
    (file : option (option checkpoint)) (out : list json)
    (pre : list event) (p : string) (s : Z) (post : list event) :
  trace (main w projects file out) = pre ++ EvRequest p s :: post ->
  persisted_marker p (file_after (checkpoint_file (init projects file out)) pre)
  = Offset s.
Proof.
  intros E. destruct (main_paged w projects file out) as [(Hr & _ & _) _].
  rewrite <- (Hr pre p s post E). symmetry. apply replay_agrees, agrees_init.
Qed.

Lemma requests_start_at_the_checkpoint_witness :
  persisted_marker "SPARK"
    (file_after None
       [EvRequest "SPARK" 0; EvAppend [issue_number 0; issue_number 1] true;
        EvSave [("SPARK", Offset 2)]; EvSleep 300])
  = Offset 2.
Proof.
  apply (requests_start_at_the_checkpoint small_world ["SPARK"] None []
           [EvRequest "SPARK" 0; EvAppend [issue_number 0; issue_number 1] true;
            EvSave [("SPARK", Offset 2)]; EvSleep 300]
           "SPARK" 2
           [EvAppend [issue_number 2] true; EvSave [("SPARK", Offset 3)];
            EvSave [("SPARK", COMPLETED)]]).
  reflexivity.
Defined.

(** X11: every snapshot a run saves is the snapshot in force with one entry
    replaced, that of the collection last requested: right after a
    successful append the entry becomes the offset of that request plus the
    number of records appended, and otherwise it becomes COMPLETED. *)
Theorem every_save_is_an_advance_or_a_completion (w : world) (projects : list string)
    (file : option (option checkpoint)) (out : list json)
    (pre : list event) (c : checkpoint) (post : list event) :
  trace (main w projects file out) = pre ++ EvSave c :: post ->
  exists p s,
    last_request pre = Some (p, s)
    /\ c = dict_set p
             (match last_append pre with
              | Some l => Offset (s + Z.of_nat (length l))
              | None => COMPLETED
              end)
             (last_saved (checkpoint_data (init projects file out)) pre).
Proof.
  intros E. destruct (main_paged w projects file out) as [(_ & Hs & _) _].
  exact (Hs pre c post E).
Qed.

Lemma every_save_is_an_advance_or_a_completion_witness :
  exists p s,
    last_request [EvRequest "SPARK" 0; EvAppend [issue_number 0; issue_number 1] true]
    = Some (p, s)
    /\ [("SPARK", Offset 2)]
       = dict_set p
           (match last_append
                    [EvRequest "SPARK" 0; EvAppend [issue_number 0; issue_number 1] true]
            with
            | Some l => Offset (s + Z.of_nat (length l))
            | None => COMPLETED
            end)
           (last_saved (checkpoint_data (init ["SPARK"] None []))
              [EvRequest "SPARK" 0; EvAppend [issue_number 0; issue_number 1] true]).
Proof.
  apply (every_save_is_an_advance_or_a_completion small_world ["SPARK"] None []
           [EvRequest "SPARK" 0; EvAppend [issue_number 0; issue_number 1] true]
           [("SPARK", Offset 2)]
           [EvSleep 300; EvRequest "SPARK" 2; EvAppend [issue_number 2] true;
            EvSave [("SPARK", Offset 3)]; EvSave [("SPARK", COMPLETED)]]).
  reflexivity.
Defined.

(** X12: a page that was written to the raw record store is followed at
    once by a save, and that save moves the marker of the collection the
    page was requested for to the offset of the request plus the number of
    records written. *)
Theorem written_page_is_checkpointed (w : world) (projects : list string)
    (file : option (option checkpoint)) (out : list json)
    (pre : list event) (l : list json) (post : list event) :
  trace (main w projects file out) = pre ++ EvAppend l true :: post ->
  exists p s post',
    last_request pre = Some (p, s)
    /\ post = EvSave (dict_set p (Offset (s + Z.of_nat (length l)))
                        (last_saved (checkpoint_data (init projects file out)) pre))
              :: post'.
Proof.
  intros E. destruct (main_paged w projects file out) as [(_ & Hs & _) Hset].
  destruct (Hset pre l post E) as (c & post' & ->).
  destruct (Hs (pre ++ [EvAppend l true]) c post') as (p & s & Hr & Hc).
  { rewrite E, <- app_assoc. reflexivity. }
  rewrite last_request_snoc in Hr. rewrite last_append_snoc, last_saved_snoc in Hc.
  exists p, s, post'. split; [exact Hr|]. rewrite Hc. reflexivity.
Qed.

Lemma written_page_is_checkpointed_witness :
  exists p s post',
    last_request [EvRequest "SPARK" 0] = Some (p, s)
    /\ [EvSave [("SPARK", Offset 2)]; EvSleep 300; EvRequest "SPARK" 2;
        EvAppend [issue_number 2] true; EvSave [("SPARK", Offset 3)];
        EvSave [("SPARK", COMPLETED)]]
       = EvSave (dict_set p (Offset (s + Z.of_nat (length [issue_number 0; issue_number 1])))
                   (last_saved (checkpoint_data (init ["SPARK"] None []))
                      [EvRequest "SPARK" 0]))
         :: post'.
Proof.
  apply (written_page_is_checkpointed small_world ["SPARK"] None []
           [EvRequest "SPARK" 0] [issue_number 0; issue_number 1]
           [EvSave [("SPARK", Offset 2)]; EvSleep 300; EvRequest "SPARK" 2;
            EvAppend [issue_number 2] true; EvSave [("SPARK", Offset 3)];
            EvSave [("SPARK", COMPLETED)]]).
  reflexivity.
Defined.

(** X13: the raw record store only grows: after a run it holds what it held
    before, followed by the records of the run's appends, in order
    (including the part of a page that was written before a failure). *)
Theorem output_file_only_grows (w : world) (projects : list string)
    (file : option (option checkpoint)) (out : list json) :
  output_file (main w projects file out)
  = out ++ appended (trace (main w projects file out)).
Proof.
  apply output_main.
Qed.

(** X14: when an append fails, the records it wrote before failing stay in
    the raw record store, while the checkpoint a restart would load still
    holds, for the collection of the page, the offset the page was requested
    at. *)
Theorem failed_append_keeps_the_partial_page (w : world) (projects : list string)
    (file : option (option checkpoint)) (out : list json)
    (pre : list event) (written : list json) (post : list event) :
  trace (main w projects file out) = pre ++ EvAppend written false :: post ->
  exists p s,
    last_request pre = Some (p, s)
    /\ marker_of p (reload (main w projects file out)) = Offset s
    /\ output_file (main w projects file out) = out ++ appended pre ++ written.
Proof.
  intros E. rewrite reload_main, output_main.
  destruct (run_pipeline_interrupted w (init projects file out)) as [H|H].
  - constructor.
  - unfold main in E. unfold intact in H. rewrite E in H.
    apply Forall_app in H as [_ H]. inversion H; discriminate.
  - destruct H as (tr & l & p & s & Ht & Hok & Hr & Hm). fold (main w projects file out) in *.
    rewrite E in Ht. destruct (failed_append_last _ _ _ _ _ Ht eq_refl Hok) as [-> <-].
    exists p, s. split; [exact Hr|]. split; [exact Hm|].
    rewrite E, appended_snoc. reflexivity.
Qed.

Lemma failed_append_keeps_the_partial_page_witness :
  exists p s,
    last_request [EvRequest "SPARK" 0] = Some (p, s)
    /\ marker_of p (reload (main full_disk_world ["SPARK"; "KAFKA"] None [])) = Offset s
    /\ output_file (main full_disk_world ["SPARK"; "KAFKA"] None [])
       = [] ++ appended [EvRequest "SPARK" 0] ++ [issue_number 0].
Proof.
  apply (failed_append_keeps_the_partial_page full_disk_world ["SPARK"; "KAFKA"] None []
           [EvRequest "SPARK" 0] [issue_number 0] []).
  reflexivity.
Defined.

End ScraperExtras.

(** * The scraper against a server that behaves *)

Module ScraperArchive.
Import Scraper ScraperFacts ScraperMore.

Section Archive.
Variable data : string -> list json.
Variable size : nat.
Hypothesis size_pos : (0 < size)%nat.

Lemma fetch_archive p cur st :
  _fetch_jira_page (archive data size) p cur st
  = (Some {| total := Some (Z.of_nat (length (data p)));
             issues := Some (firstn size (skipn (Z.to_nat cur) (data p))) |},
     snd (send_request (archive data size) p cur st)).
Proof. reflexivity. Qed.

Lemma marker_of_other q p m st :
  q <> p ->
  marker_of q (checkpoint_data (commit p m st)) = marker_of q (checkpoint_data st).
Proof.
  intros H. unfold commit, _save_checkpoint, set_marker, log_event.
  cbn [checkpoint_data]. rewrite marker_of_set.
  apply String.eqb_neq in H. rewrite H. reflexivity.
Qed.

Lemma marker_of_same p m st : marker_of p (checkpoint_data (commit p m st)) = m.
Proof.
  unfold commit, _save_checkpoint, set_marker, log_event.
  cbn [checkpoint_data]. rewrite marker_of_set, String.eqb_refl. reflexivity.
Qed.

Lemma skipn_page {A} (l : list A) n :
  skipn n l = firstn size (skipn n l) ++ skipn (n + length (firstn size (skipn n l))) l.
Proof.
  rewrite (Nat.add_comm n), <- skipn_skipn. set (t := skipn n l).
  destruct (Nat.le_ge_cases size (length t)) as [H|H].
  - rewrite length_firstn, Nat.min_l by exact H. symmetry. apply firstn_skipn.
  - rewrite (firstn_all2 (n := size)) by exact H.
    rewrite skipn_all, app_nil_r. reflexivity.
Qed.

Lemma loop_body_archive p cur tot st :
  data p <> [] ->
  tot = -1 \/ tot = Z.of_nat (length (data p)) ->
  loop_body (archive data size) p cur tot st
  = let st1 := snd (send_request (archive data size) p cur st) in
    match firstn size (skipn (Z.to_nat cur) (data p)) with
    | [] => Break (commit p COMPLETED st1)
    | i :: page =>
        let st2 := snd (_save_issues_to_jsonl (archive data size) (i :: page) st1) in
        let cur' := cur + Z.of_nat (length (i :: page)) in
        let st3 := commit p (Offset cur') st2 in
        if Z.of_nat (length (data p)) <=? cur'
        then Break (commit p COMPLETED st3)
        else Again cur' (Z.of_nat (length (data p))) (sleep 300 st3)
    end.
Proof.
  intros Hne Htot. unfold loop_body. rewrite fetch_archive.
  cbn [total issues default from_option id]. cbv zeta.
  replace (if tot =? -1 then Z.of_nat (length (data p)) else tot)
    with (Z.of_nat (length (data p)))
    by (destruct Htot as [->| ->]; [reflexivity|];
        destruct (Z.of_nat (length (data p)) =? -1); reflexivity).
  replace (Z.of_nat (length (data p)) =? 0) with false
    by (symmetry; apply Z.eqb_neq; destruct (data p); [congruence|cbn [length]; lia]).
  rewrite andb_false_r.
  destruct (firstn size (skipn (Z.to_nat cur) (data p))); reflexivity.
Qed.

Lemma loop_archive p k : forall cur tot st,
  data p <> [] ->
  0 <= cur ->
  (length (data p) - Z.to_nat cur <= k)%nat ->
  tot = -1 \/ tot = Z.of_nat (length (data p)) ->
  exists st',
    while_exec (archive data size) p cur tot st (Broke st')
    /\ collected data p cur st st'.
Proof.
  induction k as [|k IH]; intros cur tot st Hne Hcur Hk Htot;
    pose proof (loop_body_archive p cur tot st Hne Htot) as Hbody; cbv zeta in Hbody.
  - (* nothing is left: the page is empty *)
    rewrite skipn_all2, firstn_nil in Hbody by lia.
    eexists. split; [apply exec_break, Hbody|].
    split; [|split].
    + unfold commit, _save_checkpoint, set_marker, log_event, send_request.
      cbn [output_file snd]. rewrite skipn_all2 by lia. rewrite app_nil_r. reflexivity.
    + apply marker_of_same.
    + intros q Hq. rewrite marker_of_other by exact Hq. reflexivity.
  - destruct (firstn size (skipn (Z.to_nat cur) (data p))) as [|i page] eqn:Hpage.
    + eexists. split; [apply exec_break, Hbody|].
      assert (Hrest : skipn (Z.to_nat cur) (data p) = []).
      { destruct (skipn (Z.to_nat cur) (data p)) as [|x l] eqn:E; [reflexivity|].
        destruct size; [lia|discriminate Hpage]. }
      split; [|split].
      * unfold commit, _save_checkpoint, set_marker, log_event, send_request.
        cbn [output_file snd]. rewrite Hrest, app_nil_r. reflexivity.
      * apply marker_of_same.
      * intros q Hq. rewrite marker_of_other by exact Hq. reflexivity.
    + set (st1 := snd (send_request (archive data size) p cur st)) in *.
      set (st2 := snd (_save_issues_to_jsonl (archive data size) (i :: page) st1)) in *.
      set (cur' := cur + Z.of_nat (length (i :: page))) in *.
      set (st3 := commit p (Offset cur') st2) in *.
      assert (Hlen : (length (i :: page) <= length (data p) - Z.to_nat cur)%nat).
      { rewrite <- Hpage, length_firstn, length_skipn. lia. }
      assert (Hout : output_file st3 = output_file st ++ i :: page) by reflexivity.
      pose proof (skipn_page (data p) (Z.to_nat cur)) as Hsp. rewrite Hpage in Hsp.
      assert (Hcur' : Z.to_nat cur' = (Z.to_nat cur + length (i :: page))%nat)
        by (unfold cur'; lia).
      destruct (Z.of_nat (length (data p)) <=? cur') eqn:Hdone.
      * eexists. split; [apply exec_break, Hbody|].
        apply Z.leb_le in Hdone.
        split; [|split].
        -- change (output_file (commit p COMPLETED st3)) with (output_file st3).
           rewrite Hout, Hsp. rewrite (skipn_all2 (n := (Z.to_nat cur + _)%nat)) by lia.
           rewrite app_nil_r. reflexivity.
        -- apply marker_of_same.
        -- intros q Hq. rewrite marker_of_other by exact Hq. unfold st3.
           rewrite marker_of_other by exact Hq. reflexivity.
      * apply Z.leb_gt in Hdone.
        destruct (IH cur' (Z.of_nat (length (data p))) (sleep 300 st3))
          as (st' & Hexec & Ho & Hm & Hothers);
          [exact Hne|unfold cur'; lia| |right; reflexivity|].
        { rewrite Hcur'. cbn [length] in *. lia. }
        exists st'. split; [eapply exec_again; [exact Hbody|exact Hexec]|].
        split; [|split].
        -- rewrite Ho. change (output_file (sleep 300 st3)) with (output_file st3).
           rewrite Hout, Hsp, Hcur', <- app_assoc. reflexivity.
        -- exact Hm.
        -- intros q Hq. rewrite Hothers by exact Hq.
           change (checkpoint_data (sleep 300 st3)) with (checkpoint_data st3).
           unfold st3. rewrite marker_of_other by exact Hq. reflexivity.
Qed.

Lemma while_true_archive p cur st :
  data p <> [] ->
  0 <= cur ->
  exists st',
    while_true (archive data size) p cur st = Broke st' /\ collected data p cur st st'.
Proof.
  intros Hne Hcur.
  destruct (loop_archive p (length (data p)) cur (-1) st Hne Hcur)
    as (st' & Hexec & H); [lia|left; reflexivity|].
  exists st'. split; [|exact H].
  eapply while_exec_functional; [apply while_true_exec|exact Hexec].
Qed.

Lemma while_true_archive_empty p cur st :
  data p = [] ->
  exists st',
    while_true (archive data size) p cur st = Broke st'
    /\ output_file st' = output_file st
    /\ checkpoint_data st' = checkpoint_data st.
Proof.
  intros He. eexists. split.
  - eapply while_exec_functional; [apply while_true_exec|].
    apply exec_break. unfold loop_body. rewrite fetch_archive.
    cbn [total issues default from_option id]. rewrite He. reflexivity.
  - split; reflexivity.
Qed.

Lemma flat_map_same {A B} (f g : A -> list B) l :
  (forall x, In x l -> f x = g x) -> flat_map f l = flat_map g l.
Proof.
  induction l as [|x l IH]; intros H; cbn [flat_map]; [reflexivity|].
  rewrite (H x (or_introl eq_refl)), IH; [reflexivity|].
  intros y Hy. apply H. right. exact Hy.
Qed.

Lemma for_projects_archive projects : forall st,
  NoDup projects ->
  (forall p s, In p projects -> marker_of p (checkpoint_data st) = Offset s -> 0 <= s) ->
  output_file (for_projects (archive data size) projects st)
  = output_file st
    ++ flat_map (fun p => remaining data p (marker_of p (checkpoint_data st))) projects
  /\ (forall p, In p projects -> data p <> [] ->
        marker_of p (checkpoint_data (for_projects (archive data size) projects st))
        = COMPLETED)
  /\ (forall q, ~ In q projects ->
        marker_of q (checkpoint_data (for_projects (archive data size) projects st))
        = marker_of q (checkpoint_data st)).
Proof.
  induction projects as [|p rest IH]; intros st Hnd Hpos; cbn [flat_map].
  - cbn [for_projects]. rewrite app_nil_r. split; [reflexivity|]. split; [intros ? []|reflexivity].
  - apply NoDup_cons in Hnd as [Hp Hnd].
    assert (Hp' : ~ In p rest) by (intros H; apply Hp, list_elem_of_In, H).
    assert (Hstep : exists st1,
              for_projects (archive data size) (p :: rest) st
              = for_projects (archive data size) rest st1
              /\ output_file st1
                 = output_file st ++ remaining data p (marker_of p (checkpoint_data st))
              /\ (data p <> [] -> marker_of p (checkpoint_data st1) = COMPLETED)
              /\ (forall q, q <> p ->
                    marker_of q (checkpoint_data st1) = marker_of q (checkpoint_data st))).
    { cbn [for_projects]. fold (marker_of p (checkpoint_data st)).
      destruct (marker_of p (checkpoint_data st)) as [cur|] eqn:Em.
      - destruct (data p) as [|x l] eqn:Ed.
        + destruct (while_true_archive_empty p cur st Ed) as (st1 & -> & Ho & Hc).
          exists st1. split; [reflexivity|]. cbn [remaining]. rewrite Ed, skipn_nil, app_nil_r.
          split; [exact Ho|]. split; [congruence|]. intros q _. rewrite Hc. reflexivity.
        + destruct (while_true_archive p cur st) as (st1 & -> & Ho & Hm & Hothers).
          { rewrite Ed. discriminate. }
          { apply (Hpos p cur); [left; reflexivity|exact Em]. }
          exists st1. split; [reflexivity|]. cbn [remaining]. rewrite Ed in *.
          split; [exact Ho|]. split; [intros _; exact Hm|exact Hothers].
      - exists st. split; [reflexivity|]. cbn [remaining]. rewrite app_nil_r.
        split; [reflexivity|]. split; [intros _; exact Em|reflexivity]. }
    destruct Hstep as (st1 & -> & Ho & Hm & Hothers).
    destruct (IH st1 Hnd) as (H1 & H2 & H3).
    { intros q s Hq E. apply (Hpos q s); [right; exact Hq|].
      rewrite <- Hothers; [exact E|]. intros ->. exact (Hp' Hq). }
    split; [|split].
    + rewrite H1, Ho, <- app_assoc. f_equal. f_equal.
      apply flat_map_same. intros q Hq. rewrite Hothers; [reflexivity|].
      intros ->. exact (Hp' Hq).
    + intros q [<-|Hq] Hne.
      * rewrite H3 by exact Hp'. apply Hm, Hne.
      * apply H2; assumption.
    + intros q Hq. rewrite H3 by (intros H; apply Hq; right; exact H).
      apply Hothers. intros ->. apply Hq. left. reflexivity.
Qed.

End Archive.

End ScraperArchive.

(** * The scraper against a server that behaves: the whole run *)

Section ArchiveExtras.
Import Scraper ScraperFacts ScraperMore ScraperArchive.

(** X24: against a server that answers every request and serves the records
    of each collection in pages of a fixed size, and with appends that all
    succeed, a run appends to the raw record store exactly the records its
    checkpoint leaves to fetch, collection by collection in the configured
    order and each record once; and every configured collection that holds
    records ends COMPLETED. *)
Theorem run_against_archive_collects_the_rest (data : string -> list json) (size : nat)
    (projects : list string) (file : option (option checkpoint)) (out : list json) :
  (0 < size)%nat ->
  NoDup projects ->
  (forall p s, In p projects ->
     marker_of p (_load_checkpoint projects file) = Offset s -> 0 <= s) ->
  output_file (main (archive data size) projects file out)
  = out ++ flat_map (fun p => remaining data p
                                (marker_of p (_load_checkpoint projects file)))
             projects
  /\ forall p, In p projects -> data p <> [] ->
       marker_of p (checkpoint_data (main (archive data size) projects file out))
       = COMPLETED.
Proof.
  intros Hsize Hnd Hpos.
  destruct (for_projects_archive data size Hsize projects (init projects file out) Hnd Hpos)
    as (H1 & H2 & _).
  split; [exact H1|exact H2].
Qed.

Lemma run_against_archive_collects_the_rest_witness :
  output_file
    (main (archive (fun p => if String.eqb p "SPARK"
                             then [issue_number 0; issue_number 1; issue_number 2]
                             else [issue_number 7]) 2)
       ["SPARK"; "KAFKA"] (Some (Some [("SPARK", Offset 1)])) [])
  = [issue_number 1; issue_number 2; issue_number 7].
Proof.
  destruct (run_against_archive_collects_the_rest
              (fun p => if String.eqb p "SPARK"
                        then [issue_number 0; issue_number 1; issue_number 2]
                        else [issue_number 7]) 2
              ["SPARK"; "KAFKA"] (Some (Some [("SPARK", Offset 1)])) [])
    as [H _].
  - lia.
  - apply NoDup_cons. split; [|apply NoDup_singleton].
    intros H%list_elem_of_In. destruct H as [H|[]]. discriminate H.
  - intros p s [<-|[<-|[]]] H; injection H as <-; lia.
  - exact H.
Defined.

End ArchiveExtras.

(** * The scraper against a server that may fail but does not lie *)

Module ScraperConsistent.
Import Scraper ScraperFacts ScraperMore.

Lemma requesting_snoc c tr e :
  requesting c (tr ++ [e])
  = match e with EvRequest q _ => Some q | _ => requesting c tr end.
Proof. unfold requesting. rewrite fold_left_app. reflexivity. Qed.

Lemma fetched_from_snoc q tr e : forall c,
  fetched_from q c (tr ++ [e])
  = fetched_from q c tr
    ++ match e with
       | EvAppend written _ => if is_current q (requesting c tr) then written else []
       | _ => []
       end.
Proof.
  induction tr as [|e' tr IH]; intros c; cbn [app fetched_from].
  - destruct e; cbn [fetched_from requesting fold_left]; rewrite ?app_nil_r; reflexivity.
  - destruct e'; rewrite IH; try reflexivity. rewrite app_assoc. reflexivity.
Qed.

Lemma fetched_snoc q tr e :
  fetched q (tr ++ [e])
  = fetched q tr
    ++ match e with
       | EvAppend written _ => if is_current q (requesting None tr) then written else []
       | _ => []
       end.
Proof. apply fetched_from_snoc. Qed.

Lemma trace_commit p m st :
  trace (commit p m st) = trace st ++ [EvSave (dict_set p m (checkpoint_data st))].
Proof. reflexivity. Qed.

Lemma checkpoint_data_commit p m st :
  checkpoint_data (commit p m st) = dict_set p m (checkpoint_data st).
Proof. reflexivity. Qed.

(** ** Segments *)

Lemma firstn_add {A} (l : list A) m : forall n,
  firstn (m + n) l = firstn m l ++ firstn n (skipn m l).
Proof.
  revert l. induction m as [|m IH]; intros l n; [reflexivity|].
  destruct l as [|x l]; [cbn; rewrite firstn_nil; reflexivity|].
  cbn [Nat.add firstn skipn app]. rewrite IH. reflexivity.
Qed.

Lemma firstn_length_firstn {A} (l : list A) n :
  firstn (length (firstn n l)) l = firstn n l.
Proof.
  rewrite length_firstn. destruct (Nat.le_ge_cases n (length l)) as [H|H].
  - rewrite Nat.min_l by exact H. reflexivity.
  - rewrite Nat.min_r by exact H. rewrite !firstn_all2; [reflexivity|exact H|lia].
Qed.

Lemma segment_step (records : list json) size (a b : nat) :
  (a <= b)%nat ->
  firstn (b - a) (skipn a records) ++ firstn size (skipn b records)
  = firstn (b + length (firstn size (skipn b records)) - a) (skipn a records).
Proof.
  intros H.
  replace (b + length (firstn size (skipn b records)) - a)%nat
    with ((b - a) + length (firstn size (skipn b records)))%nat by lia.
  rewrite firstn_add, skipn_skipn.
  replace (b - a + a)%nat with b by lia.
  rewrite firstn_length_firstn. reflexivity.
Qed.

Lemma segment_done (records : list json) (a b : nat) :
  (a <= b)%nat -> skipn b records = [] ->
  firstn (b - a) (skipn a records) = skipn a records.
Proof.
  intros H Hb. apply firstn_all2. rewrite length_skipn.
  assert (Hl : (length records <= b)%nat).
  { rewrite <- (firstn_skipn b records), Hb, app_nil_r, length_firstn. lia. }
  lia.
Qed.

Section Consistent.
Variable data : string -> list json.
Variable size : nat.
Variable w : world.
Variable c0 : checkpoint.
Hypothesis size_pos : (0 < size)%nat.
Hypothesis honest : consistent data size w.

Lemma fetch_attempts_consistent attempts p cur : forall st body st1,
  fetch_attempts w attempts p cur st = (Some body, st1) ->
  body = archive_page data size p cur.
Proof.
  induction attempts as [|n IH]; intros st body st1; cbn [fetch_attempts];
    [discriminate|].
  unfold send_request.
  destruct (http_get w (requests_made st) p cur) as [code page|] eqn:E; [|apply IH].
  destruct (code =? 429) eqn:E1; [apply IH|].
  destruct (500 <=? code) eqn:E2; [apply IH|].
  destruct (negb (response_ok code)) eqn:E3; [discriminate|].
  intros [= <- _]. destruct honest as [Hget _]. apply (Hget _ _ _ _ _ E).
  unfold response_ok in E3. apply negb_false_iff, negb_true_iff, andb_false_iff in E3.
  apply Z.leb_gt in E2. destruct E3 as [E3|E3]; [apply Z.leb_gt in E3|apply Z.ltb_ge in E3];
    lia.
Qed.

Lemma collecting_log e st :
  collecting data c0 st ->
  match e with EvAppend _ _ => False | _ => True end ->
  collecting data c0 (log_event e st).
Proof.
  intros (Hf & Hle & Hpos) He. split; [|split; assumption].
  intros q. rewrite trace_log_event, fetched_snoc.
  destruct e; try destruct He; rewrite app_nil_r; apply Hf.
Qed.

Lemma collecting_completed p cur st :
  collecting data c0 st ->
  marker_of p (checkpoint_data st) = Offset cur ->
  skipn (Z.to_nat cur) (data p) = [] ->
  collecting data c0 (commit p COMPLETED st).
Proof.
  intros (Hf & Hle & Hpos) Hm Hrest. split; [|split; [|exact Hpos]].
  - intros q. rewrite trace_commit, checkpoint_data_commit, fetched_snoc, app_nil_r.
    rewrite marker_of_set, Hf. destruct (String.eqb q p) eqn:E; [|reflexivity].
    apply String.eqb_eq in E. subst q. specialize (Hle p). rewrite Hm in *.
    destruct (marker_of p c0) as [a|] eqn:Ea; [|reflexivity].
    cbn [segment marker_le] in *. specialize (Hpos p a Ea).
    apply segment_done; [lia|exact Hrest].
  - intros q. rewrite checkpoint_data_commit, marker_of_set.
    destruct (String.eqb q p); [|apply Hle]. destruct (marker_of q c0); exact I.
Qed.

Lemma collecting_advance p cur st :
  collecting data c0 st ->
  marker_of p (checkpoint_data st) = Offset cur ->
  0 <= cur ->
  requesting None (trace st) = Some p ->
  file_append w (appends_made st) = None ->
  collecting data c0
    (commit p (Offset (cur + Z.of_nat (length (firstn size (skipn (Z.to_nat cur) (data p))))))
       (snd (_save_issues_to_jsonl w (firstn size (skipn (Z.to_nat cur) (data p))) st))).
Proof.
  intros (Hf & Hle & Hpos) Hm Hcur Hreq Hfate. unfold _save_issues_to_jsonl.
  rewrite Hfate. cbn [snd]. split; [|split; [|exact Hpos]].
  - intros q. rewrite trace_commit, checkpoint_data_commit, fetched_snoc, app_nil_r.
    rewrite trace_log_event. cbn [trace checkpoint_data log_event].
    rewrite fetched_snoc, Hreq, marker_of_set, Hf. cbn [is_current].
    rewrite (String.eqb_sym p q).
    destruct (String.eqb q p) eqn:E; [|rewrite app_nil_r; reflexivity].
    apply String.eqb_eq in E. subst q. specialize (Hle p). rewrite Hm in *.
    destruct (marker_of p c0) as [a|] eqn:Ea; [|destruct Hle].
    cbn [segment marker_le] in *. specialize (Hpos p a Ea).
    rewrite segment_step by lia. f_equal. lia.
  - intros q. rewrite checkpoint_data_commit. cbn [checkpoint_data log_event].
    rewrite marker_of_set.
    destruct (String.eqb q p) eqn:E; [|apply Hle].
    apply String.eqb_eq in E. subst q. specialize (Hle p). rewrite Hm in Hle.
    destruct (marker_of p c0); cbn [marker_le] in *; [lia|exact Hle].
Qed.

Lemma collecting_failed l st :
  collecting data c0 st ->
  (exists k, file_append w (appends_made st) = Some k) ->
  collecting data c0 (snd (_save_issues_to_jsonl w l st)).
Proof.
  intros (Hf & Hle & Hpos) [k Hfate]. unfold _save_issues_to_jsonl.
  rewrite Hfate. cbn [snd]. destruct honest as [_ Happ].
  rewrite (Happ _ _ Hfate). cbn [firstn].
  split; [|split; assumption].
  intros q. rewrite trace_log_event, fetched_snoc. cbn [trace].
  destruct (is_current q _); rewrite app_nil_r; apply Hf.
Qed.

Lemma fetch_collecting p cur st :
  collecting data c0 st ->
  marker_of p (checkpoint_data st) = Offset cur ->
  match _fetch_jira_page w p cur st with
  | (Some body, st1) =>
      body = archive_page data size p cur
      /\ collecting data c0 st1
      /\ marker_of p (checkpoint_data st1) = Offset cur
      /\ requesting None (trace st1) = Some p
  | (None, st1) => collecting data c0 st1
  end.
Proof.
  intros H Hm. unfold _fetch_jira_page.
  pose proof (fetch_attempts_consistent MAX_RETRIES p cur st) as Hbody.
  pose proof (fetch_attempts_rule w
                (fun p' cur' st' =>
                   collecting data c0 st' /\ marker_of p' (checkpoint_data st') = Offset cur')
                (fun p' cur' st' =>
                   collecting data c0 st' /\ marker_of p' (checkpoint_data st') = Offset cur'
                   /\ requesting None (trace st') = Some p')
                (collecting data c0)) as Hrule.
  specialize (Hrule (fun _ _ _ H' => proj1 H')).
  assert (Hreq : forall p' cur' st',
            collecting data c0 st' /\ marker_of p' (checkpoint_data st') = Offset cur' ->
            (fun p' cur' st' =>
               collecting data c0 st' /\ marker_of p' (checkpoint_data st') = Offset cur'
               /\ requesting None (trace st') = Some p')
              p' cur' (snd (send_request w p' cur' st'))).
  { intros p' cur' st' [H1 H2]. unfold send_request. cbn [snd]. split; [|split].
    - apply (collecting_log (EvRequest p' cur')
               {| projects_to_fetch := projects_to_fetch st';
                  checkpoint_data := checkpoint_data st';
                  checkpoint_file := checkpoint_file st';
                  output_file := output_file st';
                  requests_made := S (requests_made st');
                  appends_made := appends_made st';
                  trace := trace st' |}); [exact H1|exact I].
    - exact H2.
    - rewrite trace_log_event, requesting_snoc. reflexivity. }
  specialize (Hrule Hreq).
  assert (Hpause : forall p' cur' ms st',
            collecting data c0 st' /\ marker_of p' (checkpoint_data st') = Offset cur'
            /\ requesting None (trace st') = Some p' ->
            collecting data c0 (sleep ms st')
            /\ marker_of p' (checkpoint_data (sleep ms st')) = Offset cur').
  { intros p' cur' ms st' (H1 & H2 & _). split; [|exact H2].
    apply collecting_log; [exact H1|exact I]. }
  specialize (Hrule Hpause (fun _ _ _ H' => proj1 H') MAX_RETRIES p cur st (conj H Hm)).
  destruct (fetch_attempts w MAX_RETRIES p cur st) as [[body|] st1]; [|exact Hrule].
  split; [apply (Hbody body st1 eq_refl)|exact Hrule].
Qed.

Lemma loop_body_collecting p cur tot st :
  collecting data c0 st ->
  marker_of p (checkpoint_data st) = Offset cur ->
  tot = -1 \/ tot = Z.of_nat (length (data p)) ->
  match loop_body w p cur tot st with
  | Break st' => collecting data c0 st'
  | Return st' => collecting data c0 st'
  | Again cur' tot' st' =>
      collecting data c0 st' /\ marker_of p (checkpoint_data st') = Offset cur'
      /\ tot' = Z.of_nat (length (data p))
  end.
Proof.
  intros H Hm Htot. unfold loop_body.
  pose proof (fetch_collecting p cur st H Hm) as Hfetch.
  destruct (_fetch_jira_page w p cur st) as [[body|] st1]; [|exact Hfetch].
  destruct Hfetch as (-> & H1 & Hm1 & Hreq).
  cbn [archive_page total issues default from_option id]. cbv zeta.
  replace (if tot =? -1 then Z.of_nat (length (data p)) else tot)
    with (Z.of_nat (length (data p)))
    by (destruct Htot as [->| ->]; [reflexivity|];
        destruct (Z.of_nat (length (data p)) =? -1); reflexivity).
  destruct ((tot =? -1) && (Z.of_nat (length (data p)) =? 0)); [exact H1|].
  assert (Hcur : 0 <= cur).
  { destruct H1 as (_ & Hle & Hpos). specialize (Hle p). rewrite Hm1 in Hle.
    destruct (marker_of p c0) as [a|] eqn:Ea; [|destruct Hle].
    specialize (Hpos p a Ea). cbn [marker_le] in Hle. lia. }
  destruct (firstn size (skipn (Z.to_nat cur) (data p))) as [|i page] eqn:Hpage.
  - apply (collecting_completed p cur st1 H1 Hm1).
    destruct (skipn (Z.to_nat cur) (data p)) as [|x l] eqn:E; [reflexivity|].
    destruct size; [lia|discriminate Hpage].
  - pose proof (collecting_advance p cur st1 H1 Hm1 Hcur Hreq) as Hadv.
    pose proof (collecting_failed (i :: page) st1 H1) as Hfail.
    rewrite Hpage in Hadv. unfold _save_issues_to_jsonl in *.
    destruct (file_append w (appends_made st1)) as [k|]; cbn [fst snd negb] in *.
    + apply Hfail. exists k. reflexivity.
    + specialize (Hadv eq_refl).
      set (cur' := cur + Z.of_nat (length (i :: page))) in *.
      match goal with |- context [if ?b then _ else _] => destruct b eqn:Hdone end.
      * apply (collecting_completed p cur' _ Hadv).
        -- unfold commit, _save_checkpoint, set_marker, log_event.
           cbn [checkpoint_data]. rewrite marker_of_set, String.eqb_refl. reflexivity.
        -- apply Z.leb_le in Hdone. apply skipn_all2. unfold cur'. lia.
      * split; [apply collecting_log; [exact Hadv|exact I]|]. split; [|reflexivity].
        unfold sleep, commit, _save_checkpoint, set_marker, log_event.
        cbn [checkpoint_data]. rewrite marker_of_set, String.eqb_refl. reflexivity.
Qed.

Lemma while_total_collecting passes p : forall cur st,
  collecting data c0 st ->
  marker_of p (checkpoint_data st) = Offset cur ->
  match while_total w passes p cur (Z.of_nat (length (data p))) st with
  | Broke st' | Returned st' => collecting data c0 st'
  end.
Proof.
  induction passes as [|n IH]; intros cur st H Hm; cbn [while_total];
    pose proof (loop_body_collecting p cur _ st H Hm (or_intror eq_refl)) as Hb;
    destruct (loop_body w p cur _ st) as [st'|st'|cur' tot' st']; try exact Hb.
  - apply Hb.
  - destruct Hb as (H' & Hm' & ->). apply IH; assumption.
Qed.

Lemma while_first_collecting passes p : forall cur st,
  collecting data c0 st ->
  marker_of p (checkpoint_data st) = Offset cur ->
  match while_first w passes p cur st with
  | Broke st' | Returned st' => collecting data c0 st'
  end.
Proof.
  induction passes as [|n IH]; intros cur st H Hm; cbn [while_first];
    pose proof (loop_body_collecting p cur _ st H Hm (or_introl eq_refl)) as Hb;
    destruct (loop_body w p cur _ st) as [st'|st'|cur' tot' st']; try exact Hb;
    destruct Hb as (H' & Hm' & ->);
    (destruct (Z.of_nat (length (data p)) =? -1);
     [|apply while_total_collecting; assumption]).
  - exact H'.
  - apply IH; assumption.
Qed.

Lemma run_pipeline_collecting st :
  collecting data c0 st -> collecting data c0 (run_pipeline w st).
Proof.
  unfold run_pipeline. generalize (projects_to_fetch st) as projects.
  intros projects. revert st.
  induction projects as [|p rest IH]; intros st H; cbn [for_projects]; [exact H|].
  destruct (dict_get p (Offset 0) (checkpoint_data st)) as [cur|] eqn:E; [|apply IH, H].
  pose proof (while_first_collecting (Z.to_nat (-1 - cur)) p cur st H E) as Hw.
  unfold while_true. destruct (while_first w _ p cur st) as [st'|st']; [apply IH|];
    exact Hw.
Qed.

End Consistent.

Lemma collecting_init data projects file out :
  (forall p s, marker_of p (_load_checkpoint projects file) = Offset s -> 0 <= s) ->
  collecting data (_load_checkpoint projects file) (init projects file out).
Proof.
  intros Hpos. split; [|split; [|exact Hpos]].
  - intros q. cbn [init trace checkpoint_data].
    destruct (marker_of q (_load_checkpoint projects file)); cbn [segment];
      [rewrite Nat.sub_diag|]; reflexivity.
  - intros q. apply marker_le_refl.
Qed.

Lemma main_collecting data size w projects file out :
  (0 < size)%nat ->
  consistent data size w ->
  (forall p s, marker_of p (_load_checkpoint projects file) = Offset s -> 0 <= s) ->
  collecting data (_load_checkpoint projects file) (main w projects file out).
Proof.
  intros Hsize Hw Hpos. unfold main.
  apply (run_pipeline_collecting data size w _ Hsize Hw), collecting_init, Hpos.
Qed.

Lemma segment_app (records : list json) (a b c : marker) :
  marker_le a b -> marker_le b c ->
  (forall s, a = Offset s -> 0 <= s) ->
  segment records a b ++ segment records b c = segment records a c.
Proof.
  intros Hab Hbc Ha.
  destruct a as [x|]; [|apply marker_le_completed in Hab; subst b; reflexivity].
  specialize (Ha x eq_refl).
  destruct b as [y|], c as [z|]; cbn [segment marker_le] in *; try tauto.
  - replace (Z.to_nat z - Z.to_nat x)%nat
      with ((Z.to_nat y - Z.to_nat x) + (Z.to_nat z - Z.to_nat y))%nat by lia.
    rewrite firstn_add, skipn_skipn.
    replace (Z.to_nat y - Z.to_nat x + Z.to_nat x)%nat with (Z.to_nat y) by lia.
    reflexivity.
  - rewrite <- (firstn_skipn (Z.to_nat y - Z.to_nat x) (skipn (Z.to_nat x) records)) at 2.
    rewrite skipn_skipn.
    replace (Z.to_nat y - Z.to_nat x + Z.to_nat x)%nat with (Z.to_nat y) by lia.
    reflexivity.
  - apply app_nil_r.
Qed.

Lemma projects_main w projects file out :
  projects_to_fetch (main w projects file out) = projects.
Proof.
  unfold main.
  destruct (run_pipeline_rule w (fun _ _ st => projects_to_fetch st = projects)
              (fun _ _ st => projects_to_fetch st = projects)
              (fun st => projects_to_fetch st = projects)
              (fun st => projects_to_fetch st = projects))
    with (st := init projects file out) as [H|H]; auto.
Qed.

End ScraperConsistent.

(** * The scraper against a server that may fail but does not lie: the whole
    run *)

Section ConsistentExtras.
Import Scraper ScraperFacts ScraperMore ScraperConsistent.

(** X25: when the server may fail in any way but answers with success only
    by the right page, and an append writes the whole page or nothing, then
    after a run, whatever failures it met, the records appended for each
    collection are exactly those that lie between the marker the run
    started from and the marker it ended with. *)
Theorem run_collects_what_the_markers_tell (data : string -> list json) (size : nat)
    (w : world) (projects : list string) (file : option (option checkpoint))
    (out : list json) (q : string) :
  (0 < size)%nat ->
  consistent data size w ->
  (forall p s, marker_of p (_load_checkpoint projects file) = Offset s -> 0 <= s) ->
  fetched q (trace (main w projects file out))
  = segment (data q) (marker_of q (_load_checkpoint projects file))
      (marker_of q (checkpoint_data (main w projects file out))).
Proof.
  intros Hsize Hw Hpos.
  destruct (main_collecting data size w projects file out Hsize Hw Hpos) as [H _].
  apply H.
Qed.

Lemma run_collects_what_the_markers_tell_witness :
  fetched "SPARK" (trace (main shaky_world ["SPARK"] None []))
  = [issue_number 0; issue_number 1].
Proof.
  apply (run_collects_what_the_markers_tell
           (fun _ => [issue_number 0; issue_number 1; issue_number 2]) 2
           shaky_world ["SPARK"] None [] "SPARK").
  - lia.
  - split.
    + intros n p s code body H Hcode. cbn [shaky_world http_get] in H.
      destruct (n <? 2)%nat; injection H as <- <-; [lia|reflexivity].
    + intros n k H. cbn [shaky_world file_append] in H.
      destruct (n =? 1)%nat; [injection H as <-; reflexivity|discriminate H].
  - intros p s H. unfold marker_of, dict_get in H. cbn in H.
    destruct (String.eqb p "SPARK"); injection H as <-; lia.
Defined.

(** X26: a restart neither loses nor repeats a record.  Under the same
    assumptions on the server and the disk, for a run and a second run
    started from the files the first one left, the records the two runs
    appended for a collection are, one after the other, exactly those
    between the marker the first run started from and the marker the second
    run ended with. *)
Theorem restart_neither_loses_nor_repeats (data : string -> list json) (size : nat)
    (w1 w2 : world) (projects : list string) (file : option (option checkpoint))
    (out : list json) (q : string) :
  (0 < size)%nat ->
  consistent data size w1 ->
  consistent data size w2 ->
  (forall p s, marker_of p (_load_checkpoint projects file) = Offset s -> 0 <= s) ->
  fetched q (trace (main w1 projects file out))
  ++ fetched q (trace (main w2 projects
                         (match checkpoint_file (main w1 projects file out) with
                          | Some d => Some (Some d)
                          | None => None
                          end)
                         (output_file (main w1 projects file out))))
  = segment (data q) (marker_of q (_load_checkpoint projects file))
      (marker_of q
         (checkpoint_data
            (main w2 projects
               (match checkpoint_file (main w1 projects file out) with
                | Some d => Some (Some d)
                | None => None
                end)
               (output_file (main w1 projects file out))))).
Proof.
  intros Hsize Hw1 Hw2 Hpos.
  destruct (main_collecting data size w1 projects file out Hsize Hw1 Hpos)
    as (Hf1 & Hle1 & _).
  pose proof (reload_main w1 projects file out) as Hre. unfold reload in Hre.
  rewrite projects_main in Hre.
  set (run1 := main w1 projects file out) in *.
  set (file2 := match checkpoint_file run1 with
                | Some d => Some (Some d)
                | None => None
                end) in *.
  assert (Hpos2 : forall p s, marker_of p (_load_checkpoint projects file2) = Offset s ->
                              0 <= s).
  { intros p s E. rewrite Hre in E. specialize (Hle1 p). rewrite E in Hle1.
    destruct (marker_of p (_load_checkpoint projects file)) as [a|] eqn:Ea;
      [|destruct Hle1].
    specialize (Hpos p a Ea). cbn [marker_le] in Hle1. lia. }
  destruct (main_collecting data size w2 projects file2 (output_file run1)
              Hsize Hw2 Hpos2) as (Hf2 & Hle2 & _).
  rewrite Hf1, Hf2, Hre. apply segment_app.
  - apply Hle1.
  - specialize (Hle2 q). rewrite Hre in Hle2. exact Hle2.
  - apply Hpos.
Qed.

Lemma restart_neither_loses_nor_repeats_witness :
  fetched "SPARK" (trace (main shaky_world ["SPARK"] None []))
  ++ fetched "SPARK"
       (trace (main (archive (fun _ => [issue_number 0; issue_number 1; issue_number 2]) 2)
                 ["SPARK"]
                 (match checkpoint_file (main shaky_world ["SPARK"] None []) with
                  | Some d => Some (Some d)
                  | None => None
                  end)
                 (output_file (main shaky_world ["SPARK"] None []))))
  = [issue_number 0; issue_number 1; issue_number 2].
Proof.
  apply (restart_neither_loses_nor_repeats
           (fun _ => [issue_number 0; issue_number 1; issue_number 2]) 2
           shaky_world
           (archive (fun _ => [issue_number 0; issue_number 1; issue_number 2]) 2)
           ["SPARK"] None [] "SPARK").
  - lia.
  - split.
    + intros n p s code body H Hcode. cbn [shaky_world http_get] in H.
      destruct (n <? 2)%nat; injection H as <- <-; [lia|reflexivity].
    + intros n k H. cbn [shaky_world file_append] in H.
      destruct (n =? 1)%nat; [injection H as <-; reflexivity|discriminate H].
  - split.
    + intros n p s code body H Hcode. injection H as <- <-. reflexivity.
    + intros n k H. discriminate H.
  - intros p s H. unfold marker_of, dict_get in H. cbn in H.
    destruct (String.eqb p "SPARK"); injection H as <-; lia.
Defined.

End ConsistentExtras.

(** * The transformer: more of what the code does *)

Module TransformerMore.
Import Transformer TransformerFacts.

(** ** The counters *)

Lemma write_tasks_log tasks : forall st,
  log (write_tasks tasks st) = log st /\ count (write_tasks tasks st) = count st.
Proof.
  induction tasks as [|t tasks IH]; intros st; cbn [write_tasks]; [split; reflexivity|].
  destruct (decide (id t ∈ seen_task_ids st)); [apply IH|].
  destruct (IH {| outfile := outfile st ++ [t];
                  seen_task_ids := {[ id t ]} ∪ seen_task_ids st;
                  count := count st;
                  derived_count := S (derived_count st);
                  log := log st |}) as [H1 H2].
  split; assumption.
Qed.

Lemma write_tasks_derived_count tasks : forall st,
  derived_count st = length (outfile st) ->
  derived_count (write_tasks tasks st) = length (outfile (write_tasks tasks st)).
Proof.
  induction tasks as [|t tasks IH]; intros st H; cbn [write_tasks]; [exact H|].
  apply IH. destruct (decide (id t ∈ seen_task_ids st)); [exact H|].
  cbn [derived_count outfile]. rewrite length_app, H. cbn [length]. lia.
Qed.

Lemma count_counted st : count (counted st) = S (count st).
Proof. unfold counted. cbn [count]. destruct (_ =? _)%nat; reflexivity. Qed.

Lemma derived_count_counted st : derived_count (counted st) = derived_count st.
Proof. unfold counted. cbn [count]. destruct (_ =? _)%nat; reflexivity. Qed.

Section Loop.
Variable html_text : string -> string.

Lemma lines_loop_counts lines : forall st,
  derived_count st = length (outfile st) ->
  derived_count (fst (lines_loop html_text lines st))
  = length (outfile (fst (lines_loop html_text lines st)))
  /\ match snd (lines_loop html_text lines st) with
     | None => count (fst (lines_loop html_text lines st)) = (count st + length lines)%nat
     | Some _ => (count (fst (lines_loop html_text lines st)) < count st + length lines)%nat
     end.
Proof.
  induction lines as [|[text|raw_issue] lines IH]; intros st H; cbn [lines_loop].
  - cbn [fst snd length]. split; [exact H|lia].
  - destruct (IH (counted (add_log [WarnMalformed text] st))) as [H1 H2].
    { rewrite derived_count_counted, outfile_counted. exact H. }
    split; [exact H1|]. rewrite count_counted in H2. cbn [add_log count length] in *.
    destruct (snd _); lia.
  - destruct (_create_derived_tasks html_text raw_issue) as [records [tasks|e]].
    + destruct (IH (counted (write_tasks tasks (add_log records st)))) as [H1 H2].
      { rewrite derived_count_counted, outfile_counted.
        apply write_tasks_derived_count. exact H. }
      split; [exact H1|]. rewrite count_counted in H2.
      destruct (write_tasks_log tasks (add_log records st)) as [_ Hc].
      rewrite Hc in H2. cbn [add_log count length] in *. destruct (snd _); lia.
    + cbn [fst snd add_log derived_count outfile count length]. split; [exact H|lia].
Qed.

(** ** The loop sees only the output file and the set *)

Lemma write_tasks_same tasks : forall st1 st2,
  same_output st1 st2 -> same_output (write_tasks tasks st1) (write_tasks tasks st2).
Proof.
  induction tasks as [|t tasks IH]; intros st1 st2 [Ho Hs]; cbn [write_tasks];
    [split; assumption|].
  apply IH. rewrite Hs. destruct (decide (id t ∈ seen_task_ids st2)).
  - split; assumption.
  - split; cbn [outfile seen_task_ids]; congruence.
Qed.

Lemma same_output_counted st : same_output (counted st) st.
Proof. split; [apply outfile_counted|apply seen_counted]. Qed.

Lemma same_output_trans st1 st2 st3 :
  same_output st1 st2 -> same_output st2 st3 -> same_output st1 st3.
Proof. intros [? ?] [? ?]. split; congruence. Qed.

Lemma same_output_sym st1 st2 : same_output st1 st2 -> same_output st2 st1.
Proof. intros [? ?]. split; congruence. Qed.

Lemma lines_loop_same lines : forall st1 st2,
  same_output st1 st2 ->
  same_output (fst (lines_loop html_text lines st1)) (fst (lines_loop html_text lines st2))
  /\ snd (lines_loop html_text lines st1) = snd (lines_loop html_text lines st2).
Proof.
  induction lines as [|[text|raw_issue] lines IH]; intros st1 st2 H; cbn [lines_loop].
  - split; [exact H|reflexivity].
  - apply IH.
    eapply same_output_trans; [apply same_output_counted|].
    eapply same_output_trans; [|apply same_output_sym, same_output_counted]. exact H.
  - destruct (_create_derived_tasks html_text raw_issue) as [records [tasks|e]].
    + apply IH.
      eapply same_output_trans; [apply same_output_counted|].
      eapply same_output_trans; [|apply same_output_sym, same_output_counted].
      apply write_tasks_same. exact H.
    + split; [exact H|reflexivity].
Qed.

Lemma lines_loop_app lines1 lines2 : forall st,
  lines_loop html_text (lines1 ++ lines2) st
  = match lines_loop html_text lines1 st with
    | (st', None) => lines_loop html_text lines2 st'
    | (st', Some e) => (st', Some e)
    end.
Proof.
  induction lines1 as [|[text|raw_issue] lines1 IH]; intros st; cbn [app lines_loop].
  - reflexivity.
  - apply IH.
  - destruct (_create_derived_tasks html_text raw_issue) as [records [tasks|e]];
      [apply IH|reflexivity].
Qed.

(** ** Malformed lines *)

Lemma lines_loop_decoded lines : forall st,
  same_output (fst (lines_loop html_text lines st))
    (fst (lines_loop html_text (List.filter is_decoded lines) st))
  /\ snd (lines_loop html_text lines st)
     = snd (lines_loop html_text (List.filter is_decoded lines) st).
Proof.
  induction lines as [|[text|raw_issue] lines IH]; intros st; cbn [List.filter is_decoded].
  - split; [split|]; reflexivity.
  - cbn [lines_loop].
    destruct (IH (counted (add_log [WarnMalformed text] st))) as [H1 H2].
    destruct (lines_loop_same (List.filter is_decoded lines)
                (counted (add_log [WarnMalformed text] st)) st) as [H3 H4].
    { eapply same_output_trans; [apply same_output_counted|]. split; reflexivity. }
    split; [eapply same_output_trans; eassumption|rewrite H2; exact H4].
  - cbn [lines_loop].
    destruct (_create_derived_tasks html_text raw_issue) as [records [tasks|e]].
    + apply IH.
    + split; [split|]; reflexivity.
Qed.

(** ** A line met before *)

Lemma lines_loop_seen lines : forall st,
  seen_task_ids st ⊆ seen_task_ids (fst (lines_loop html_text lines st)).
Proof.
  induction lines as [|[text|raw_issue] lines IH]; intros st; cbn [lines_loop].
  - reflexivity.
  - etransitivity; [|apply IH]. rewrite seen_counted. reflexivity.
  - destruct (_create_derived_tasks html_text raw_issue) as [records [tasks|e]].
    + etransitivity; [|apply IH]. rewrite seen_counted.
      apply (write_tasks_covers html_text tasks (add_log records st)).
    + reflexivity.
Qed.

Lemma line_again x : forall st,
  (forall t, In t (derived_of html_text x) -> id t ∈ seen_task_ids st) ->
  raises html_text x = false ->
  exists st', lines_loop html_text [x] st = (st', None) /\ same_output st' st.
Proof.
  intros st Hseen Hr. destruct x as [text|raw_issue]; cbn [lines_loop].
  - eexists. split; [reflexivity|].
    eapply same_output_trans; [apply same_output_counted|]. split; reflexivity.
  - cbn [derived_of raises] in *.
    destruct (_create_derived_tasks html_text raw_issue) as [records [tasks|e]];
      cbn [snd] in *; [|discriminate].
    eexists. split; [reflexivity|].
    eapply same_output_trans; [apply same_output_counted|].
    rewrite write_tasks_seen; [split; reflexivity|exact Hseen].
Qed.

Lemma line_first x : forall st,
  match lines_loop html_text [x] st with
  | (st', None) =>
      raises html_text x = false
      /\ forall t, In t (derived_of html_text x) -> id t ∈ seen_task_ids st'
  | (_, Some _) => True
  end.
Proof.
  intros st. destruct x as [text|raw_issue]; cbn [lines_loop].
  - split; [reflexivity|intros t []].
  - cbn [derived_of raises].
    destruct (_create_derived_tasks html_text raw_issue) as [records [tasks|e]];
      cbn [snd]; [|exact I].
    split; [reflexivity|]. intros t Ht. rewrite seen_counted.
    apply (write_tasks_covers html_text tasks (add_log records st)), Ht.
Qed.

Lemma lines_loop_repeated a x b c : forall st,
  same_output (fst (lines_loop html_text (a ++ x :: b ++ x :: c) st))
    (fst (lines_loop html_text (a ++ x :: b ++ c) st))
  /\ snd (lines_loop html_text (a ++ x :: b ++ x :: c) st)
     = snd (lines_loop html_text (a ++ x :: b ++ c) st).
Proof.
  intros st. rewrite !lines_loop_app.
  destruct (lines_loop html_text a st) as [st1 [e|]]; [split; [split|]; reflexivity|].
  change (x :: b ++ x :: c) with ([x] ++ b ++ [x] ++ c).
  change (x :: b ++ c) with ([x] ++ b ++ c).
  rewrite !lines_loop_app. pose proof (line_first x st1) as Hx.
  destruct (lines_loop html_text [x] st1) as [st2 [e|]]; [split; [split|]; reflexivity|].
  destruct Hx as [Hr Hseen]. rewrite !lines_loop_app.
  pose proof (lines_loop_seen b st2) as Hsub.
  destruct (lines_loop html_text b st2) as [st3 [e|]]; [split; [split|]; reflexivity|].
  cbn [fst] in Hsub. rewrite lines_loop_app.
  destruct (line_again x st3) as (st4 & -> & Hsame); [|exact Hr|].
  { intros t Ht. apply Hsub, Hseen, Ht. }
  apply lines_loop_same, Hsame.
Qed.

(** ** The output, without the loop *)

Lemma first_of_each_ext tasks : forall earlier1 earlier2,
  (forall i, In i earlier1 <-> In i earlier2) ->
  first_of_each earlier1 tasks = first_of_each earlier2 tasks.
Proof.
  clear html_text.
  induction tasks as [|t tasks IH]; intros e1 e2 H; cbn [first_of_each]; [reflexivity|].
  assert (Hb : existsb (String.eqb (id t)) e1 = existsb (String.eqb (id t)) e2).
  { apply eq_true_iff_eq. rewrite !existsb_exists. split; intros (i & Hi & E);
      exists i; (split; [apply H, Hi|exact E]). }
  rewrite Hb. destruct (existsb _ e2); [apply IH, H|]. f_equal. apply IH.
  intros i. cbn [In]. rewrite H. reflexivity.
Qed.

Lemma existsb_eqb_In i earlier : existsb (String.eqb i) earlier = true <-> In i earlier.
Proof.
  clear html_text.
  rewrite existsb_exists. split.
  - intros (j & Hj & E). apply String.eqb_eq in E. subst. exact Hj.
  - intros H. exists i. split; [exact H|apply String.eqb_refl].
Qed.

Lemma first_of_each_app tasks1 tasks2 : forall earlier,
  first_of_each earlier (tasks1 ++ tasks2)
  = first_of_each earlier tasks1 ++ first_of_each (map id tasks1 ++ earlier) tasks2.
Proof.
  clear html_text.
  induction tasks1 as [|t tasks1 IH]; intros earlier; cbn [app first_of_each map];
    [reflexivity|].
  destruct (existsb (String.eqb (id t)) earlier) eqn:E.
  - rewrite IH. f_equal. apply first_of_each_ext. intros i. cbn [In].
    rewrite !in_app_iff. apply existsb_eqb_In in E. split; [tauto|].
    intros [<-|H]; tauto.
  - rewrite IH. cbn [app]. f_equal. f_equal. apply first_of_each_ext. intros i.
    cbn [In]. rewrite !in_app_iff. cbn [In]. tauto.
Qed.

Lemma write_tasks_first tasks : forall st earlier,
  (forall i, i ∈ seen_task_ids st <-> In i earlier) ->
  outfile (write_tasks tasks st) = outfile st ++ first_of_each earlier tasks
  /\ forall i, i ∈ seen_task_ids (write_tasks tasks st) <-> In i (map id tasks ++ earlier).
Proof.
  clear html_text.
  induction tasks as [|t tasks IH]; intros st earlier H; cbn [write_tasks first_of_each map].
  - rewrite app_nil_r. split; [reflexivity|exact H].
  - destruct (decide (id t ∈ seen_task_ids st)) as [Hin|Hout].
    + replace (existsb (String.eqb (id t)) earlier) with true
        by (symmetry; apply existsb_eqb_In, H, Hin).
      destruct (IH st earlier H) as [H1 H2]. split; [exact H1|].
      intros i. rewrite H2. cbn [app In]. rewrite !in_app_iff.
      apply H in Hin. split; [tauto|]. intros [<-|?]; tauto.
    + replace (existsb (String.eqb (id t)) earlier) with false
        by (symmetry; apply not_true_iff_false; rewrite existsb_eqb_In, <- H; exact Hout).
      match goal with |- context [write_tasks tasks ?s] =>
        destruct (IH s (id t :: earlier)) as [H1 H2] end.
      { intros i. cbn [seen_task_ids In]. rewrite elem_of_union, elem_of_singleton, H.
        split; intros [?|?]; auto. }
      split.
      * rewrite H1. cbn [outfile]. rewrite <- app_assoc. reflexivity.
      * intros i. rewrite H2. cbn [app In]. rewrite !in_app_iff. cbn [In]. tauto.
Qed.

Lemma lines_loop_first lines : forall st earlier,
  (forall i, i ∈ seen_task_ids st <-> In i earlier) ->
  outfile (fst (lines_loop html_text lines st))
  = outfile st
    ++ first_of_each earlier (flat_map (derived_of html_text) (processed html_text lines)).
Proof.
  induction lines as [|[text|raw_issue] lines IH]; intros st earlier H;
    cbn [lines_loop processed raises derived_of flat_map].
  - cbn [first_of_each fst]. rewrite app_nil_r. reflexivity.
  - cbn [flat_map derived_of app]. rewrite (IH _ earlier).
    + rewrite outfile_counted. reflexivity.
    + intros i. rewrite seen_counted. apply H.
  - destruct (_create_derived_tasks html_text raw_issue) as [records [tasks|e]] eqn:E;
      cbn [snd].
    + cbn [flat_map derived_of]. rewrite E. cbn [snd].
      destruct (write_tasks_first tasks (add_log records st) earlier H) as [H1 H2].
      rewrite (IH _ (map id tasks ++ earlier)).
      * rewrite outfile_counted, H1, first_of_each_app, <- app_assoc. reflexivity.
      * intros i. rewrite seen_counted. apply H2.
    + cbn [flat_map first_of_each fst add_log outfile]. rewrite app_nil_r. reflexivity.
Qed.

Lemma lines_loop_processed lines : forall st,
  snd (lines_loop html_text lines st) = None <-> processed html_text lines = lines.
Proof.
  induction lines as [|[text|raw_issue] lines IH]; intros st;
    cbn [lines_loop processed raises].
  - split; reflexivity.
  - rewrite IH. split; [intros ->; reflexivity|intros [=]; assumption].
  - destruct (_create_derived_tasks html_text raw_issue) as [records [tasks|e]];
      cbn [snd].
    + rewrite IH. split; [intros ->; reflexivity|intros [=]; assumption].
    + split; discriminate.
Qed.

End Loop.

(** ** The deriver on any object *)

Section Objects.
Variable html_text : string -> string.

Lemma try_block_ok key raw_issue tasks :
  try_block html_text key raw_issue = Ok tasks ->
  exists summary status priority issuetype description comments_text,
    tasks = build_tasks key summary status priority issuetype description comments_text.
Proof.
  unfold try_block. intros H.
  repeat match type of H with
         | bind ?r _ = _ => destruct r; cbn [bind] in H; [|discriminate H]
         end.
  injection H as <-. eauto 10.
Qed.

Lemma build_tasks_shape key summary status priority issuetype description comments_text :
  build_tasks key summary status priority issuetype description comments_text = []
  \/ exists t1 t2 t3 t4,
       build_tasks key summary status priority issuetype description comments_text
       = [t1; t2; t3; t4]
       /\ id t1 = Py.str key +:+ "_summary"
       /\ id t2 = Py.str key +:+ "_qna_status"
       /\ id t3 = Py.str key +:+ "_classify_priority"
       /\ id t4 = Py.str key +:+ "_classify_type".
Proof.
  clear html_text. unfold build_tasks. destruct (_ || _); [left; reflexivity|right].
  eexists _, _, _, _. split; [reflexivity|]. repeat split.
Qed.

Lemma create_derived_tasks_object members :
  exists records tasks,
    _create_derived_tasks html_text (JObj members) = (records, Ok tasks)
    /\ (records = []
        \/ exists e, records = [WarnFailed (dict_get "key" JNull members) e] /\ tasks = [])
    /\ (tasks = []
        \/ exists t1 t2 t3 t4,
             tasks = [t1; t2; t3; t4]
             /\ id t1 = Py.str (dict_get "key" JNull members) +:+ "_summary"
             /\ id t2 = Py.str (dict_get "key" JNull members) +:+ "_qna_status"
             /\ id t3 = Py.str (dict_get "key" JNull members) +:+ "_classify_priority"
             /\ id t4 = Py.str (dict_get "key" JNull members) +:+ "_classify_type").
Proof.
  unfold _create_derived_tasks. cbn [get].
  destruct (try_block html_text _ _) as [tasks|e] eqn:E.
  - exists [], tasks. split; [reflexivity|]. split; [left; reflexivity|].
    apply try_block_ok in E as (summary & status & priority & issuetype & description
                                & comments_text & ->).
    apply build_tasks_shape.
  - exists [WarnFailed (dict_get "key" JNull members) e], [].
    split; [reflexivity|]. split; [right; exists e; split; reflexivity|left; reflexivity].
Qed.

Lemma derived_of_object members :
  snd (_create_derived_tasks html_text (JObj members))
  = Ok (derived_of html_text (Decoded (JObj members))).
Proof.
  cbn [derived_of].
  destruct (create_derived_tasks_object members) as (records & tasks & -> & _).
  reflexivity.
Qed.

Lemma derived_of_ids members t :
  In t (derived_of html_text (Decoded (JObj members))) ->
  In (id t) [Py.str (dict_get "key" JNull members) +:+ "_summary";
             Py.str (dict_get "key" JNull members) +:+ "_qna_status";
             Py.str (dict_get "key" JNull members) +:+ "_classify_priority";
             Py.str (dict_get "key" JNull members) +:+ "_classify_type"].
Proof.
  cbn [derived_of].
  destruct (create_derived_tasks_object members)
    as (records & tasks & -> & _ & [->|(t1 & t2 & t3 & t4 & -> & <- & <- & <- & <-)]);
    cbn [snd In]; [intros []|].
  intros [<-|[<-|[<-|[<-|[]]]]]; tauto.
Qed.

Lemma derived_of_nodup line : NoDup (map id (derived_of html_text line)).
Proof.
  destruct line as [text|raw_issue]; cbn [derived_of]; [constructor|].
  unfold _create_derived_tasks.
  destruct (get raw_issue "key" JNull) as [key|e]; cbn [snd]; [|constructor].
  destruct (try_block html_text key raw_issue) as [tasks|e] eqn:E; cbn [snd];
    [|constructor].
  apply try_block_ok in E as (summary & status & priority & issuetype & description
                              & comments_text & ->).
  apply build_tasks_nodup.
Qed.

(** A nested object of the fields that is there but is no object *)
Lemma nested_name_raises fields k v dflt :
  dict_lookup k fields = Some v ->
  (forall m, v <> JObj m) ->
  get (dict_get k (JObj []) fields) "name" dflt = Raise AttributeError.
Proof.
  clear html_text. intros E Hv. rewrite (dict_get_some _ _ _ _ E).
  destruct v; try reflexivity. destruct (Hv members). reflexivity.
Qed.

Lemma nested_name_cases fields k dflt :
  get (dict_get k (JObj []) fields) "name" dflt = Raise AttributeError
  \/ exists v, get (dict_get k (JObj []) fields) "name" dflt = Ok v.
Proof.
  clear html_text. destruct (dict_get k (JObj []) fields); cbn [get]; eauto.
Qed.

Lemma try_block_nested key members fields k v :
  dict_lookup "fields" members = Some (JObj fields) ->
  In k ["status"; "priority"; "issuetype"] ->
  dict_lookup k fields = Some v ->
  (forall m, v <> JObj m) ->
  try_block html_text key (JObj members) = Raise AttributeError.
Proof.
  intros Hf Hk E Hv. unfold try_block. cbn [get bind].
  rewrite (dict_get_some _ _ _ _ Hf). cbn [get bind].
  destruct (nested_name_cases fields "status" (JStr "Unknown")) as [->|[x1 E1]];
    [reflexivity|].
  destruct Hk as [<-|Hk].
  { rewrite (nested_name_raises _ _ _ _ E Hv) in E1. discriminate E1. }
  rewrite E1. cbn [bind].
  destruct (nested_name_cases fields "priority" (JStr "Unknown")) as [->|[x2 E2]];
    [reflexivity|].
  destruct Hk as [<-|Hk].
  { rewrite (nested_name_raises _ _ _ _ E Hv) in E2. discriminate E2. }
  rewrite E2. cbn [bind].
  destruct Hk as [<-|[]].
  rewrite (nested_name_raises _ _ _ _ E Hv). reflexivity.
Qed.

(** Two records in a row *)
Lemma second_object_adds_nothing m1 m2 :
  (forall t, In t (derived_of html_text (Decoded (JObj m2))) ->
             In (id t) (map id (derived_of html_text (Decoded (JObj m1))))) ->
  outfile (fst (run_transformation html_text
                  (Some [Decoded (JObj m1); Decoded (JObj m2)])))
  = derived_of html_text (Decoded (JObj m1)).
Proof.
  intros Hsame. unfold run_transformation. cbn [lines_loop].
  pose proof (derived_of_object m1) as E1. pose proof (derived_of_object m2) as E2.
  pose proof (derived_of_nodup (Decoded (JObj m1))) as Hnd.
  destruct (_create_derived_tasks html_text (JObj m1)) as [records1 r1].
  destruct (_create_derived_tasks html_text (JObj m2)) as [records2 r2].
  cbn [snd] in E1, E2. subst r1 r2.
  set (tasks1 := derived_of html_text (Decoded (JObj m1))) in *.
  set (tasks2 := derived_of html_text (Decoded (JObj m2))) in *.
  cbn [fst add_log outfile]. rewrite outfile_counted.
  destruct (write_tasks_covers html_text tasks1 (add_log records1 start)) as [_ Hin].
  rewrite (write_tasks_seen tasks2 (add_log records2 (counted _))).
  - cbn [add_log outfile]. rewrite outfile_counted.
    rewrite write_tasks_fresh; [reflexivity|exact Hnd|]. intros t _. cbn. set_solver.
  - intros t Ht. cbn [add_log seen_task_ids]. rewrite seen_counted.
    apply Hsame, in_map_iff in Ht as (t' & <- & Ht'). apply Hin, Ht'.
Qed.

End Objects.

(** ** Whitespace *)

Lemma lstrip_other s : starts_with_space s = false -> Re.lstrip s = s.
Proof. destruct s as [|c s]; cbn; [reflexivity|]. intros ->. reflexivity. Qed.

Lemma starts_lstrip s : starts_with_space (Re.lstrip s) = false.
Proof.
  induction s as [|c s IH]; cbn [Re.lstrip]; [reflexivity|].
  destruct (Py.is_space c) eqn:E; [exact IH|]. cbn [starts_with_space]. exact E.
Qed.

Lemma length_lstrip s : (String.length (Re.lstrip s) <= String.length s)%nat.
Proof.
  induction s as [|c s IH]; cbn [Re.lstrip String.length]; [lia|].
  destruct (Py.is_space c); cbn [String.length]; lia.
Qed.

Lemma spaces_rep s : forall (n : nat) (taken : string) (prev : option ascii),
  (fix rep (n : nat) (taken : string) (prev : option ascii) (s : string) {struct s}
       : option (string * string) :=
     match
       match s with
       | String c s' =>
           if Py.is_space c && Re.below None n
           then rep (S n) (taken +:+ String c EmptyString) (Some c) s'
           else None
       | EmptyString => None
       end
     with
     | Some r => Some r
     | None =>
         if (1 <=? n)%nat then
           match Re.match_here [] prev s with
           | Some (g, rest) => Some (if false then taken else g, rest)
           | None => None
           end
         else None
     end) n taken prev s
  = if starts_with_space s then Some (EmptyString, Re.lstrip s)
    else if (1 <=? n)%nat then Some (EmptyString, s) else None.
Proof.
  induction s as [|c s IH]; intros n taken prev.
  - cbn. destruct (1 <=? n)%nat; reflexivity.
  - cbn [starts_with_space Re.lstrip]. destruct (Py.is_space c) eqn:E.
    + cbn [andb Re.below]. rewrite IH.
      destruct (starts_with_space s) eqn:Es; [reflexivity|].
      rewrite (lstrip_other s Es). reflexivity.
    + cbn [andb Re.match_here]. destruct (1 <=? n)%nat; reflexivity.
Qed.

Lemma match_spaces prev s :
  Re.match_here space_re prev s
  = if starts_with_space s then Some (EmptyString, Re.lstrip s) else None.
Proof. apply (spaces_rep s 0 EmptyString prev). Qed.

Lemma sub_from_skip p repl s : forall prev,
  exists prev',
    Re.sub_from p repl prev (String.length s - String.length (Re.lstrip s)) s
    = Re.sub_from p repl prev' O (Re.lstrip s).
Proof.
  induction s as [|c s IH]; intros prev; [exists prev; reflexivity|].
  cbn [Re.lstrip]. destruct (Py.is_space c).
  - pose proof (length_lstrip s) as Hl. cbn [String.length].
    replace (S (String.length s) - String.length (Re.lstrip s))%nat
      with (S (String.length s - String.length (Re.lstrip s))) by lia.
    cbn [Re.sub_from]. apply IH.
  - exists prev. rewrite Nat.sub_diag. reflexivity.
Qed.

Lemma sub_spaces_single n : forall s prev,
  (String.length s <= n)%nat ->
  single_spaced (Re.sub_from space_re (fun _ => " ") prev O s) = true
  /\ starts_with_space (Re.sub_from space_re (fun _ => " ") prev O s)
     = starts_with_space s.
Proof.
  induction n as [|n IH]; intros [|c s] prev Hn; cbn [String.length] in Hn; try lia;
    cbn [Re.sub_from]; rewrite match_spaces; cbn [starts_with_space];
    try (split; reflexivity).
  destruct (Py.is_space c) eqn:E.
  - cbn [Re.lstrip]. rewrite E. pose proof (length_lstrip s) as Hl.
    cbn [String.length].
    replace (S (String.length s) - String.length (Re.lstrip s))%nat
      with (S (String.length s - String.length (Re.lstrip s))) by lia.
    destruct (sub_from_skip space_re (fun _ => " ") s (Some c)) as [prev' ->].
    destruct (IH (Re.lstrip s) prev') as [H1 H2]; [lia|].
    change (" " +:+ ?x) with (String " " x).
    cbn [single_spaced starts_with_space]. rewrite H1, H2, starts_lstrip.
    split; reflexivity.
  - destruct (IH s (Some c)) as [H1 H2]; [lia|].
    cbn [single_spaced starts_with_space]. rewrite E, H1. split; reflexivity.
Qed.

Lemma single_spaced_lstrip s :
  single_spaced s = true -> single_spaced (Re.lstrip s) = true.
Proof.
  induction s as [|c s IH]; cbn [Re.lstrip]; [reflexivity|]. intros H.
  destruct (Py.is_space c) eqn:E; [|exact H]. apply IH.
  cbn [single_spaced] in H. apply andb_prop in H as [_ H]. exact H.
Qed.

Lemma starts_rstrip s :
  starts_with_space (Re.rstrip s) = true -> starts_with_space s = true.
Proof.
  destruct s as [|c s]; cbn [Re.rstrip starts_with_space]; [discriminate|].
  destruct (Re.rstrip s); [|intros H; exact H].
  destruct (Py.is_space c) eqn:E; cbn [starts_with_space]; congruence.
Qed.

Lemma single_spaced_rstrip s :
  single_spaced s = true -> single_spaced (Re.rstrip s) = true.
Proof.
  induction s as [|c s IH]; cbn [Re.rstrip]; [reflexivity|]. intros H.
  cbn [single_spaced] in H. apply andb_prop in H as [Hc H].
  specialize (IH H). pose proof (starts_rstrip s) as Hh.
  destruct (Re.rstrip s) as [|d r].
  - destruct (Py.is_space c) eqn:E; [reflexivity|]. cbn [single_spaced]. rewrite E.
    reflexivity.
  - cbn [single_spaced] in *. rewrite IH, andb_true_r.
    destruct (Py.is_space c); [|reflexivity].
    apply andb_prop in Hc as [Hc1 Hc2]. rewrite Hc1. cbn [andb].
    destruct (starts_with_space (String d r)) eqn:Ed; [|reflexivity].
    rewrite Hh in Hc2; [discriminate Hc2|reflexivity].
Qed.

Lemma ends_rstrip s : ends_with_space (Re.rstrip s) = false.
Proof.
  induction s as [|c s IH]; cbn [Re.rstrip]; [reflexivity|].
  destruct (Re.rstrip s) as [|d r].
  - destruct (Py.is_space c) eqn:E; [reflexivity|]. cbn [ends_with_space]. exact E.
  - exact IH.
Qed.

Lemma clean_single_spaced html_text text :
  single_spaced (clean html_text text) = true
  /\ starts_with_space (clean html_text text) = false
  /\ ends_with_space (clean html_text text) = false.
Proof.
  unfold clean, Re.strip, Re.sub.
  set (s := Re.sub_from ip_re _ _ _ _).
  destruct (sub_spaces_single (String.length s) s None (le_n _)) as [H1 _].
  split; [apply single_spaced_rstrip, single_spaced_lstrip, H1|].
  split; [|apply ends_rstrip].
  apply not_true_iff_false. intros H%starts_rstrip. rewrite starts_lstrip in H.
  discriminate H.
Qed.

(** ** The whole run *)

Lemma run_transformation_loop html_text lines :
  same_output (fst (run_transformation html_text (Some lines)))
    (fst (lines_loop html_text lines start))
  /\ snd (run_transformation html_text (Some lines))
     = snd (lines_loop html_text lines start).
Proof.
  unfold run_transformation.
  destruct (lines_loop html_text lines start) as [st [e|]]; repeat split.
Qed.

End TransformerMore.

(** * The transformer: further properties *)

Section TransformerExtras.
Import Transformer TransformerFacts TransformerMore.

(** X15: on a record that is a JSON object the deriver never raises and
    never returns part of the tasks: it returns no task, or the four tasks,
    whose identifiers are the text of the record's [key] (the text [None]
    when there is no key) followed by the four suffixes; it logs at most one
    warning, and then returns no task.  On any other decoded value (an
    array, a string, a number, a truth value, null) it raises
    [UnboundLocalError]. *)
Theorem deriver_all_or_nothing (html_text : string -> string) (raw_issue : json) :
  match raw_issue with
  | JObj members =>
      exists records tasks,
        _create_derived_tasks html_text raw_issue = (records, Ok tasks)
        /\ (records = []
            \/ exists e,
                 records = [WarnFailed (dict_get "key" JNull members) e] /\ tasks = [])
        /\ (tasks = []
            \/ exists t1 t2 t3 t4,
                 tasks = [t1; t2; t3; t4]
                 /\ id t1 = Py.str (dict_get "key" JNull members) +:+ "_summary"
                 /\ id t2 = Py.str (dict_get "key" JNull members) +:+ "_qna_status"
                 /\ id t3
                    = Py.str (dict_get "key" JNull members) +:+ "_classify_priority"
                 /\ id t4 = Py.str (dict_get "key" JNull members) +:+ "_classify_type")
  | _ => _create_derived_tasks html_text raw_issue = ([], Raise UnboundLocalError)
  end.
Proof.
  destruct raw_issue; try reflexivity. apply create_derived_tasks_object.
Qed.

(** X16: a record whose [fields] hold [status], [priority] or [issuetype]
    with a value that is not an object (null, for one) gives no task at all:
    the deriver logs one warning, for [AttributeError], and returns the
    empty list, whatever else the record holds. *)
Theorem nested_field_that_is_no_object_drops_the_record
    (html_text : string -> string) (members fields : list (string * json))
    (k : string) (v : json) :
  dict_lookup "fields" members = Some (JObj fields) ->
  In k ["status"; "priority"; "issuetype"] ->
  dict_lookup k fields = Some v ->
  (forall m, v <> JObj m) ->
  _create_derived_tasks html_text (JObj members)
  = ([WarnFailed (dict_get "key" JNull members) AttributeError], Ok []).
Proof.
  intros Hf Hk E Hv. unfold _create_derived_tasks. cbn [get].
  rewrite (try_block_nested html_text _ members fields k v Hf Hk E Hv). reflexivity.
Qed.

Lemma nested_field_that_is_no_object_drops_the_record_witness :
  _create_derived_tasks soup_text
    (JObj [("key", JStr "SPARK-2");
           ("fields", JObj [("summary", JStr "Slow job");
                            ("description", JStr "It is slow");
                            ("priority", JNull)])])
  = ([WarnFailed (JStr "SPARK-2") AttributeError], Ok []).
Proof.
  apply (nested_field_that_is_no_object_drops_the_record soup_text
           [("key", JStr "SPARK-2");
            ("fields", JObj [("summary", JStr "Slow job");
                             ("description", JStr "It is slow");
                             ("priority", JNull)])]
           [("summary", JStr "Slow job"); ("description", JStr "It is slow");
            ("priority", JNull)]
           "priority" JNull).
  - reflexivity.
  - right. left. reflexivity.
  - reflexivity.
  - intros m. discriminate.
Defined.

(** X17: for a well-formed record that has a summary and some text, the
    completions of the four tasks are, in order, the summary as the record
    holds it, and the names of its status, priority and issue type, each
    [Unknown] when the record has none; and every prompt is an instruction
    followed by the same text: the title line with that same summary, the
    normalized description and the comment blocks. *)
Theorem tasks_of_a_well_formed_record (html_text : string -> string) (raw_issue : json) :
  well_formed raw_issue = true ->
  informative html_text raw_issue = true ->
  exists tasks,
    _create_derived_tasks html_text raw_issue = ([], Ok tasks)
    /\ map completion tasks
       = [JStr (summary_of raw_issue); name_of "status" raw_issue;
          name_of "priority" raw_issue; name_of "issuetype" raw_issue]
    /\ forall t, In t tasks ->
         exists instruction,
           prompt t
           = instruction +:+ Py.nl +:+ Py.nl +:+ "Title: " +:+ summary_of raw_issue
             +:+ Py.nl +:+ Py.nl +:+ "Description:" +:+ Py.nl
             +:+ description_of html_text raw_issue +:+ Py.nl
             +:+ comments_text_of html_text raw_issue.
Proof.
  intros Hwf Hinf. rewrite (create_derived_tasks_well_formed html_text raw_issue Hwf).
  unfold informative in Hinf. apply andb_prop in Hinf as [Hs Hd].
  eexists. split; [reflexivity|]. unfold build_tasks. cbn [Py.truthy].
  unfold nonempty in Hs. rewrite Hs, Hd. cbn [negb orb map completion].
  split; [reflexivity|].
  intros t [<-|[<-|[<-|[<-|[]]]]]; cbn [prompt]; eexists; reflexivity.
Qed.

Lemma tasks_of_a_well_formed_record_witness :
  exists tasks,
    _create_derived_tasks soup_text sample_issue = ([], Ok tasks)
    /\ map completion tasks
       = [JStr "Crash on start"; JStr "Open"; JStr "Unknown"; JStr "Unknown"].
Proof.
  destruct (tasks_of_a_well_formed_record soup_text sample_issue eq_refl eq_refl)
    as (tasks & E & Hc & _).
  exists tasks. split; [exact E|exact Hc].
Defined.

(** X18: the identifier of a task is built from the text of the record's
    key alone.  Of two records, one after the other, whose keys have the
    same text (two records without a key, for one), only the tasks of the
    first are written when it has any: the second record is lost. *)
Theorem records_with_the_same_key_text_collide (html_text : string -> string)
    (m1 m2 : list (string * json)) :
  Py.str (dict_get "key" JNull m1) = Py.str (dict_get "key" JNull m2) ->
  derived_of html_text (Decoded (JObj m1)) <> [] ->
  outfile (fst (run_transformation html_text
                  (Some [Decoded (JObj m1); Decoded (JObj m2)])))
  = derived_of html_text (Decoded (JObj m1)).
Proof.
  intros Hkey Hne. apply second_object_adds_nothing. intros t Ht.
  apply derived_of_ids in Ht. rewrite <- Hkey in Ht.
  cbn [derived_of] in *.
  destruct (create_derived_tasks_object html_text m1)
    as (records & tasks & E & _ & [->|(t1 & t2 & t3 & t4 & -> & H1 & H2 & H3 & H4)]);
    rewrite E in *; cbn [snd] in *; [destruct Hne; reflexivity|].
  cbn [map]. rewrite H1, H2, H3, H4. exact Ht.
Qed.

Lemma records_with_the_same_key_text_collide_witness :
  outfile (fst (run_transformation soup_text
                  (Some [Decoded (JObj [("fields", JObj [("summary", JStr "One");
                                                         ("description", JStr "first")])]);
                         Decoded (JObj [("fields", JObj [("summary", JStr "Two");
                                                         ("description", JStr "second")])])])))
  = derived_of soup_text
      (Decoded (JObj [("fields", JObj [("summary", JStr "One");
                                       ("description", JStr "first")])])).
Proof.
  apply (records_with_the_same_key_text_collide soup_text).
  - reflexivity.
  - vm_compute. discriminate.
Defined.

(** X19: the counters tell the truth.  When a run ends normally, its last
    log line reports the number of lines of the raw file, malformed ones
    included, and the number of tasks in the output file; when the deriver
    raises, fewer lines than the file has were counted, and the task counter
    is still the number of tasks written. *)
Theorem counters_match_the_files (html_text : string -> string) (lines : list raw_line) :
  match run_transformation html_text (Some lines) with
  | (st, None) =>
      count st = length lines
      /\ derived_count st = length (outfile st)
      /\ exists l, log st = l ++ [InfoDone (length lines) (length (outfile st))]
  | (st, Some _) =>
      (count st < length lines)%nat /\ derived_count st = length (outfile st)
  end.
Proof.
  unfold run_transformation.
  destruct (lines_loop_counts html_text lines start eq_refl) as [H1 H2].
  destruct (lines_loop html_text lines start) as [st [e|]]; cbn [fst snd] in *.
  - split; [exact H2|exact H1].
  - cbn [add_log count derived_count outfile log].
    split; [exact H2|]. split; [exact H1|]. exists (log st). rewrite H1, H2. reflexivity.
Qed.

(** X20: a line that does not decode is logged and counted and has no other
    effect: the output file and the way the run ends are those of the raw
    file without its malformed lines. *)
Theorem malformed_lines_change_nothing (html_text : string -> string)
    (lines : list raw_line) :
  outfile (fst (run_transformation html_text (Some lines)))
  = outfile (fst (run_transformation html_text (Some (List.filter is_decoded lines))))
  /\ snd (run_transformation html_text (Some lines))
     = snd (run_transformation html_text (Some (List.filter is_decoded lines))).
Proof.
  destruct (run_transformation_loop html_text lines) as [[H1 _] H2].
  destruct (run_transformation_loop html_text (List.filter is_decoded lines))
    as [[H3 _] H4].
  destruct (lines_loop_decoded html_text lines start) as [[H5 _] H6].
  split; congruence.
Qed.

(** X21: a line that occurs a second time in the raw file adds nothing: the
    output file and the way the run ends are the same with and without the
    second occurrence. *)
Theorem repeated_line_adds_nothing (html_text : string -> string)
    (a : list raw_line) (x : raw_line) (b c : list raw_line) :
  outfile (fst (run_transformation html_text (Some (a ++ x :: b ++ x :: c))))
  = outfile (fst (run_transformation html_text (Some (a ++ x :: b ++ c))))
  /\ snd (run_transformation html_text (Some (a ++ x :: b ++ x :: c)))
     = snd (run_transformation html_text (Some (a ++ x :: b ++ c))).
Proof.
  destruct (run_transformation_loop html_text (a ++ x :: b ++ x :: c)) as [[H1 _] H2].
  destruct (run_transformation_loop html_text (a ++ x :: b ++ c)) as [[H3 _] H4].
  destruct (lines_loop_repeated html_text a x b c start) as [[H5 _] H6].
  split; congruence.
Qed.

(** X22: the output file, told without the loop: it holds the tasks derived
    from the lines before the first line that makes the deriver raise, in
    the order of the lines, and of the tasks with one identifier only the
    first; and the run ends normally exactly when no line makes the deriver
    raise. *)
Theorem output_is_the_first_task_of_each_identifier (html_text : string -> string)
    (lines : list raw_line) :
  outfile (fst (run_transformation html_text (Some lines)))
  = first_of_each [] (flat_map (derived_of html_text) (processed html_text lines))
  /\ (snd (run_transformation html_text (Some lines)) = None
      <-> processed html_text lines = lines).
Proof.
  destruct (run_transformation_loop html_text lines) as [[H1 _] H2].
  rewrite H1, H2. split; [|apply lines_loop_processed].
  rewrite (lines_loop_first html_text lines start []); [reflexivity|].
  intros i. cbn [start seen_task_ids In]. set_solver.
Qed.

(** X23: whatever the record holds and whatever the parser makes of it, the
    text [_clean_text] returns has no whitespace at its ends, and its only
    whitespace characters are single spaces, each followed by a character
    that is not whitespace. *)
Theorem cleaned_text_is_single_spaced (html_text : string -> string) (text : json)
    (s : string) :
  _clean_text html_text text = Ok s ->
  single_spaced s = true
  /\ starts_with_space s = false
  /\ ends_with_space s = false.
Proof.
  unfold _clean_text. destruct (negb (Py.truthy text)).
  - intros [= <-]. repeat split.
  - destruct text; try discriminate. intros [= <-]. apply clean_single_spaced.
Qed.

Lemma cleaned_text_is_single_spaced_witness :
  single_spaced "a b c" = true
  /\ starts_with_space "a b c" = false
  /\ ends_with_space "a b c" = false.
Proof.
  apply (cleaned_text_is_single_spaced soup_text
           (JStr (" a " +:+ Py.nl +:+ Py.nl +:+ " b   c  "))).
  vm_compute. reflexivity.
Defined.

End TransformerExtras.

(** * The transformer: no e-mail address is left *)

Module EmailFacts.
Import Transformer TransformerFacts TransformerMore.

(** ** One repetition of the matcher *)

Lemma match_here_chars cls lo hi group p' prev s :
  Re.match_here (Re.Chars cls lo hi group :: p') prev s
  = repetition cls lo hi group p' O EmptyString prev s.
Proof. reflexivity. Qed.

Lemma repetition_eq cls lo hi group p' n taken prev s :
  repetition cls lo hi group p' n taken prev s
  = match
      match s with
      | String c s' =>
          if cls c && Re.below hi n
          then repetition cls lo hi group p' (S n) (taken +:+ String c EmptyString)
                 (Some c) s'
          else None
      | EmptyString => None
      end
    with
    | Some r => Some r
    | None =>
        if (lo <=? n)%nat then
          match Re.match_here p' prev s with
          | Some (g, rest) => Some (if group then taken else g, rest)
          | None => None
          end
        else None
    end.
Proof. destruct s; reflexivity. Qed.

Lemma append_cons c (a b : string) : String c a +:+ b = String c (a +:+ b).
Proof. reflexivity. Qed.

Lemma append_nil (b : string) : EmptyString +:+ b = b.
Proof. reflexivity. Qed.

Lemma length_append (a b : string) :
  String.length (a +:+ b) = (String.length a + String.length b)%nat.
Proof.
  induction a as [|c a IH]; [reflexivity|].
  rewrite append_cons. cbn [String.length]. rewrite IH. reflexivity.
Qed.

Lemma every_append cls (a b : string) :
  every cls (a +:+ b) = every cls a && every cls b.
Proof.
  induction a as [|c a IH]; [reflexivity|].
  rewrite append_cons. cbn [every]. rewrite IH, andb_assoc. reflexivity.
Qed.

Lemma every_impl (cls cls' : ascii -> bool) s :
  (forall c, cls c = true -> cls' c = true) -> every cls s = true -> every cls' s = true.
Proof.
  intros H. induction s as [|c s IH]; cbn [every]; [reflexivity|].
  intros [Hc Hs]%andb_prop. rewrite (H c Hc), (IH Hs). reflexivity.
Qed.

(** What a repetition that matched has taken *)
Lemma repetition_sound cls lo hi group p' s : forall n taken prev g rest,
  repetition cls lo hi group p' n taken prev s = Some (g, rest) ->
  exists u x prev' g',
    s = u +:+ x /\ every cls u = true /\ (lo <= n + String.length u)%nat
    /\ Re.match_here p' prev' x = Some (g', rest).
Proof.
  induction s as [|c s IH]; intros n taken prev g rest; rewrite repetition_eq.
  - destruct (lo <=? n)%nat eqn:Elo; [|discriminate].
    destruct (Re.match_here p' prev EmptyString) as [[g' rest']|] eqn:E; [|discriminate].
    intros [= _ <-]. apply Nat.leb_le in Elo.
    exists EmptyString, EmptyString, prev, g'. cbn [String.length].
    repeat split; [lia|exact E].
  - destruct (cls c && Re.below hi n) eqn:Ec.
    + destruct (repetition cls lo hi group p' (S n) _ (Some c) s) as [[g1 rest1]|] eqn:Er.
      * intros [= <- <-]. destruct (IH _ _ _ _ _ Er) as (u & x & prev' & g' & -> & Hu & Hn & Hm).
        exists (String c u), x, prev', g'. rewrite append_cons. cbn [every String.length].
        apply andb_prop in Ec as [Ec _]. rewrite Ec, Hu.
        repeat split; [lia|exact Hm].
      * destruct (lo <=? n)%nat eqn:Elo; [|discriminate].
        destruct (Re.match_here p' prev (String c s)) as [[g' rest']|] eqn:E; [|discriminate].
        intros [= _ <-]. apply Nat.leb_le in Elo.
        exists EmptyString, (String c s), prev, g'. cbn [String.length].
        repeat split; [lia|exact E].
    + destruct (lo <=? n)%nat eqn:Elo; [|discriminate].
      destruct (Re.match_here p' prev (String c s)) as [[g' rest']|] eqn:E; [|discriminate].
      intros [= _ <-]. apply Nat.leb_le in Elo.
      exists EmptyString, (String c s), prev, g'. cbn [String.length].
      repeat split; [lia|exact E].
Qed.

(** An unbounded repetition finds a match when there is one *)
Lemma repetition_complete cls lo group p' x u : forall n taken prev,
  every cls u = true ->
  (lo <= n + String.length u)%nat ->
  (forall prev', Re.match_here p' prev' x <> None) ->
  repetition cls lo None group p' n taken prev (u +:+ x) <> None.
Proof.
  induction u as [|c u IH]; intros n taken prev Hu Hn Hx; rewrite repetition_eq.
  - rewrite append_nil. cbn [String.length] in Hn.
    match goal with |- match ?inner with _ => _ end <> _ => destruct inner end;
      [discriminate|].
    replace (lo <=? n)%nat with true by (symmetry; apply Nat.leb_le; lia).
    specialize (Hx prev). destruct (Re.match_here p' prev x) as [[g rest]|];
      [discriminate|congruence].
  - rewrite append_cons. cbn [every String.length] in *.
    apply andb_prop in Hu as [Hc Hu]. rewrite Hc. cbn [andb Re.below].
    specialize (IH (S n) (taken +:+ String c EmptyString) (Some c) Hu).
    destruct (repetition cls lo None group p' (S n) _ (Some c) (u +:+ x));
      [discriminate|]. exfalso. apply IH; [lia|exact Hx|reflexivity].
Qed.

(** A literal character *)
Lemma lit_complete c p' prev x :
  (forall prev', Re.match_here p' prev' x <> None) ->
  Re.match_here (Re.lit c :: p') prev (String c x) <> None.
Proof.
  intros Hx. unfold Re.lit. rewrite match_here_chars, repetition_eq.
  rewrite Ascii.eqb_refl. cbn [andb Re.below Nat.ltb Nat.leb].
  rewrite repetition_eq.
  replace (match x with
           | EmptyString => None
           | String c0 s' =>
               if Ascii.eqb c c0 && Re.below (Some 1%nat) 1
               then repetition (Ascii.eqb c) 1 (Some 1%nat) false p' 2
                      ((EmptyString +:+ String c EmptyString) +:+ String c0 EmptyString)
                      (Some c0) s'
               else None
           end) with (@None (string * string))
    by (destruct x; [reflexivity|]; cbn [Re.below Nat.ltb Nat.leb];
        rewrite andb_false_r; reflexivity).
  cbn [Nat.leb]. specialize (Hx (Some c)).
  destruct (Re.match_here p' (Some c) x) as [[g rest]|]; [discriminate|congruence].
Qed.

(** The last repetition of a pattern takes all it can *)
Lemma repetition_last cls lo group s : forall n taken prev g rest,
  repetition cls lo None group [] n taken prev s = Some (g, rest) ->
  match rest with
  | EmptyString => True
  | String c _ => cls c = false
  end.
Proof.
  induction s as [|c s IH]; intros n taken prev g rest; rewrite repetition_eq.
  - destruct (lo <=? n)%nat; [|discriminate]. cbn [Re.match_here].
    intros [= _ <-]. exact I.
  - destruct (cls c) eqn:Ec; cbn [andb Re.below].
    + destruct (repetition cls lo None group [] (S n) _ (Some c) s) as [[g1 rest1]|] eqn:Er.
      * intros [= <- <-]. apply (IH _ _ _ _ _ Er).
      * destruct (lo <=? n)%nat eqn:Elo; [|discriminate].
        apply Nat.leb_le in Elo. exfalso.
        apply (repetition_complete cls lo group [] s EmptyString (S n)
                 (taken +:+ String c EmptyString) (Some c)); [reflexivity|cbn; lia| |exact Er].
        intros prev'. discriminate.
    + destruct (lo <=? n)%nat; [|discriminate]. cbn [Re.match_here].
      intros [= _ <-]. exact Ec.
Qed.

Lemma word_boundary_sound p' prev s r :
  Re.match_here (Re.WordBoundary :: p') prev s = Some r ->
  Re.match_here p' prev s = Some r.
Proof. cbn [Re.match_here]. destruct (xorb _ _); [tauto|discriminate]. Qed.

(** ** The reader *)

Lemma at_not_space c : Ascii.eqb c "@" = true -> Py.is_space c = false.
Proof. intros ->%Ascii.eqb_eq. reflexivity. Qed.

Lemma dot_not_space c : Ascii.eqb c "." = true -> Py.is_space c = false.
Proof. intros ->%Ascii.eqb_eq. reflexivity. Qed.

Lemma non_space_not_space c : non_space c = true <-> Py.is_space c = false.
Proof. unfold non_space. apply negb_true_iff. Qed.

Lemma step_found c : step Found c = Found.
Proof. reflexivity. Qed.

Lemma scan_found s : scan Found s = Found.
Proof. induction s as [|c s IH]; [reflexivity|exact IH]. Qed.

Lemma scan_word_found s : scan_word Found s = Found.
Proof.
  induction s as [|c s IH]; [reflexivity|]. cbn [scan_word].
  destruct (Py.is_space c); [reflexivity|exact IH].
Qed.

Lemma scan_append a b q : scan q (a +:+ b) = scan (scan q a) b.
Proof.
  revert q. induction a as [|c a IH]; intros q; [reflexivity|].
  rewrite append_cons. cbn [scan]. apply IH.
Qed.

Lemma step_grows q c : Py.is_space c = false -> (rank q <= rank (step q c))%nat.
Proof.
  intros H. unfold step. rewrite H.
  destruct q; cbn [rank]; try lia; destruct (Ascii.eqb c _); cbn [rank]; lia.
Qed.

Lemma step_mono q q' c :
  (rank q <= rank q')%nat -> (rank (step q c) <= rank (step q' c))%nat.
Proof.
  unfold step. destruct (Py.is_space c), (Ascii.eqb c "@"), (Ascii.eqb c ".");
    destruct q, q'; cbn [rank]; lia.
Qed.

Lemma scan_mono s : forall q q',
  (rank q <= rank q')%nat -> (rank (scan q s) <= rank (scan q' s))%nat.
Proof.
  induction s as [|c s IH]; intros q q' H; [exact H|]. apply IH, step_mono, H.
Qed.

Lemma scan_word_mono s : forall q q',
  (rank q <= rank q')%nat -> (rank (scan_word q s) <= rank (scan_word q' s))%nat.
Proof.
  induction s as [|c s IH]; intros q q' H; [exact H|]. cbn [scan_word].
  destruct (Py.is_space c); [exact H|]. apply IH, step_mono, H.
Qed.

Lemma scan_grows u : forall q,
  every non_space u = true -> (rank q <= rank (scan q u))%nat.
Proof.
  induction u as [|c u IH]; intros q; [cbn; lia|]. cbn [every scan].
  intros [Hc Hu]%andb_prop. apply non_space_not_space in Hc.
  pose proof (step_grows q c Hc). specialize (IH (step q c) Hu). lia.
Qed.

Lemma rank_found q : (5 <= rank q)%nat -> q = Found.
Proof. destruct q; cbn [rank]; intros H; try lia. reflexivity. Qed.

(** One character more of a class, from a given stage on *)
Lemma scan_climbs (cls : ascii -> bool) (k : nat) u : forall q,
  (forall c q', cls c = true -> (k <= rank q')%nat ->
                Py.is_space c = false /\ (S k <= rank (step q' c))%nat) ->
  every cls u = true ->
  (1 <= String.length u)%nat ->
  (k <= rank q)%nat ->
  (S k <= rank (scan q u))%nat.
Proof.
  intros q Hstep Hu Hl Hq. destruct u as [|c u]; [cbn in Hl; lia|].
  cbn [every scan] in *. apply andb_prop in Hu as [Hc Hu].
  destruct (Hstep c q Hc Hq) as [_ H1].
  clear Hl Hq Hc. revert q H1. generalize c. clear c.
  induction u as [|d u IH]; intros c q H1; [exact H1|].
  cbn [every scan] in *. apply andb_prop in Hu as [Hd Hu].
  apply (IH Hu d). destruct (Hstep d (step q c) Hd) as [Hs H2]; [lia|].
  pose proof (step_grows (step q c) d Hs). lia.
Qed.

Lemma step_local c q :
  non_space c = true -> (0 <= rank q)%nat ->
  Py.is_space c = false /\ (1 <= rank (step q c))%nat.
Proof.
  intros H%non_space_not_space _. split; [exact H|]. unfold step. rewrite H.
  destruct q; cbn [rank]; try lia; destruct (Ascii.eqb c _); cbn [rank]; lia.
Qed.

Lemma step_at c q :
  Ascii.eqb "@" c = true -> (1 <= rank q)%nat ->
  Py.is_space c = false /\ (2 <= rank (step q c))%nat.
Proof.
  intros <-%Ascii.eqb_eq Hq. split; [reflexivity|].
  destruct q; cbn [rank] in Hq; try lia; vm_compute; lia.
Qed.

Lemma step_domain c q :
  non_space c = true -> (2 <= rank q)%nat ->
  Py.is_space c = false /\ (3 <= rank (step q c))%nat.
Proof.
  intros H%non_space_not_space Hq. split; [exact H|]. unfold step. rewrite H.
  destruct q; cbn [rank] in *; try lia; destruct (Ascii.eqb c _); cbn [rank]; lia.
Qed.

Lemma step_dot c q :
  Ascii.eqb "." c = true -> (3 <= rank q)%nat ->
  Py.is_space c = false /\ (4 <= rank (step q c))%nat.
Proof.
  intros <-%Ascii.eqb_eq Hq. split; [reflexivity|].
  destruct q; cbn [rank] in Hq; try lia; vm_compute; lia.
Qed.

Lemma step_all c q :
  non_space c = true -> (4 <= rank q)%nat ->
  Py.is_space c = false /\ (5 <= rank (step q c))%nat.
Proof.
  intros H%non_space_not_space Hq. split; [exact H|]. unfold step. rewrite H.
  destruct q; cbn [rank] in *; lia.
Qed.

(** ** The pattern and the reader *)

Lemma match_here_nil prev s : Re.match_here [] prev s = Some (EmptyString, s).
Proof. destruct s; reflexivity. Qed.

(** What a match of the e-mail pattern is made of *)
Lemma email_sound prev s g rest :
  Re.match_here email_re prev s = Some (g, rest) ->
  exists m,
    s = m +:+ rest
    /\ every non_space m = true
    /\ (1 <= String.length m)%nat
    /\ scan Start m = Found
    /\ starts_with_space rest = match rest with EmptyString => false | _ => true end.
Proof.
  unfold email_re, Re.plus, Re.lit. rewrite match_here_chars. intros H.
  apply repetition_sound in H as (u & x1 & prev1 & g1 & -> & Hu & Hlu & H).
  rewrite match_here_chars in H.
  apply repetition_sound in H as (a & x2 & prev2 & g2 & -> & Ha & Hla & H).
  rewrite match_here_chars in H.
  apply repetition_sound in H as (v & x3 & prev3 & g3 & -> & Hv & Hlv & H).
  rewrite match_here_chars in H.
  apply repetition_sound in H as (d & x4 & prev4 & g4 & -> & Hd & Hld & H).
  rewrite match_here_chars in H.
  pose proof (repetition_last _ _ _ _ _ _ _ _ _ H) as Hlast.
  apply repetition_sound in H as (t & x5 & prev5 & g5 & -> & Ht & Hlt & H).
  rewrite match_here_nil in H. injection H as _ ->.
  exists (u +:+ a +:+ v +:+ d +:+ t).
  assert (Ha' : every non_space a = true).
  { apply (every_impl (Ascii.eqb "@")); [|exact Ha].
    intros c <-%Ascii.eqb_eq. reflexivity. }
  assert (Hd' : every non_space d = true).
  { apply (every_impl (Ascii.eqb ".")); [|exact Hd].
    intros c <-%Ascii.eqb_eq. reflexivity. }
  split; [rewrite !append_assoc; reflexivity|].
  split; [rewrite !every_append, Hu, Ha', Hv, Hd', Ht; reflexivity|].
  split; [rewrite !length_append; lia|].
  split.
  - rewrite !scan_append. apply rank_found.
    apply (scan_climbs non_space 4); [apply step_all|exact Ht|lia|].
    apply (scan_climbs (Ascii.eqb ".") 3); [apply step_dot|exact Hd|lia|].
    apply (scan_climbs non_space 2); [apply step_domain|exact Hv|lia|].
    apply (scan_climbs (Ascii.eqb "@") 1); [apply step_at|exact Ha|lia|].
    apply (scan_climbs non_space 0); [apply step_local|exact Hu|lia|]. cbn. lia.
  - destruct rest as [|c rest]; [reflexivity|]. cbn [starts_with_space].
    apply negb_false_iff. exact Hlast.
Qed.

Lemma scan_word_append m rest : forall q,
  every non_space m = true -> scan_word q (m +:+ rest) = scan_word (scan q m) rest.
Proof.
  induction m as [|c m IH]; intros q; [reflexivity|].
  rewrite append_cons. cbn [every scan scan_word].
  intros [Hc Hm]%andb_prop. apply non_space_not_space in Hc. rewrite Hc. apply IH, Hm.
Qed.

(** What the reader has found in a word, the pattern matches *)

Lemma found_after_dot s :
  scan_word Dot s = Found ->
  exists c x, s = String c x /\ non_space c = true.
Proof.
  destruct s as [|c x]; [discriminate|]. cbn [scan_word].
  destruct (Py.is_space c) eqn:E; [discriminate|]. intros _.
  exists c, x. split; [reflexivity|]. apply non_space_not_space, E.
Qed.

Lemma found_after_domain s :
  scan_word Domain s = Found ->
  exists v x, s = v +:+ String "." x /\ every non_space v = true
              /\ scan_word Dot x = Found.
Proof.
  induction s as [|c s IH]; [discriminate|]. cbn [scan_word].
  destruct (Py.is_space c) eqn:E; [discriminate|]. unfold step. rewrite E.
  destruct (Ascii.eqb c ".") eqn:Ec.
  - apply Ascii.eqb_eq in Ec. subst c. intros H.
    exists EmptyString, s. repeat split. exact H.
  - intros H. destruct (IH H) as (v & x & -> & Hv & Hx).
    exists (String c v), x. rewrite append_cons. cbn [every].
    apply non_space_not_space in E. rewrite E, Hv. repeat split. exact Hx.
Qed.

Lemma found_after_at s :
  scan_word At s = Found ->
  exists c x, s = String c x /\ non_space c = true /\ scan_word Domain x = Found.
Proof.
  destruct s as [|c x]; [discriminate|]. cbn [scan_word].
  destruct (Py.is_space c) eqn:E; [discriminate|]. unfold step. rewrite E. intros H.
  exists c, x. split; [reflexivity|]. split; [apply non_space_not_space, E|exact H].
Qed.

Lemma found_after_local s :
  scan_word Local s = Found ->
  exists u x, s = u +:+ String "@" x /\ every non_space u = true
              /\ scan_word At x = Found.
Proof.
  induction s as [|c s IH]; [discriminate|]. cbn [scan_word].
  destruct (Py.is_space c) eqn:E; [discriminate|]. unfold step. rewrite E.
  destruct (Ascii.eqb c "@") eqn:Ec.
  - apply Ascii.eqb_eq in Ec. subst c. intros H.
    exists EmptyString, s. repeat split. exact H.
  - intros H. destruct (IH H) as (u & x & -> & Hu & Hx).
    exists (String c u), x. rewrite append_cons. cbn [every].
    apply non_space_not_space in E. rewrite E, Hu. repeat split. exact Hx.
Qed.

Lemma found_at_start s :
  scan_word Start s = Found ->
  exists c x, s = String c x /\ non_space c = true /\ scan_word Local x = Found.
Proof.
  destruct s as [|c x]; [discriminate|]. cbn [scan_word].
  destruct (Py.is_space c) eqn:E; [discriminate|]. unfold step. rewrite E. intros H.
  exists c, x. split; [reflexivity|]. split; [apply non_space_not_space, E|exact H].
Qed.

Lemma email_complete prev s :
  scan_word Start s = Found -> Re.match_here email_re prev s <> None.
Proof.
  intros H.
  apply found_at_start in H as (c1 & x1 & -> & Hc1 & H).
  apply found_after_local in H as (u & x2 & -> & Hu & H).
  apply found_after_at in H as (c3 & x3 & -> & Hc3 & H).
  apply found_after_domain in H as (v & x4 & -> & Hv & H).
  apply found_after_dot in H as (c5 & x5 & -> & Hc5).
  unfold email_re, Re.plus. rewrite match_here_chars.
  change (String c1 (u +:+ String "@" (String c3 (v +:+ String "." (String c5 x5)))))
    with (String c1 u +:+ String "@" (String c3 v +:+ String "." (String c5 x5))).
  apply repetition_complete; [cbn [every]; rewrite Hc1, Hu; reflexivity|cbn; lia|].
  intros prev1. apply lit_complete. intros prev2. rewrite match_here_chars.
  apply repetition_complete; [cbn [every]; rewrite Hc3, Hv; reflexivity|cbn; lia|].
  intros prev3. apply lit_complete. intros prev4. rewrite match_here_chars.
  change (String c5 x5) with (String c5 EmptyString +:+ x5).
  apply repetition_complete; [cbn [every]; rewrite Hc5; reflexivity|cbn; lia|].
  intros prev5. rewrite match_here_nil. discriminate.
Qed.

(** ** Substitution *)

Lemma sub_from_drop p repl rest m : forall prev,
  exists prev',
    Re.sub_from p repl prev (String.length m) (m +:+ rest)
    = Re.sub_from p repl prev' O rest.
Proof.
  induction m as [|c m IH]; intros prev; [exists prev; reflexivity|].
  rewrite append_cons. cbn [String.length Re.sub_from]. apply IH.
Qed.

(** One step of [Re.sub_from] at a place where the pattern matches a text
    that is not empty *)
Lemma sub_from_match p repl prev s g rest m :
  Re.match_here p prev s = Some (g, rest) ->
  s = m +:+ rest ->
  (1 <= String.length m)%nat ->
  exists prev', Re.sub_from p repl prev O s = repl g +:+ Re.sub_from p repl prev' O rest.
Proof.
  intros Hm -> Hl. destruct m as [|c m]; [cbn in Hl; lia|].
  rewrite append_cons in *. cbn [Re.sub_from]. rewrite Hm.
  rewrite <- append_cons, length_append.
  replace (String.length (String c m) + String.length rest - String.length rest)%nat
    with (S (String.length m)) by (cbn [String.length]; lia).
  destruct (sub_from_drop p repl rest m (Some c)) as [prev' ->]. exists prev'. reflexivity.
Qed.

Lemma sub_from_miss p repl prev c s :
  Re.match_here p prev (String c s) = None ->
  Re.sub_from p repl prev O (String c s) = String c (Re.sub_from p repl (Some c) O s).
Proof. intros H. cbn [Re.sub_from]. rewrite H. reflexivity. Qed.

(** ** The e-mail step leaves no address *)

Lemma email_step n : forall s prev q,
  (String.length s <= n)%nat ->
  q <> Found ->
  q = Start \/ scan_word q s <> Found ->
  scan q (Re.sub_from email_re (fun _ => "[EMAIL_REMOVED]") prev O s) <> Found.
Proof.
  induction n as [|n IH]; intros [|c s] prev q Hn Hq Hsafe; cbn [String.length] in Hn;
    try lia; try exact Hq.
  destruct (Re.match_here email_re prev (String c s)) as [[g rest]|] eqn:E.
  - destruct (email_sound _ _ _ _ E) as (m & Hs & Hm & Hl & Hfound & Hrest).
    assert (Hword : scan_word Start (String c s) = Found).
    { rewrite Hs, scan_word_append, Hfound by exact Hm. apply scan_word_found. }
    assert (Hstart : q = Start).
    { destruct Hsafe as [->|Hsafe]; [reflexivity|]. destruct Hsafe.
      apply rank_found. pose proof (scan_word_mono (String c s) Start q) as Hmono.
      rewrite Hword in Hmono. apply Hmono. cbn. lia. }
    subst q.
    destruct (sub_from_match email_re (fun _ => "[EMAIL_REMOVED]") _ _ _ _ _ E Hs Hl)
      as [prev' ->].
    rewrite scan_append. change (scan Start "[EMAIL_REMOVED]") with Local.
    apply IH.
    + apply (f_equal String.length) in Hs. rewrite length_append in Hs.
      cbn [String.length] in Hs. lia.
    + discriminate.
    + right. destruct rest as [|d rest]; [discriminate|]. cbn [starts_with_space] in Hrest.
      cbn [scan_word]. rewrite Hrest. discriminate.
  - rewrite (sub_from_miss _ _ _ _ _ E). cbn [scan].
    assert (Hword : scan_word q (String c s) <> Found).
    { destruct Hsafe as [->|Hsafe]; [|exact Hsafe].
      intros H. apply (email_complete prev) in H. congruence. }
    cbn [scan_word] in Hword. destruct (Py.is_space c) eqn:Ec.
    + apply IH; [lia| |left]; unfold step; rewrite Ec; destruct q; congruence.
    + apply IH; [lia| |right; exact Hword].
      intros H. rewrite H, scan_word_found in Hword. congruence.
Qed.

(** ** The later steps make none *)

Lemma digit_not_space c : Py.is_digit c = true -> non_space c = true.
Proof.
  destruct c as [[] [] [] [] [] [] [] []]; vm_compute; intros H;
    reflexivity || discriminate H.
Qed.

Lemma ip_sound prev s g rest :
  Re.match_here ip_re prev s = Some (g, rest) ->
  exists m, s = m +:+ rest /\ every non_space m = true /\ (1 <= String.length m)%nat.
Proof.
  unfold ip_re, Re.lit. intros H.
  apply word_boundary_sound in H. rewrite match_here_chars in H.
  apply repetition_sound in H as (d1 & x1 & prev1 & g1 & -> & Hd1 & Hl1 & H).
  rewrite match_here_chars in H.
  apply repetition_sound in H as (a1 & x2 & prev2 & g2 & -> & Ha1 & _ & H).
  rewrite match_here_chars in H.
  apply repetition_sound in H as (d2 & x3 & prev3 & g3 & -> & Hd2 & _ & H).
  rewrite match_here_chars in H.
  apply repetition_sound in H as (a2 & x4 & prev4 & g4 & -> & Ha2 & _ & H).
  rewrite match_here_chars in H.
  apply repetition_sound in H as (d3 & x5 & prev5 & g5 & -> & Hd3 & _ & H).
  rewrite match_here_chars in H.
  apply repetition_sound in H as (a3 & x6 & prev6 & g6 & -> & Ha3 & _ & H).
  rewrite match_here_chars in H.
  apply repetition_sound in H as (d4 & x7 & prev7 & g7 & -> & Hd4 & _ & H).
  apply word_boundary_sound in H. rewrite match_here_nil in H. injection H as _ ->.
  assert (Hdot : forall a, every (Ascii.eqb ".") a = true -> every non_space a = true).
  { intros a. apply every_impl. intros c <-%Ascii.eqb_eq. reflexivity. }
  assert (Hdig : forall d, every Py.is_digit d = true -> every non_space d = true).
  { intros d. apply every_impl, digit_not_space. }
  exists (d1 +:+ a1 +:+ d2 +:+ a2 +:+ d3 +:+ a3 +:+ d4).
  split; [rewrite !append_assoc; reflexivity|].
  split.
  - rewrite !every_append, (Hdig _ Hd1), (Hdot _ Ha1), (Hdig _ Hd2), (Hdot _ Ha2),
      (Hdig _ Hd3), (Hdot _ Ha3), (Hdig _ Hd4). reflexivity.
  - rewrite length_append. lia.
Qed.

Lemma scan_replaced m : forall q q',
  every non_space m = true ->
  (1 <= String.length m)%nat ->
  (rank q' <= rank q)%nat ->
  (rank (scan q' "[IP_REMOVED]") <= rank (scan q m))%nat.
Proof.
  intros q q' Hm Hl Hq. destruct m as [|d m]; [cbn in Hl; lia|].
  cbn [every] in Hm. apply andb_prop in Hm as [Hd Hm].
  change (scan q (String d m)) with (scan (step q d) m).
  pose proof (scan_grows m (step q d) Hm) as Hg.
  apply non_space_not_space in Hd.
  assert (H : (rank (scan q' "[IP_REMOVED]") <= rank (step q d))%nat).
  { unfold step. rewrite Hd.
    destruct q', q; cbn [rank] in Hq; try lia; vm_compute scan;
      destruct (Ascii.eqb d "@"), (Ascii.eqb d "."); cbn [rank]; lia. }
  lia.
Qed.

Lemma ip_step n : forall s prev q q',
  (String.length s <= n)%nat ->
  (rank q' <= rank q)%nat ->
  (rank (scan q' (Re.sub_from ip_re (fun _ => "[IP_REMOVED]") prev O s))
   <= rank (scan q s))%nat.
Proof.
  induction n as [|n IH]; intros s prev q q' Hn Hq.
  - destruct s as [|c s]; [|cbn [String.length] in Hn; lia].
    cbn [Re.sub_from scan].
    destruct (Re.match_here ip_re prev EmptyString) as [[g rest]|] eqn:E; [|exact Hq].
    destruct (ip_sound _ _ _ _ E) as (m & Hs & _ & Hl).
    apply (f_equal String.length) in Hs. rewrite length_append in Hs.
    cbn [String.length] in Hs. lia.
  - destruct s as [|c s].
    + cbn [Re.sub_from scan].
      destruct (Re.match_here ip_re prev EmptyString) as [[g rest]|] eqn:E; [|exact Hq].
      destruct (ip_sound _ _ _ _ E) as (m & Hs & _ & Hl).
      apply (f_equal String.length) in Hs. rewrite length_append in Hs.
      cbn [String.length] in Hs. lia.
    + cbn [String.length] in Hn.
      destruct (Re.match_here ip_re prev (String c s)) as [[g rest]|] eqn:E.
      * destruct (ip_sound _ _ _ _ E) as (m & Hs & Hm & Hl).
        destruct (sub_from_match ip_re (fun _ => "[IP_REMOVED]") _ _ _ _ _ E Hs Hl)
          as [prev' ->].
        rewrite Hs, !scan_append. apply IH.
        -- apply (f_equal String.length) in Hs. rewrite length_append in Hs.
           cbn [String.length] in Hs. lia.
        -- apply scan_replaced; assumption.
      * rewrite (sub_from_miss _ _ _ _ _ E). cbn [scan]. apply IH; [lia|].
        apply step_mono, Hq.
Qed.

Lemma scan_lstrip s : forall q,
  q = Start \/ q = Found -> scan q (Re.lstrip s) = scan q s.
Proof.
  induction s as [|c s IH]; intros q Hq; [reflexivity|]. cbn [Re.lstrip].
  destruct (Py.is_space c) eqn:E; [|reflexivity]. cbn [scan].
  replace (step q c) with q
    by (destruct Hq as [->| ->]; unfold step; rewrite ?E; reflexivity).
  apply IH, Hq.
Qed.

Lemma step_space q c : Py.is_space c = true -> step q c = step q " ".
Proof. intros E. unfold step. rewrite E. destruct q; reflexivity. Qed.

Lemma step_space_cases q : step q " " = Start \/ step q " " = Found.
Proof. destruct q; cbn; tauto. Qed.

Lemma space_step n : forall s prev q,
  (String.length s <= n)%nat ->
  scan q (Re.sub_from space_re (fun _ => " ") prev O s) = scan q s.
Proof.
  induction n as [|n IH]; intros [|c s] prev q Hn; cbn [String.length] in Hn; try lia;
    cbn [Re.sub_from]; rewrite match_spaces; cbn [starts_with_space];
    try reflexivity.
  destruct (Py.is_space c) eqn:E.
  - cbn [Re.lstrip]. rewrite E. pose proof (length_lstrip s) as Hl.
    cbn [String.length].
    replace (S (String.length s) - String.length (Re.lstrip s))%nat
      with (S (String.length s - String.length (Re.lstrip s))) by lia.
    destruct (sub_from_skip space_re (fun _ => " ") s (Some c)) as [prev' ->].
    change (" " +:+ ?x) with (String " " x). cbn [scan].
    rewrite IH by lia. rewrite (step_space q c E).
    apply scan_lstrip, step_space_cases.
  - cbn [scan]. apply IH. lia.
Qed.

Lemma scan_rstrip s : forall q, scan q (Re.rstrip s) = Found -> scan q s = Found.
Proof.
  induction s as [|c s IH]; intros q; [tauto|]. cbn [Re.rstrip scan].
  specialize (IH (step q c)).
  destruct (Re.rstrip s) as [|d r].
  - destruct (Py.is_space c).
    + cbn [scan]. intros ->. apply scan_found.
    + cbn [scan]. intros ->. apply scan_found.
  - exact IH.
Qed.

(** ** Searching *)

Lemma email_found prev s g rest q :
  Re.match_here email_re prev s = Some (g, rest) -> scan q s = Found.
Proof.
  intros E. destruct (email_sound _ _ _ _ E) as (m & -> & _ & _ & Hfound & _).
  rewrite scan_append.
  replace (scan q m) with Found; [apply scan_found|].
  symmetry. apply rank_found. pose proof (scan_mono m Start q) as Hmono.
  rewrite Hfound in Hmono. apply Hmono. cbn. lia.
Qed.

Lemma search_found s : forall prev q,
  search email_re prev s = true -> scan q s = Found.
Proof.
  induction s as [|c s IH]; intros prev q; cbn [search].
  - destruct (Re.match_here email_re prev EmptyString) as [[g rest]|] eqn:E;
      [|discriminate]. intros _. apply (email_found _ _ _ _ _ E).
  - destruct (Re.match_here email_re prev (String c s)) as [[g rest]|] eqn:E.
    + intros _. apply (email_found _ _ _ _ _ E).
    + intros H. cbn [scan]. apply (IH _ _ H).
Qed.

Lemma clean_no_email html_text text :
  search email_re None (clean html_text text) = false.
Proof.
  unfold clean, Re.strip, Re.sub.
  set (t1 := Re.sub_from link_re _ _ _ _).
  set (t2 := Re.sub_from email_re _ None O t1).
  set (t3 := Re.sub_from ip_re _ None O t2).
  set (t4 := Re.sub_from space_re _ None O t3).
  assert (H2 : scan Start t2 <> Found).
  { apply (email_step (String.length t1)); [lia|discriminate|left; reflexivity]. }
  assert (H3 : scan Start t3 <> Found).
  { pose proof (ip_step (String.length t2) t2 None Start Start (le_n _) (le_n _)) as H.
    fold t3 in H. intros E. rewrite E in H. apply H2, rank_found. exact H. }
  assert (H4 : scan Start t4 <> Found).
  { unfold t4. rewrite (space_step (String.length t3)) by lia. exact H3. }
  destruct (search email_re None (Re.rstrip (Re.lstrip t4))) eqn:E; [|reflexivity].
  apply (search_found _ None Start) in E. apply scan_rstrip in E.
  rewrite scan_lstrip in E by (left; reflexivity). contradiction.
Qed.

End EmailFacts.

(** * The transformer: no e-mail address is left in cleaned text *)

Section EmailExtras.
Import Transformer TransformerFacts TransformerMore EmailFacts.

(** X27: no e-mail address is left: whatever the record holds and whatever
    the parser makes of it, the e-mail pattern of [_clean_text] matches
    nowhere in the text [_clean_text] returns. *)
Theorem cleaned_text_has_no_email (html_text : string -> string) (text : json)
    (s : string) :
  _clean_text html_text text = Ok s ->
  search email_re None s = false.
Proof.
  unfold _clean_text. destruct (negb (Py.truthy text)).
  - intros [= <-]. reflexivity.
  - destruct text; try discriminate. intros [= <-]. apply clean_no_email.
Qed.

Lemma cleaned_text_has_no_email_witness :
  search email_re None "mail [EMAIL_REMOVED] or [EMAIL_REMOVED] now" = false.
Proof.
  apply (cleaned_text_has_no_email soup_text
           (JStr "mail bob@example.com or eve@10.0.0.1.org now")).
  vm_compute. reflexivity.
Defined.

End EmailExtras.
